(** * A shallow embedding of the Firefox debug adapter bridge

    The development follows the TypeScript sources of the adapter:
    - [PendingRequests] and [RootActorProxy] (firefox/actorProxy/root.ts and
      the pending-request queue it imports),
    - [DescriptorActorProxy.getWatcher] (firefox/actorProxy/descriptor.ts),
    - [FirefoxDebugSession] (the session orchestrator): the Root [init]
      handler, target attachment and destruction, the thread-state handler
      with its blackbox, hit-count and debugger-eval gates, the stopped
      event, and the shutdown sequence; further [connectToFirefox] and the
      console-message and page-error handlers,
    - [ThreadActorProxy] and [TabActorProxy] of the single-file actor-proxy
      module,
    - the helpers of the integration tests (test/util.ts).

    Handlers are embedded as state-passing functions that return the new
    state together with the list of effects they performed, in program
    order.  Results obtained by awaiting a collaborator whose code lives
    elsewhere are supplied by an environment record; a promise that can
    reject is answered by an outcome.  The handler of a target's arrival,
    which awaits while other handlers of the session can run, is split at
    its [await]: its continuation is a step of its own. *)

From Stdlib Require Import ZArith Lia.
From stdpp Require Import base option list gmap strings.

Open Scope string_scope.
Open Scope list_scope.

(** ** JavaScript helpers *)

Module JS.

(** Truthiness of a JavaScript string: every string but the empty one. *)
Definition truthy_string (s : string) : bool :=
  negb (String.eqb s "").

(** Truthiness of an optional string property ([undefined] is falsy). *)
Definition truthy_opt_string (o : option string) : bool :=
  match o with
  | Some s => truthy_string s
  | None => false
  end.

(** Truthiness of a JavaScript number, for the integers used here. *)
Definition truthy_number (n : Z) : bool := negb (n =? 0)%Z.

(** An insertion-ordered [Map<string, V>]: [has], [get], [set] and the
    iteration order of [forEach] are those of the JavaScript [Map]. *)
Section OrderedMap.
Context {V : Type}.

Definition Map := list (string * V).

Fixpoint Map_get (k : string) (m : Map) : option V :=
  match m with
  | [] => None
  | (k', v) :: m' => if String.eqb k k' then Some v else Map_get k m'
  end.

Definition Map_has (k : string) (m : Map) : bool :=
  match Map_get k m with Some _ => true | None => false end.

(** [set] keeps the position of a key that is already present and
    appends a new key at the end. *)
Fixpoint Map_set (k : string) (v : V) (m : Map) : Map :=
  match m with
  | [] => [(k, v)]
  | (k', v') :: m' =>
      if String.eqb k k' then (k', v) :: m' else (k', v') :: Map_set k v m'
  end.

Definition Map_size (m : Map) : nat := length m.
End OrderedMap.

Arguments Map : clear implicits.

End JS.

(** ** The pending-request queue *)

Module PendingRequests.

(** A [PendingRequest<T>] is the pair of settle functions of one promise;
    the embedding names the promise by a number. *)
Definition PendingRequest := nat.

Section Queue.
Context {T : Type}.

Inductive Settlement :=
| Resolved (request : PendingRequest) (t : T)
| Rejected (request : PendingRequest) (err : string)
| ConsoleLog (msg : string).

(** [pendingRequests: PendingRequest<T>[]] *)
Definition t := list PendingRequest.

Definition empty : t := [].

(** [enqueue]: [pendingRequests.push(req)] *)
Definition enqueue (req : PendingRequest) (q : t) : t := q ++ [req].

(** [resolveOne]: [shift()] the oldest request and resolve it. *)
Definition resolveOne (v : T) (q : t) : t * list Settlement :=
  match q with
  | request :: rest => (rest, [Resolved request v])
  | [] => ([], [ConsoleLog "Received response without corresponding request!?"])
  end.

Definition rejectOne (err : string) (q : t) : t * list Settlement :=
  match q with
  | request :: rest => (rest, [Rejected request err])
  | [] => ([], [ConsoleLog "Received error response without corresponding request!?"])
  end.

Definition resolveAll (v : T) (q : t) : t * list Settlement :=
  ([], map (fun req => Resolved req v) q).

Definition rejectAll (err : string) (q : t) : t * list Settlement :=
  ([], map (fun req => Rejected req err) q).
End Queue.

Arguments Settlement : clear implicits.

End PendingRequests.

(** ** The Root actor proxy (root.ts) *)

Module RootActorProxy.
Import JS.

(** One entry of a [listTabs] response. *)
Record Tab := mkTab { tab_actor : string; tab_title : string; tab_url : string }.

(** [TabActorProxy]: the fields its constructor stores. *)
Record TabActorProxy := mkTabActorProxy {
  tabproxy_name : string;
  tabproxy_title : string;
  tabproxy_url : string
}.

(** The properties of a packet from the root actor that
    [receiveResponse] inspects. *)
Record Response := mkResponse {
  applicationType : option string;
  tabs : option (list Tab);
  type_ : option string
}.

Inductive LogMessage :=
| FetchingTabs
| ReceivedZeroTabs
| ReceivedTabs (n : nat)
| TabOpenedMsg (actor : string)
| TabClosedMsg (actor : string)
| ReceivedTabListChanged
| UnknownMessage (response : Response).

Inductive RootEvent :=
| EvInit (response : Response)
| EvTabOpened (tabActor : TabActorProxy)
| EvTabClosed (tabActor : TabActorProxy)
| EvTabListChanged.

(** A request packet handed to [connection.sendRequest]. *)
Record Request := mkRequest { req_to : string; req_type : string }.

(** [SetTimeout ms r] schedules a callback that calls
    [connection.sendRequest r] after [ms] milliseconds. *)
Inductive Effect :=
| LogDebug (m : LogMessage)
| LogInfo (m : LogMessage)
| LogWarn (m : LogMessage)
| Emit (ev : RootEvent)
| SendRequest (r : Request)
| SetTimeout (ms : nat) (callback : Request)
| Settle (s : PendingRequests.Settlement (Map TabActorProxy)).

Record RootActor := mkRoot {
  root_tabs : Map TabActorProxy;
  pendingTabsRequests : PendingRequests.t;
  nextPromise : nat
}.

Definition name : string := "root".

Definition init : RootActor :=
  {| root_tabs := []; pendingTabsRequests := PendingRequests.empty; nextPromise := 0 |}.

Definition listTabs : Request := {| req_to := name; req_type := "listTabs" |}.

(** [fetchTabs]: a new promise is enqueued and [listTabs] is sent; the
    promise is returned to the caller. *)
Definition fetchTabs (st : RootActor) : RootActor * list Effect * PendingRequests.PendingRequest :=
  let p := nextPromise st in
  ({| root_tabs := root_tabs st;
      pendingTabsRequests := PendingRequests.enqueue p (pendingTabsRequests st);
      nextPromise := S p |},
   [LogDebug FetchingTabs; SendRequest listTabs],
   p).

(** The body of [tabsResponse.tabs.forEach]: an existing proxy is re-used,
    a new one is created and announced with [tabOpened]. *)
Definition addTab (known : Map TabActorProxy)
    (acc : Map TabActorProxy * list Effect) (tab : Tab)
    : Map TabActorProxy * list Effect :=
  let '(currentTabs, effs) := acc in
  match Map_get (tab_actor tab) known with
  | Some tabActor => (Map_set (tab_actor tab) tabActor currentTabs, effs)
  | None =>
      let tabActor := mkTabActorProxy (tab_actor tab) (tab_title tab) (tab_url tab) in
      (Map_set (tab_actor tab) tabActor currentTabs,
       effs ++ [LogDebug (TabOpenedMsg (tab_actor tab)); Emit (EvTabOpened tabActor)])
  end.

(** The body of [this.tabs.forEach]: tabs that disappeared are announced
    with [tabClosed]. *)
Definition closedTabs (known currentTabs : Map TabActorProxy) : list Effect :=
  flat_map (fun '(_, tabActor) =>
    if Map_has (tabproxy_name tabActor) currentTabs then []
    else [LogDebug (TabClosedMsg (tabproxy_name tabActor)); Emit (EvTabClosed tabActor)])
    known.

Definition receiveResponse (response : Response) (st : RootActor)
    : RootActor * list Effect :=
  if truthy_opt_string (applicationType response) then
    (st, [Emit (EvInit response)])
  else
    match tabs response with
    | Some tabsResponse =>
        if (length tabsResponse =? 0)%nat then
          (st, [LogInfo ReceivedZeroTabs; SetTimeout 100 listTabs])
        else
          let '(currentTabs, opened) :=
            fold_left (addTab (root_tabs st)) tabsResponse ([], []) in
          let closed := closedTabs (root_tabs st) currentTabs in
          let '(pending, settled) :=
            PendingRequests.resolveOne currentTabs (pendingTabsRequests st) in
          ({| root_tabs := currentTabs;
              pendingTabsRequests := pending;
              nextPromise := nextPromise st |},
           [LogDebug (ReceivedTabs (length tabsResponse))]
             ++ opened ++ closed ++ map Settle settled)
    | None =>
        if bool_decide (type_ response = Some "tabListChanged") then
          (st, [LogDebug ReceivedTabListChanged; Emit EvTabListChanged])
        else
          (st, [LogWarn (UnknownMessage response)])
    end.

(** What happens to the proxy, one step at a time: a caller invokes
    [fetchTabs], or a packet from the root actor arrives. *)
Inductive Op :=
| OpFetchTabs
| OpReceive (response : Response).

Definition step (st : RootActor) (op : Op) : RootActor * list Effect :=
  match op with
  | OpFetchTabs => let '(st', effs, _) := fetchTabs st in (st', effs)
  | OpReceive response => receiveResponse response st
  end.

Fixpoint run (st : RootActor) (ops : list Op) : RootActor * list Effect :=
  match ops with
  | [] => (st, [])
  | op :: ops' =>
      let '(st1, e1) := step st op in
      let '(st2, e2) := run st1 ops' in
      (st2, e1 ++ e2)
  end.

(** The tab maps that promises were resolved with. *)
Definition resolvedWith (e : Effect) : option (Map TabActorProxy) :=
  match e with
  | Settle (PendingRequests.Resolved _ m) => Some m
  | _ => None
  end.

(** The effect resolves no promise with an empty tab map. *)
Definition resolvesNonEmpty (e : Effect) : Prop :=
  forall m, resolvedWith e = Some m -> m <> [].

End RootActorProxy.

(** ** Registries *)

Module Registry.

(** Modelled from the spec: the [Registry<T>] class (adapter/registry.ts)
    is not part of the sources at hand.  The spec describes it as a
    monotonically increasing id -> value mapping with add, find and
    remove, whose ids are never reused within a session. *)
Record t (T : Type) := mk {
  objectsById : gmap nat T;
  nextId : nat
}.
Arguments mk {T} _ _.
Arguments objectsById {T} _.
Arguments nextId {T} _.

Definition empty {T} : t T := mk ∅ 1.

Definition register {T} (obj : T) (r : t T) : nat * t T :=
  let id := nextId r in
  (id, mk (<[id := obj]> (objectsById r)) (S id)).

Definition unregister {T} (id : nat) (r : t T) : t T :=
  mk (delete id (objectsById r)) (nextId r).

Definition find {T} (id : nat) (r : t T) : option T :=
  objectsById r !! id.

End Registry.

(** ** The actor proxy base and the descriptor proxy (descriptor.ts) *)

Module DescriptorActorProxy.

(** The outcome of awaiting a promise. *)
Inductive Settled (A : Type) :=
| Fulfilled (a : A)
| RejectedWith (err : string).
Arguments Fulfilled {A} _.
Arguments RejectedWith {A} _.

(** The [getWatcher] request, without its [to] field. *)
Record GetWatcherRequest := mkGetWatcherRequest {
  gw_type : string;
  isServerTargetSwitchingEnabled : bool;
  isPopupDebuggingEnabled : bool
}.

Record WatcherTraits := mkWatcherTraits { content_script : option bool }.

Record GetWatcherResponse := mkGetWatcherResponse {
  gw_actor : string;
  gw_traits : WatcherTraits
}.

(** A [WatcherActorProxy] object.  [watcher_object] is the identity of the
    JavaScript object: every [new WatcherActorProxy(...)] yields a new one,
    so two proxies are the same object exactly when these agree. *)
Record WatcherActorProxy := mkWatcher {
  watcher_object : nat;
  watcher_name : string;
  supportsContentScriptTargets : bool
}.

(** A packet written to the connection on behalf of an actor. *)
Record WirePacket := mkWire { wire_to : string; wire_request : GetWatcherRequest }.

(** The descriptor proxy: its name, the cache of [sendCachedRequest], the
    packets it has written so far, and the object allocator. *)
Record Proxy := mkProxy {
  proxy_name : string;
  cachedRequests : gmap string WatcherActorProxy;
  wire : list WirePacket;
  nextObject : nat
}.

Definition create (name : string) : Proxy :=
  {| proxy_name := name; cachedRequests := ∅; wire := []; nextObject := 0 |}.

(** The engine's side of one exchange: the answer to the [n]-th packet
    written by this proxy is either a response or an error packet. *)
Definition Server := nat -> Settled GetWatcherResponse.

(** Modelled from the spec: [BaseActorProxy.sendRequest]
    (firefox/actorProxy/base.ts) is not part of the sources at hand.  The
    spec: the request is written to the wire and the next response packet
    addressed to the actor settles it; a packet with an [error] field
    settles it as a failure. *)
Definition sendRequest (server : Server) (request : GetWatcherRequest) (p : Proxy)
    : Proxy * Settled GetWatcherResponse :=
  let n := length (wire p) in
  ({| proxy_name := proxy_name p;
      cachedRequests := cachedRequests p;
      wire := wire p ++ [mkWire (proxy_name p) request];
      nextObject := nextObject p |},
   server n).

(** Modelled from the spec: [BaseActorProxy.sendCachedRequest]
    (firefox/actorProxy/base.ts) is not part of the sources at hand.  The
    spec: if a prior successful response exists for [key], the cached
    mapped value is returned without I/O; otherwise the request is
    performed and the mapped value is memoized. *)
Definition sendCachedRequest (server : Server) (key : string)
    (request : GetWatcherRequest)
    (convert : GetWatcherResponse -> Proxy -> Proxy * WatcherActorProxy)
    (p : Proxy) : Proxy * Settled WatcherActorProxy :=
  match cachedRequests p !! key with
  | Some cached => (p, Fulfilled cached)
  | None =>
      match sendRequest server request p with
      | (p1, Fulfilled response) =>
          let '(p2, mapped) := convert response p1 in
          ({| proxy_name := proxy_name p2;
              cachedRequests := <[key := mapped]> (cachedRequests p2);
              wire := wire p2;
              nextObject := nextObject p2 |},
           Fulfilled mapped)
      | (p1, RejectedWith err) => (p1, RejectedWith err)
      end
  end.

(** [!!response.traits.content_script] *)
Definition toBoolean (o : option bool) : bool :=
  match o with Some b => b | None => false end.

(** [new WatcherActorProxy(response.actor, !!response.traits.content_script,
    this.connection)] *)
Definition newWatcherActorProxy (response : GetWatcherResponse) (p : Proxy)
    : Proxy * WatcherActorProxy :=
  ({| proxy_name := proxy_name p;
      cachedRequests := cachedRequests p;
      wire := wire p;
      nextObject := S (nextObject p) |},
   mkWatcher (nextObject p) (gw_actor response)
     (toBoolean (content_script (gw_traits response)))).

Definition getWatcher (server : Server) (p : Proxy) : Proxy * Settled WatcherActorProxy :=
  sendCachedRequest server "getWatcher"
    (mkGetWatcherRequest "getWatcher" true false)
    newWatcherActorProxy p.

End DescriptorActorProxy.

(** ** Handlers: state, effects in program order, exceptions *)

Module Handler.

(** How a handler body ends: normally, or by throwing (for an [async]
    function: by rejecting its promise). *)
Inductive Outcome (A : Type) :=
| Done (a : A)
| Threw (err : string).
Arguments Done {A} _.
Arguments Threw {A} _.

Section Monad.
Context {S E : Type}.

(** A computation over the state [S].  Every effect is recorded together
    with the state in which it was performed. *)
Definition M (A : Type) : Type := S -> S * list (E * S) * Outcome A.

Definition ret {A} (a : A) : M A := fun s => (s, [], Done a).

Definition bind {A B} (m : M A) (k : A -> M B) : M B :=
  fun s =>
    match m s with
    | (s1, t1, Done a) =>
        let '(s2, t2, r) := k a s1 in (s2, t1 ++ t2, r)
    | (s1, t1, Threw err) => (s1, t1, Threw err)
    end.

Definition throw {A} (err : string) : M A := fun s => (s, [], Threw err).

(** [try { m } catch (err) { h err }] *)
Definition tryCatch {A} (m : M A) (h : string -> M A) : M A :=
  fun s =>
    match m s with
    | (s1, t1, Done a) => (s1, t1, Done a)
    | (s1, t1, Threw err) =>
        let '(s2, t2, r) := h err s1 in (s2, t1 ++ t2, r)
    end.

Definition perform (e : E) : M unit := fun s => (s, [(e, s)], Done tt).

Definition get : M S := fun s => (s, [], Done s).

Definition modify (f : S -> S) : M unit := fun s => (f s, [], Done tt).

(** Awaiting a promise whose outcome the environment supplies. *)
Definition await {A} (r : Outcome A) : M A := fun s => (s, [], r).

Definition finalState {A} (r : S * list (E * S) * Outcome A) : S := r.1.1.
Definition trace {A} (r : S * list (E * S) * Outcome A) : list (E * S) := r.1.2.
Definition effects {A} (r : S * list (E * S) * Outcome A) : list E := map fst r.1.2.
Definition outcome {A} (r : S * list (E * S) * Outcome A) : Outcome A := r.2.
End Monad.

Arguments M : clear implicits.

Declare Scope handler_scope.
Delimit Scope handler_scope with handler.
Notation "x <- m ;; k" := (bind m (fun x => k))
  (at level 100, m at next level, right associativity) : handler_scope.
Notation "m ;;; k" := (bind m (fun _ => k))
  (at level 100, right associativity) : handler_scope.

End Handler.

(** ** The debug adapter protocol events the session sends *)

Module DAP.

(** The body of a [StoppedEvent]. *)
Record StoppedBody := mkStoppedBody {
  stopped_reason : string;
  stopped_threadId : nat;
  stopped_text : option string;
  allThreadsStopped : option bool
}.

Inductive CustomBody :=
| ThreadStartedEventBody (name : string) (id : nat)
| ThreadExitedEventBody (id : nat)
| NewSourceEventBody (threadId sourceId : nat) (url : string) (path : option string).

Inductive Event :=
| InitializedEvent
| TerminatedEvent
| StoppedEvent (body : StoppedBody)
| ContinuedEvent (threadId : nat)
| ThreadEvent (reason : string) (threadId : nat)
| OutputEvent (output : string) (category : string)
| CustomEvent (event : string) (body : CustomBody).

(** [new StoppedEvent(reason, threadId)] *)
Definition newStoppedEvent (reason : string) (threadId : nat) : StoppedBody :=
  {| stopped_reason := reason; stopped_threadId := threadId;
     stopped_text := None; allThreadsStopped := None |}.

End DAP.

(** ** The parts of the engine's protocol the session inspects *)

Module FirefoxDebugProtocol.

(** The preview of an object grip; [preview_message] is read only when
    [preview_kind] is ["Error"]. *)
Record Preview := mkPreview { preview_kind : string; preview_message : string }.

(** An object grip: [{ type: 'object', class, actor, preview? }]. *)
Record ObjectGrip := mkObjectGrip {
  grip_class : string;
  grip_actor : string;
  grip_preview : option Preview
}.

(** A grip is a primitive value or an object with a [type] tag;
    [GripOther] stands for the tagged grips other than object grips
    (null, undefined, long strings, symbols, ...). *)
Inductive Grip :=
| GripBoolean (b : bool)
| GripNumber (n : Z)
| GripString (s : string)
| GripObject (o : ObjectGrip)
| GripOther (type : string).

(** Truthiness of a grip value. *)
Definition truthy_grip (g : Grip) : bool :=
  match g with
  | GripBoolean b => b
  | GripNumber n => JS.truthy_number n
  | GripString s => JS.truthy_string s
  | GripObject _ => true
  | GripOther _ => true
  end.

Record ThreadPausedReason := mkReason {
  reason_type : string;
  reason_actors : option (list string);
  reason_exception : option Grip
}.

Record SourceLocation := mkLocation {
  loc_actor : string;
  loc_line : nat;
  loc_column : nat
}.

Record Frame := mkFrame { frame_where : SourceLocation }.

(** A [thread-state] resource. *)
Record ThreadState := mkThreadState {
  ts_state : string;
  ts_frame : option Frame;
  ts_why : option ThreadPausedReason
}.

(** The traits of the Root [init] packet the session consults. *)
Record Traits := mkTraits {
  webExtensionAddonConnect : bool;
  nativeLogpoints : bool;
  supportsEnableWindowGlobalThreadActors : bool
}.

End FirefoxDebugProtocol.

(** ** The session: thread-state handling *)

Module ThreadStateHandler.
Import Handler FirefoxDebugProtocol.
Local Open Scope handler_scope.

Inductive TargetType := tab | iframe | worker | contentScript | backgroundScript.

#[global] Instance TargetType_eq_dec : EqDecision TargetType.
Proof. solve_decision. Defined.

(** The fields of a [SourceAdapter] the session reads. *)
Record SourceAdapter := mkSourceAdapter {
  source_id : nat;
  source_path : option string;
  source_url : option string;
  isBlackBoxed : bool;
  introductionType : option string
}.

Record FrameAdapter := mkFrameAdapter { fa_frame : Frame }.

Record ActualLocation := mkActualLocation { actual_line : nat; actual_column : nat }.

(** Modelled from the spec: the [BreakpointInfo] class
    (adapter/breakpointsManager.ts) is not part of the sources at hand.  A
    realized breakpoint is the desired one (with its optional hit limit)
    plus its actual location and its hit count. *)
Record BreakpointInfo := mkBreakpointInfo {
  bp_id : nat;
  actualLocation : option ActualLocation;
  hitLimit : option Z;
  hitCount : Z
}.

(** The identity of a [ThreadAdapter]: the fields fixed by its constructor. *)
Record ThreadAdapter := mkThreadAdapter {
  thread_id : nat;
  thread_type : TargetType;
  thread_name : string;
  thread_targetActor : string;
  thread_actor : string
}.

(** The session state the thread-state handler of one thread reads and
    writes: the breakpoints manager's table (by source path), the
    registry of variables providers, and the mutable fields of the
    thread adapter. *)
Record State := mkState {
  breakpoints : gmap string (list BreakpointInfo);
  variablesProviders : Registry.t string;
  threadPausedReason : option ThreadPausedReason;
  pauseLifetimeObjects : list string;
  pauseLifetimeVariables : list nat
}.

Inductive LogLevel := debug | info | warn.

Inductive Effect :=
| Log (level : LogLevel) (msg : string)
| ThreadResume (threadId : nat)
| FetchAllStackFrames (threadId : nat)
| DisposeProxy (actor : string)
| SendEvent (ev : DAP.Event).

(** What the collaborators answer while one event is handled.
    [applySourceMapToFrame] rewrites the frame it is given in place: its
    answer is the frame afterwards, or the rejection of its promise. *)
Record Env := mkEnv {
  applySourceMapToFrame : Frame -> Outcome Frame;
  getAdapterForActor : string -> Outcome SourceAdapter;
  fetchAllStackFrames : Outcome (list FrameAdapter)
}.

Definition H := M State Effect.

(** *** [sendStoppedEvent] *)

Definition setText (text : string) (body : DAP.StoppedBody) : DAP.StoppedBody :=
  {| DAP.stopped_reason := DAP.stopped_reason body;
     DAP.stopped_threadId := DAP.stopped_threadId body;
     DAP.stopped_text := Some text;
     DAP.allThreadsStopped := DAP.allThreadsStopped body |}.

Definition setAllThreadsStopped (b : bool) (body : DAP.StoppedBody) : DAP.StoppedBody :=
  {| DAP.stopped_reason := DAP.stopped_reason body;
     DAP.stopped_threadId := DAP.stopped_threadId body;
     DAP.stopped_text := DAP.stopped_text body;
     DAP.allThreadsStopped := Some b |}.

Definition stoppedEventFor (threadAdapter : ThreadAdapter)
    (reason : option ThreadPausedReason) : DAP.StoppedBody :=
  let pauseType :=
    match reason with Some r => reason_type r | None => "interrupt" end in
  let stoppedEvent := DAP.newStoppedEvent pauseType (thread_id threadAdapter) in
  let stoppedEvent := setAllThreadsStopped false stoppedEvent in
  match reason with
  | Some r =>
      match reason_exception r with
      | Some exception =>
          if truthy_grip exception then
            match exception with
            | GripString s => setText s stoppedEvent
            | GripObject exceptionGrip =>
                match grip_preview exceptionGrip with
                | Some preview =>
                    if String.eqb (preview_kind preview) "Error" then
                      setText (grip_class exceptionGrip +:+ ": " +:+ preview_message preview)
                        stoppedEvent
                    else setText (grip_class exceptionGrip) stoppedEvent
                | None => setText (grip_class exceptionGrip) stoppedEvent
                end
            | _ => stoppedEvent
            end
          else stoppedEvent
      | None => stoppedEvent
      end
  | None => stoppedEvent
  end.

Definition sendStoppedEvent (threadAdapter : ThreadAdapter)
    (reason : option ThreadPausedReason) : H unit :=
  perform (SendEvent (DAP.StoppedEvent (stoppedEventFor threadAdapter reason))).

(** *** The gates of the paused branch *)

(** Whether the handler has executed a [return]. *)
Inductive Flow := Returned | FellThrough.

Definition whyTypeIs (event : ThreadState) (t : string) : bool :=
  match ts_why event with
  | Some why => String.eqb (reason_type why) t
  | None => false
  end.

(** [event.why.actors && (event.why.actors.length > 0)] *)
Definition whyHasActors (event : ThreadState) : bool :=
  match ts_why event with
  | Some why =>
      match reason_actors why with
      | Some actors => (0 <? length actors)%nat
      | None => false
      end
  | None => false
  end.

(** The predicate given to [find]. *)
Definition atLocation (sourceLocation : SourceLocation) (bpInfo : BreakpointInfo) : bool :=
  match actualLocation bpInfo with
  | Some actual =>
      (actual_line actual =? loc_line sourceLocation)%nat
      && (actual_column actual =? loc_column sourceLocation)%nat
  | None => false
  end.

(** [Array.prototype.find], with the index of the element found. *)
Fixpoint findFrom {A} (f : A -> bool) (i : nat) (l : list A) : option (nat * A) :=
  match l with
  | [] => None
  | x :: l' => if f x then Some (i, x) else findFrom f (S i) l'
  end.

Definition find {A} (f : A -> bool) (l : list A) : option (nat * A) := findFrom f 0 l.

(** [hitLimit] is truthy: present and not zero. *)
Definition truthyLimit (limit : option Z) : bool :=
  match limit with Some n => JS.truthy_number n | None => false end.

Definition incrementHitCount (bpInfo : BreakpointInfo) : BreakpointInfo :=
  {| bp_id := bp_id bpInfo; actualLocation := actualLocation bpInfo;
     hitLimit := hitLimit bpInfo; hitCount := (hitCount bpInfo + 1)%Z |}.

(** [breakpointInfo.hitCount++] on the [i]-th breakpoint of [path]. *)
Definition hit (path : string) (i : nat) (s : State) : State :=
  {| breakpoints := alter (alter incrementHitCount i) path (breakpoints s);
     variablesProviders := variablesProviders s;
     threadPausedReason := threadPausedReason s;
     pauseLifetimeObjects := pauseLifetimeObjects s;
     pauseLifetimeVariables := pauseLifetimeVariables s |}.

(** [this.breakpointsManager.getBreakpoints(path)?.find(...)] *)
Definition findBreakpoint (path : string) (sourceLocation : SourceLocation)
    (s : State) : option (nat * BreakpointInfo) :=
  breakpoints s !! path ≫= find (atLocation sourceLocation).

Definition hitCountGate (threadAdapter : ThreadAdapter) (path : string)
    (sourceLocation : SourceLocation) : H Flow :=
  s <- get ;;
  match findBreakpoint path sourceLocation s with
  | Some (i, breakpointInfo) =>
      match hitLimit breakpointInfo with
      | Some limit =>
          if JS.truthy_number limit then
            modify (hit path i) ;;;
            if (hitCount breakpointInfo + 1 <? limit)%Z then
              perform (ThreadResume (thread_id threadAdapter)) ;;;
              ret Returned
            else ret FellThrough
          else ret FellThrough
      | None => ret FellThrough
      end
  | None => ret FellThrough
  end.

(** The [try] block of the paused branch: the blackbox gate and the
    hit-count gate; an exception is logged and the handler goes on. *)
Definition sourceGates (env : Env) (threadAdapter : ThreadAdapter)
    (event : ThreadState) (sourceLocation : SourceLocation) : H Flow :=
  tryCatch
    (sourceAdapter <- await (getAdapterForActor env (loc_actor sourceLocation)) ;;
     if isBlackBoxed sourceAdapter then
       perform (ThreadResume (thread_id threadAdapter)) ;;;
       ret Returned
     else if whyTypeIs event "breakpoint" && whyHasActors event
             && JS.truthy_opt_string (source_path sourceAdapter) then
       hitCountGate threadAdapter (default "" (source_path sourceAdapter)) sourceLocation
     else ret FellThrough)
    (fun err => perform (Log warn err) ;;; ret FellThrough).

(** The exception branch: exceptions thrown by debugger eval code are
    skipped. *)
Definition debuggerEvalGate (env : Env) (threadAdapter : ThreadAdapter) : H Flow :=
  perform (FetchAllStackFrames (thread_id threadAdapter)) ;;;
  frames <- await (fetchAllStackFrames env) ;;
  match last frames with
  | Some startFrame =>
      tryCatch
        (sourceAdapter <-
           await (getAdapterForActor env (loc_actor (frame_where (fa_frame startFrame)))) ;;
         if bool_decide (introductionType sourceAdapter = Some "debugger eval") then
           perform (ThreadResume (thread_id threadAdapter)) ;;;
           ret Returned
         else ret FellThrough)
        (fun err => perform (Log warn err) ;;; ret FellThrough)
  | None => ret FellThrough
  end.

Definition setThreadPausedReason (why : option ThreadPausedReason) (s : State) : State :=
  {| breakpoints := breakpoints s;
     variablesProviders := variablesProviders s;
     threadPausedReason := why;
     pauseLifetimeObjects := pauseLifetimeObjects s;
     pauseLifetimeVariables := pauseLifetimeVariables s |}.

(** [event.why?.type] interpolated into a template string. *)
Definition whyTypeText (event : ThreadState) : string :=
  match ts_why event with Some why => reason_type why | None => "undefined" end.

Definition onPaused (env : Env) (threadAdapter : ThreadAdapter)
    (event : ThreadState) : H Flow :=
  match ts_frame event with
  | None => throw "TypeError: event.frame is undefined"
  | Some frame =>
      frame <- await (applySourceMapToFrame env frame) ;;
      let sourceLocation := frame_where frame in
      gate <- sourceGates env threadAdapter event sourceLocation ;;
      match gate with
      | Returned => ret Returned
      | FellThrough =>
          gate <- (if whyTypeIs event "exception"
                   then debuggerEvalGate env threadAdapter
                   else ret FellThrough) ;;
          match gate with
          | Returned => ret Returned
          | FellThrough =>
              modify (setThreadPausedReason (ts_why event)) ;;;
              perform (FetchAllStackFrames (thread_id threadAdapter)) ;;;
              perform (Log info ("Thread " +:+ thread_actor threadAdapter
                                 +:+ " paused , reason: " +:+ whyTypeText event)) ;;;
              sendStoppedEvent threadAdapter (ts_why event) ;;;
              ret FellThrough
          end
      end
  end.

(** *** The resumed branch *)

Definition clearPauseLifetime (s : State) : State :=
  {| breakpoints := breakpoints s;
     variablesProviders :=
       fold_right Registry.unregister (variablesProviders s) (pauseLifetimeVariables s);
     threadPausedReason := threadPausedReason s;
     pauseLifetimeObjects := [];
     pauseLifetimeVariables := [] |}.

Fixpoint disposeAll (actors : list string) : H unit :=
  match actors with
  | [] => ret tt
  | actor :: rest => perform (DisposeProxy actor) ;;; disposeAll rest
  end.

(** Modelled from the spec: [ThreadAdapter.disposePauseLifetimeAdapters]
    (adapter/thread.ts) is not part of the sources at hand.  The spec: a
    thread adapter owns its pause-lifetime object and long-string proxies;
    they are disposed on every resume, and that disposal invalidates the
    variable-reference ids issued under the pause. *)
Definition disposePauseLifetimeAdapters : H unit :=
  s <- get ;;
  disposeAll (pauseLifetimeObjects s) ;;;
  modify clearPauseLifetime.

Definition onResumed (threadAdapter : ThreadAdapter) : H unit :=
  perform (Log info ("Thread " +:+ thread_actor threadAdapter +:+ " resumed")) ;;;
  disposePauseLifetimeAdapters ;;;
  perform (SendEvent (DAP.ContinuedEvent (thread_id threadAdapter))).

(** *** The handler registered with [targetActor.onThreadState] *)

Definition onThreadState (env : Env) (threadAdapter : ThreadAdapter)
    (event : ThreadState) : H unit :=
  flow <- (if String.eqb (ts_state event) "paused"
           then onPaused env threadAdapter event
           else ret FellThrough) ;;
  match flow with
  | Returned => ret tt
  | FellThrough =>
      if String.eqb (ts_state event) "resumed"
      then onResumed threadAdapter
      else ret tt
  end.

(** Modelled from the spec: a variables provider created while the thread
    is paused registers itself with the session's registry and is
    recorded as pause-lifetime; the id it receives is the variable
    reference handed to the editor. *)
Definition issueVariablesReference (provider : string) (s : State) : nat * State :=
  let '(id, registry) := Registry.register provider (variablesProviders s) in
  (id,
   {| breakpoints := breakpoints s;
      variablesProviders := registry;
      threadPausedReason := threadPausedReason s;
      pauseLifetimeObjects := pauseLifetimeObjects s;
      pauseLifetimeVariables := id :: pauseLifetimeVariables s |}).

(** A variable reference is queryable while the registry finds it. *)
Definition queryable (id : nat) (s : State) : bool :=
  bool_decide (is_Some (Registry.find id (variablesProviders s))).

(** The variable references of the current pause are ids the registry has
    handed out. *)
Definition issuedByRegistry (s : State) : Prop :=
  forall id, id ∈ pauseLifetimeVariables s ->
    (id < Registry.nextId (variablesProviders s))%nat.

(** Variables providers registered one after the other, as later pauses do. *)
Definition issueAll (providers : list string) (s : State) : State :=
  fold_left (fun s provider => (issueVariablesReference provider s).2) providers s.

(** The stopped events among a list of effects. *)
Definition stoppedEvents (effs : list Effect) : list DAP.StoppedBody :=
  omap (fun e => match e with SendEvent (DAP.StoppedEvent b) => Some b | _ => None end) effs.

Definition resumes (effs : list Effect) : list nat :=
  omap (fun e => match e with ThreadResume t => Some t | _ => None end) effs.

(** The same thread-state event handled [n] times in a row: the state
    after the last run and the effects of each run, oldest first. *)
Fixpoint handleTimes (n : nat) (env : Env) (threadAdapter : ThreadAdapter)
    (event : ThreadState) (s : State) : State * list (list Effect) :=
  match n with
  | 0 => (s, [])
  | S n' =>
      let r := onThreadState env threadAdapter event s in
      let '(s', runs) := handleTimes n' env threadAdapter event (finalState r) in
      (s', effects r :: runs)
  end.

Definition withHitCount (c : Z) (bpInfo : BreakpointInfo) : BreakpointInfo :=
  {| bp_id := bp_id bpInfo; actualLocation := actualLocation bpInfo;
     hitLimit := hitLimit bpInfo; hitCount := c |}.

End ThreadStateHandler.

(** ** The session: targets and threads *)

Module TargetLifecycle.
Import Handler.
Export ThreadStateHandler (TargetType, tab, iframe, worker, contentScript,
  backgroundScript, ThreadAdapter, mkThreadAdapter, thread_id, thread_type,
  thread_name, thread_targetActor, thread_actor).
Local Open Scope handler_scope.

Inductive DescriptorType := tabDescriptor | webExtensionDescriptor | processDescriptor.

#[global] Instance DescriptorType_eq_dec : EqDecision DescriptorType.
Proof. solve_decision. Defined.

(** The target form carried by a target actor. *)
Record Target := mkTarget {
  target_url : option string;
  target_addonId : option string;
  isFallbackExtensionDocument : bool;
  targetType : option string;
  parentInnerWindowId : option Z;
  relatedDocumentInnerWindowId : option Z
}.

Record TargetActorProxy := mkTargetActor {
  targetActor_name : string;
  targetActor_target : Target
}.

(** The configuration the target handlers read.  [addonManager] is the
    add-on id the manager resolves to when the session has an add-on
    manager; the tab filters are the [test] functions of their regular
    expressions. *)
Record Config := mkConfig {
  addonManager : option string;
  tabFilter_include : list (string -> bool);
  tabFilter_exclude : list (string -> bool);
  clearConsoleOnReload : bool;
  config_addon : bool
}.

(** A [DescriptorAdapter]: the descriptor's type and the set
    [adapter.threads], in insertion order. *)
Record DescriptorAdapter := mkDescriptorAdapter {
  descriptor_type : DescriptorType;
  adapter_threads : list ThreadAdapter;
  supportsContentScriptTargets : bool
}.

(** The session state the target handlers read and write.  [descriptors]
    holds, by descriptor actor name, the adapter that the handlers
    registered by [attachDescriptor] close over.  [suspended] holds the
    runs of the [onTargetAvailable] handler that wait at
    [await this.attachThread(...)], oldest first: the descriptor whose
    adapter the closure holds, and the thread adapter [attachThread]
    returned. *)
Record State := mkState {
  threads : Registry.t ThreadAdapter;
  threadsByTargetActorName : gmap string ThreadAdapter;
  descriptors : gmap string DescriptorAdapter;
  suspended : list (string * ThreadAdapter)
}.

Definition initial : State :=
  {| threads := Registry.empty; threadsByTargetActorName := ∅; descriptors := ∅;
     suspended := [] |}.

Inductive LogLevel := debug | info | warn.

Inductive Effect :=
| Log (level : LogLevel) (msg : string)
| SendEvent (ev : DAP.Event)
| GetWatcher (descriptor : string)
| GetThreadConfiguration (descriptor : string)
| GetBreakpointList (descriptor : string)
| WatchTargets (descriptor : string) (kind : string)
| UpdateConfiguration (descriptor : string)
| ResumeWhenPaused (threadActor : string)
| SetTargetDestroyed (targetActor : string)
| DisposeThreadAdapter (threadId : nat)
| DisposeDescriptorAdapter (descriptor : string).

Definition H := M State Effect.

Definition setThreads (r : Registry.t ThreadAdapter) (s : State) : State :=
  {| threads := r; threadsByTargetActorName := threadsByTargetActorName s;
     descriptors := descriptors s; suspended := suspended s |}.

Definition setThreadsByTargetActorName (m : gmap string ThreadAdapter) (s : State) : State :=
  {| threads := threads s; threadsByTargetActorName := m; descriptors := descriptors s;
     suspended := suspended s |}.

Definition setDescriptors (m : gmap string DescriptorAdapter) (s : State) : State :=
  {| threads := threads s; threadsByTargetActorName := threadsByTargetActorName s;
     descriptors := m; suspended := suspended s |}.

Definition setSuspended (l : list (string * ThreadAdapter)) (s : State) : State :=
  {| threads := threads s; threadsByTargetActorName := threadsByTargetActorName s;
     descriptors := descriptors s; suspended := l |}.

Definition setAdapterThreads (l : list ThreadAdapter) (a : DescriptorAdapter) : DescriptorAdapter :=
  {| descriptor_type := descriptor_type a; adapter_threads := l;
     supportsContentScriptTargets := supportsContentScriptTargets a |}.

(** Thread adapters are objects: two of them are the same object exactly
    when their ids agree, the registry hands out every id once. *)
Definition sameThread (a b : ThreadAdapter) : bool := (thread_id a =? thread_id b)%nat.

(** [Set.prototype.add] and [Set.prototype.delete] on [adapter.threads]. *)
Definition threadsAdd (t : ThreadAdapter) (l : list ThreadAdapter) : list ThreadAdapter :=
  if existsb (sameThread t) l then l else l ++ [t].

Definition threadsDelete (t : ThreadAdapter) (l : list ThreadAdapter) : list ThreadAdapter :=
  filter (fun t' => sameThread t t' = false) l.

Definition sendThreadStartedEvent (threadAdapter : ThreadAdapter) : H unit :=
  perform (SendEvent (DAP.ThreadEvent "started" (thread_id threadAdapter))) ;;;
  perform (SendEvent (DAP.CustomEvent "threadStarted"
    (DAP.ThreadStartedEventBody (thread_name threadAdapter) (thread_id threadAdapter)))).

Definition sendThreadExitedEvent (threadAdapter : ThreadAdapter) : H unit :=
  perform (SendEvent (DAP.ThreadEvent "exited" (thread_id threadAdapter))) ;;;
  perform (SendEvent (DAP.CustomEvent "threadExited"
    (DAP.ThreadExitedEventBody (thread_id threadAdapter)))).

(** [String.prototype.includes] *)
Definition includes (sub s : string) : bool :=
  match String.index 0 sub s with Some _ => true | None => false end.

Definition truthyId (o : option Z) : bool :=
  match o with Some n => JS.truthy_number n | None => false end.

Section WithShortenUrl.
(** [shortenUrl] (util/misc.ts) *)
Variable shortenUrl : string -> string.
Variable config : Config.

(** Whether [onTargetAvailable] decides not to attach to the target. *)
Definition skipTarget (descriptorType : DescriptorType) (target : Target) : bool :=
  let skip := false in
  let skip :=
    if bool_decide (descriptorType = webExtensionDescriptor)
       && isFallbackExtensionDocument target then true else skip in
  let skip :=
    if JS.truthy_opt_string (target_addonId target)
       && match addonManager config with
          | None => true
          | Some addonId => negb (bool_decide (target_addonId target = Some addonId))
          end
    then true else skip in
  let skip :=
    match target_url target with
    | Some url =>
        if bool_decide (descriptorType = processDescriptor)
           && negb (JS.truthy_opt_string (target_addonId target))
           && JS.truthy_string url
           && (negb (existsb (fun tabFilter => tabFilter url) (tabFilter_include config))
               || existsb (fun tabFilter => tabFilter url) (tabFilter_exclude config))
        then true else skip
    | None => skip
    end in
  skip.

(** The thread's type and name computed by [onTargetAvailable]. *)
Definition threadTypeAndName (descriptorType : DescriptorType)
    (targetActor : TargetActorProxy) : TargetType * string :=
  let target := targetActor_target targetActor in
  if (bool_decide (descriptorType = tabDescriptor)
      && includes "contentScriptTarget" (targetActor_name targetActor))
     || (bool_decide (descriptorType = processDescriptor)
         && bool_decide (targetType target = Some "content_script"))
  then (contentScript, "Content scripts")
  else if bool_decide (descriptorType = webExtensionDescriptor)
          || (bool_decide (descriptorType = processDescriptor)
              && JS.truthy_opt_string (target_addonId target))
  then (backgroundScript, "Background scripts")
  else
    let url := shortenUrl (default "" (target_url target)) in
    if truthyId (relatedDocumentInnerWindowId target) then (worker, "Worker " +:+ url)
    else if truthyId (parentInnerWindowId target) then (iframe, "IFrame " +:+ url)
    else (tab, "Tab " +:+ url).

(** Modelled from the spec: the [ThreadAdapter] constructor
    (adapter/thread.ts) is not part of the sources at hand.  The spec: a
    thread has a stable numeric id assigned by the bridge, taken from
    the session's thread registry. *)
Definition newThreadAdapter (type : TargetType) (name : string)
    (targetActor threadActor : string) : H ThreadAdapter :=
  s <- get ;;
  let id := Registry.nextId (threads s) in
  let threadAdapter := mkThreadAdapter id type name targetActor threadActor in
  modify (setThreads (Registry.register threadAdapter (threads s)).2) ;;;
  ret threadAdapter.

(** [attachThread]; the handlers it registers on the target actor are
    embedded on their own ([ThreadStateHandler.onThreadState]). *)
Definition attachThread (type : TargetType) (name : string)
    (targetActor : TargetActorProxy) (threadActor consoleActor : string)
    : H ThreadAdapter :=
  threadAdapter <- newThreadAdapter type name (targetActor_name targetActor) threadActor ;;
  perform (Log info ("Attaching " +:+ name)) ;;;
  modify (fun s => setThreadsByTargetActorName
    (<[targetActor_name targetActor := threadAdapter]> (threadsByTargetActorName s)) s) ;;;
  sendThreadStartedEvent threadAdapter ;;;
  ret threadAdapter.

(** [adapter.threads.add(threadAdapter)] / [adapter.threads.delete(...)]
    for the adapter of [descriptor]. *)
Definition updateAdapterThreads (descriptor : string)
    (f : list ThreadAdapter -> list ThreadAdapter) : H unit :=
  modify (fun s => setDescriptors
    (alter (fun a => setAdapterThreads (f (adapter_threads a)) a) descriptor (descriptors s)) s).

(** The handler given to [watcherActor.onTargetAvailable] by
    [attachDescriptor descriptor], up to [await this.attachThread(...)].
    [attachThread] is an [async] function without an [await] of its own:
    its body has run (the thread is filed and announced) when the handler
    is suspended, and what follows the [await] runs later, possibly after
    other handlers.  The [await] in the test of [skipTarget] comes before
    every effect of the handler and every read of the session, so a
    handler suspended there is one whose event arrives later; it is not a
    step of its own. *)
Definition onTargetAvailable (descriptor : string) (adapter : DescriptorAdapter)
    (targetActor : TargetActorProxy) (threadActor consoleActor : string) : H unit :=
  if skipTarget (descriptor_type adapter) (targetActor_target targetActor) then
    perform (Log warn "Not attaching to this thread") ;;;
    perform (ResumeWhenPaused threadActor)
  else
    let '(type, name) := threadTypeAndName (descriptor_type adapter) targetActor in
    threadAdapter <- attachThread type name targetActor threadActor consoleActor ;;
    modify (fun s => setSuspended (suspended s ++ [(descriptor, threadAdapter)]) s).

(** What follows the [await] in the handler of [descriptor]:
    [adapter.threads.add(threadAdapter)]. *)
Definition onTargetAvailableResumed (descriptor : string) (threadAdapter : ThreadAdapter)
    : H unit :=
  updateAdapterThreads descriptor (threadsAdd threadAdapter).

(** Modelled from the spec: [ThreadAdapter.dispose] (adapter/thread.ts) is
    not part of the sources at hand.  The spec: a destroyed target's
    thread is disposed and unregistered. *)
Definition disposeThreadAdapter (threadAdapter : ThreadAdapter) : H unit :=
  perform (DisposeThreadAdapter (thread_id threadAdapter)) ;;;
  modify (fun s => setThreads (Registry.unregister (thread_id threadAdapter) (threads s)) s).

Definition clearScreen : string := String (Ascii.ascii_of_nat 27) "[2J".

(** The handler given to [watcherActor.onTargetDestroyed]. *)
Definition onTargetDestroyed (descriptor : string) (targetActorName : string) : H unit :=
  s <- get ;;
  match threadsByTargetActorName s !! targetActorName with
  | None =>
      perform (Log debug ("Unknown target actor " +:+ targetActorName
                          +:+ " (already destroyed?)"))
  | Some threadAdapter =>
      (if bool_decide (thread_type threadAdapter = tab) && clearConsoleOnReload config
       then perform (SendEvent (DAP.OutputEvent clearScreen "console"))
       else ret tt) ;;;
      perform (SetTargetDestroyed (thread_targetActor threadAdapter)) ;;;
      sendThreadExitedEvent threadAdapter ;;;
      modify (fun s => setThreadsByTargetActorName
        (delete targetActorName (threadsByTargetActorName s)) s) ;;;
      updateAdapterThreads descriptor (threadsDelete threadAdapter) ;;;
      disposeThreadAdapter threadAdapter
  end.

(** The loop of the [onDestroyed] handler. *)
Fixpoint exitThreads (l : list ThreadAdapter) : H unit :=
  match l with
  | [] => ret tt
  | threadAdapter :: rest =>
      sendThreadExitedEvent threadAdapter ;;;
      modify (fun s => setThreadsByTargetActorName
        (delete (thread_targetActor threadAdapter) (threadsByTargetActorName s)) s) ;;;
      exitThreads rest
  end.

(** The handler given to [descriptorActor.onDestroyed]; what
    [DescriptorAdapter.dispose] does to the adapter is outside the
    sources at hand and recorded as an effect. *)
Definition onDestroyed (descriptor : string) (adapter : DescriptorAdapter) : H unit :=
  exitThreads (adapter_threads adapter) ;;;
  perform (DisposeDescriptorAdapter descriptor).

(** [attachDescriptor]: the watcher, the thread configurator and the
    breakpoint list are requested, the adapter is created, the handlers
    above are registered and the targets are watched.  [contentScripts]
    is [watcherActor.supportsContentScriptTargets]. *)
Definition attachDescriptor (descriptor : string) (type : DescriptorType)
    (contentScripts : bool) : H unit :=
  perform (GetWatcher descriptor) ;;;
  perform (GetThreadConfiguration descriptor) ;;;
  perform (GetBreakpointList descriptor) ;;;
  modify (fun s => setDescriptors
    (<[descriptor := mkDescriptorAdapter type [] contentScripts]> (descriptors s)) s) ;;;
  perform (WatchTargets descriptor "frame") ;;;
  perform (WatchTargets descriptor "worker") ;;;
  (if config_addon config && contentScripts
   then perform (WatchTargets descriptor "content_script") else ret tt) ;;;
  perform (UpdateConfiguration descriptor).

(** What runs next in the session: a descriptor is attached, one of the
    events of an attached descriptor and its watcher arrives, or the
    [k]-th suspended run of the [onTargetAvailable] handler goes on. *)
Inductive Input :=
| DescriptorAttached (descriptor : string) (type : DescriptorType) (contentScripts : bool)
| TargetAvailable (descriptor : string) (targetActor : TargetActorProxy)
    (threadActor consoleActor : string)
| TargetDestroyed (descriptor : string) (targetActorName : string)
| DescriptorDestroyed (descriptor : string)
| Continued (k : nat).

(** An event of a descriptor runs the handlers of that descriptor's
    adapter; without an adapter there is no handler.  [Continued k] takes
    the [k]-th suspended run of [onTargetAvailable] off the list and runs
    what follows its [await]. *)
Definition handle (input : Input) : H unit :=
  match input with
  | DescriptorAttached descriptor type contentScripts =>
      attachDescriptor descriptor type contentScripts
  | TargetAvailable descriptor targetActor threadActor consoleActor =>
      s <- get ;;
      match descriptors s !! descriptor with
      | Some adapter => onTargetAvailable descriptor adapter targetActor threadActor consoleActor
      | None => ret tt
      end
  | TargetDestroyed descriptor targetActorName =>
      s <- get ;;
      match descriptors s !! descriptor with
      | Some _ => onTargetDestroyed descriptor targetActorName
      | None => ret tt
      end
  | DescriptorDestroyed descriptor =>
      s <- get ;;
      match descriptors s !! descriptor with
      | Some adapter => onDestroyed descriptor adapter
      | None => ret tt
      end
  | Continued k =>
      s <- get ;;
      match suspended s !! k with
      | Some (descriptor, threadAdapter) =>
          modify (fun s => setSuspended (delete k (suspended s)) s) ;;;
          onTargetAvailableResumed descriptor threadAdapter
      | None => ret tt
      end
  end.

Fixpoint run (inputs : list Input) (s : State) : State * list Effect :=
  match inputs with
  | [] => (s, [])
  | input :: rest =>
      let r := handle input s in
      let '(s', effs) := run rest (finalState r) in
      (s', effects r ++ effs)
  end.

(** A schedule in which no handler runs while another is suspended: the
    continuation of a target-available handler runs right after it. *)
Definition uninterrupted (inputs : list Input) : list Input :=
  flat_map (fun input =>
    match input with
    | TargetAvailable _ _ _ _ => [input; Continued 0]
    | _ => [input]
    end) inputs.

(** One input of such a schedule. *)
Definition handleUninterrupted (input : Input) : H unit :=
  match input with
  | TargetAvailable _ _ _ _ => handle input ;;; handle (Continued 0)
  | _ => handle input
  end.
End WithShortenUrl.

(** *** The engine's side *)

(** What the engine guarantees about the events it sends: a descriptor is
    attached once and sends nothing after it is destroyed; actor names are
    unique among the live targets of the connection; a watcher announces
    the destruction of its own targets only. *)
Record Engine := mkEngine {
  attached : gset string;
  live : gset string;
  targets : gmap string string
}.

Definition engineStart : Engine := {| attached := ∅; live := ∅; targets := ∅ |}.

Definition allowed (e : Engine) (input : Input) : bool :=
  match input with
  | DescriptorAttached d _ _ => bool_decide (d ∉ attached e)
  | TargetAvailable d targetActor _ _ =>
      bool_decide (d ∈ live e)
      && bool_decide (targets e !! targetActor_name targetActor = None)
  | TargetDestroyed d n =>
      bool_decide (d ∈ live e)
      && bool_decide (targets e !! n = None ∨ targets e !! n = Some d)
  | DescriptorDestroyed d => bool_decide (d ∈ live e)
  | Continued _ => true
  end.

Definition engineStep (e : Engine) (input : Input) : Engine :=
  match input with
  | DescriptorAttached d _ _ =>
      {| attached := {[d]} ∪ attached e; live := {[d]} ∪ live e; targets := targets e |}
  | TargetAvailable d targetActor _ _ =>
      {| attached := attached e; live := live e;
         targets := <[targetActor_name targetActor := d]> (targets e) |}
  | TargetDestroyed d n =>
      {| attached := attached e; live := live e; targets := delete n (targets e) |}
  | DescriptorDestroyed d =>
      {| attached := attached e; live := live e ∖ {[d]};
         targets := filter (fun kv => kv.2 ≠ d) (targets e) |}
  | Continued _ => e
  end.

Fixpoint wellFormed (e : Engine) (inputs : list Input) : bool :=
  match inputs with
  | [] => true
  | input :: rest => allowed e input && wellFormed (engineStep e input) rest
  end.

(** *** Counting the notifications *)

Definition isThreadExited (id : nat) (e : Effect) : bool :=
  match e with
  | SendEvent (DAP.ThreadEvent reason id') => String.eqb reason "exited" && (id' =? id)%nat
  | _ => false
  end.

Definition isCustomThreadExited (id : nat) (e : Effect) : bool :=
  match e with
  | SendEvent (DAP.CustomEvent event (DAP.ThreadExitedEventBody id')) =>
      String.eqb event "threadExited" && (id' =? id)%nat
  | _ => false
  end.

Definition isThreadStarted (id : nat) (e : Effect) : bool :=
  match e with
  | SendEvent (DAP.ThreadEvent reason id') => String.eqb reason "started" && (id' =? id)%nat
  | _ => false
  end.

Fixpoint count (f : Effect -> bool) (effs : list Effect) : nat :=
  match effs with
  | [] => 0
  | e :: rest => (if f e then 1 else 0) + count f rest
  end.

Definition isSendEvent (e : Effect) : bool :=
  match e with SendEvent _ => true | _ => false end.

(** A thread is attached while the session finds it by its target. *)
Definition isAttached (id : nat) (s : State) : Prop :=
  ∃ n t, threadsByTargetActorName s !! n = Some t ∧ thread_id t = id.

(** The two events of [sendThreadExitedEvent]. *)
Definition exitEvents (t : ThreadAdapter) : list Effect :=
  [SendEvent (DAP.ThreadEvent "exited" (thread_id t));
   SendEvent (DAP.CustomEvent "threadExited" (DAP.ThreadExitedEventBody (thread_id t)))].

(** The map left by the loop of [onDestroyed]. *)
Definition withoutThreads (l : list ThreadAdapter) (m : gmap string ThreadAdapter)
    : gmap string ThreadAdapter :=
  fold_left (fun m t => delete (thread_targetActor t) m) l m.

(** What holds of the engine [e], the session [s] and the effects [effs]
    performed so far, after every input of a well-formed sequence in which
    no handler runs while another is suspended. *)
Record Invariant (e : Engine) (s : State) (effs : list Effect) : Prop := mkInvariant {
  inv_registered : ∀ n t, threadsByTargetActorName s !! n = Some t →
    thread_targetActor t = n
    ∧ (thread_id t < Registry.nextId (threads s))%nat
    ∧ count (isThreadStarted (thread_id t)) effs = 1%nat
    ∧ count (isThreadExited (thread_id t)) effs = 0%nat
    ∧ ∃ d a, d ∈ live e ∧ descriptors s !! d = Some a ∧ t ∈ adapter_threads a;
  inv_owned : ∀ d a t, d ∈ live e → descriptors s !! d = Some a → t ∈ adapter_threads a →
    threadsByTargetActorName s !! thread_targetActor t = Some t
    ∧ targets e !! thread_targetActor t = Some d;
  inv_unique : ∀ n1 n2 t1 t2,
    threadsByTargetActorName s !! n1 = Some t1 →
    threadsByTargetActorName s !! n2 = Some t2 →
    thread_id t1 = thread_id t2 → n1 = n2;
  inv_nodup : ∀ d a, d ∈ live e → descriptors s !! d = Some a → NoDup (adapter_threads a);
  inv_live : ∀ d, d ∈ live e → is_Some (descriptors s !! d);
  inv_attached : ∀ d, is_Some (descriptors s !! d) → d ∈ attached e;
  inv_counts : ∀ id,
    count (isThreadExited id) effs = count (isCustomThreadExited id) effs
    ∧ (count (isThreadExited id) effs ≤ count (isThreadStarted id) effs)%nat
    ∧ (count (isThreadStarted id) effs ≤ 1)%nat
    ∧ (count (isThreadStarted id) effs = 1%nat →
       isAttached id s ∨ count (isThreadExited id) effs = 1%nat);
  inv_idle : suspended s = [];
  inv_fresh : ∀ id, (Registry.nextId (threads s) ≤ id)%nat →
    count (isThreadStarted id) effs = 0%nat
}.

(** The engine after a sequence of inputs. *)
Definition engineRun (e : Engine) (inputs : list Input) : Engine :=
  fold_left engineStep inputs e.

End TargetLifecycle.


(** ** The session: start *)

Module SessionStart.
Import Handler FirefoxDebugProtocol.
Local Open Scope handler_scope.

(** The promise returned by [start]. *)
Inductive PromiseState :=
| Pending
| Resolved
| Rejected (reason : string).

(** The sub-actors [fetchRoot] returns; the add-ons actor may be missing. *)
Record RootActors := mkRootActors { actors_addons : bool }.

Record State := mkState {
  startPromise : PromiseState;
  processDescriptorMode : option bool;
  addonsActor : bool;
  rootActorsAssigned : bool
}.

Inductive Effect :=
| FetchRoot
| GetProcess (id : nat)
| AttachDescriptor
| FetchTabsThenClearReloadTabs
| AddonSessionStarted
| WatchResources (resources : list string).

(** What the awaited requests of the handler answer. *)
Record Env := mkEnv {
  fetchRoot : Outcome RootActors;
  getProcess : Outcome unit;
  attachDescriptor : Outcome unit;
  sessionStarted : Outcome unit;
  watchResources : Outcome unit
}.

Definition H := M State Effect.

(** Settling a promise that is already settled does nothing. *)
Definition settle (p : PromiseState) (s : State) : State :=
  {| startPromise := match startPromise s with Pending => p | settled => settled end;
     processDescriptorMode := processDescriptorMode s;
     addonsActor := addonsActor s;
     rootActorsAssigned := rootActorsAssigned s |}.

Definition reject (reason : string) : H unit := modify (settle (Rejected reason)).
Definition resolve : H unit := modify (settle Resolved).

Definition setProcessDescriptorMode (b : bool) (s : State) : State :=
  {| startPromise := startPromise s;
     processDescriptorMode := Some b;
     addonsActor := addonsActor s;
     rootActorsAssigned := rootActorsAssigned s |}.

Definition assignActors (actors : RootActors) (s : State) : State :=
  {| startPromise := startPromise s;
     processDescriptorMode := processDescriptorMode s;
     addonsActor := actors_addons actors;
     rootActorsAssigned := true |}.

Definition unsupportedMessage : string :=
  "Your version of Firefox is not supported anymore - please upgrade to Firefox 68 or later".

Definition resources : list string :=
  ["console-message"; "error-message"; "source"; "thread-state"].

(** The condition under which the [init] handler gives up. *)
Definition unsupportedEngine (traits : Traits) : bool :=
  webExtensionAddonConnect traits && negb (nativeLogpoints traits).

(** The handler given to [rootActor.onInit] by [start]; [hasAddonManager]
    tells whether the session has an add-on manager. *)
Definition onInit (env : Env) (hasAddonManager : bool) (traits : Traits) : H unit :=
  if webExtensionAddonConnect traits && negb (nativeLogpoints traits) then
    reject unsupportedMessage
  else
    let mode := supportsEnableWindowGlobalThreadActors traits in
    modify (setProcessDescriptorMode mode) ;;;
    perform FetchRoot ;;;
    actors <- await (fetchRoot env) ;;
    modify (assignActors actors) ;;;
    (if mode then
       perform (GetProcess 0) ;;;
       await (getProcess env) ;;;
       perform AttachDescriptor ;;;
       await (attachDescriptor env)
     else
       perform FetchTabsThenClearReloadTabs) ;;;
    (if hasAddonManager then
       if actors_addons actors then
         perform AddonSessionStarted ;;;
         await (sessionStarted env)
       else reject "No AddonsActor received from Firefox"
     else ret tt) ;;;
    (if mode then
       perform (WatchResources resources) ;;;
       await (watchResources env)
     else ret tt) ;;;
    resolve.

Definition initial : State :=
  {| startPromise := Pending; processDescriptorMode := None;
     addonsActor := false; rootActorsAssigned := false |}.

End SessionStart.

(** ** The session: shutdown *)

Module Shutdown.
Import Handler.
Local Open Scope handler_scope.

Record LaunchConfiguration := mkLaunch { tmpDirs : list string }.

Record Config := mkConfig {
  terminate : bool;
  launch : option LaunchConfiguration;
  dirname : string
}.

(** The fields of the session [disconnectFirefoxAndCleanup] reads and
    writes: whether a reload watcher and a child process are held, whether
    the socket to the browser has closed, and whether the add-ons actor is
    known. *)
Record State := mkState {
  reloadWatcher : bool;
  firefoxProc : bool;
  firefoxDebugSocketClosed : bool;
  addonsActor : bool
}.

Inductive LogLevel := debug | warn.

(** The promises raced against a delay. *)
Inductive Awaited := firefoxClosedPromise | firefoxDebugSocketClosedPromise.

Inductive Effect :=
| CloseReloadWatcher
| Log (level : LogLevel) (msg : string)
| Kill (signal : string)
| Race (promise : Awaited) (ms : nat)
| InstallAddon (path : string)
| Disconnect
| Delay (ms : nat)
| Remove (dir : string).

(** The places where the function awaits. *)
Inductive AwaitPoint := afterKill | installing | afterInstall | grace.

(** What happens while the function awaits: the socket's [close] handler
    may run and set [firefoxDebugSocketClosed]; [installAddon] and the
    removal of the directories may fail. *)
Record Env := mkEnv {
  socketCloses : AwaitPoint -> bool;
  installAddon : Outcome unit;
  removeAll : Outcome unit
}.

Definition H := M State Effect.

Definition setReloadWatcher (b : bool) (s : State) : State :=
  {| reloadWatcher := b; firefoxProc := firefoxProc s;
     firefoxDebugSocketClosed := firefoxDebugSocketClosed s;
     addonsActor := addonsActor s |}.

Definition socketClosed (s : State) : State :=
  {| reloadWatcher := reloadWatcher s; firefoxProc := firefoxProc s;
     firefoxDebugSocketClosed := true;
     addonsActor := addonsActor s |}.

(** The function is suspended at [point]. *)
Definition suspended (env : Env) (point : AwaitPoint) : H unit :=
  if socketCloses env point then modify socketClosed else ret tt.

Fixpoint removeEach (dirs : list string) : H unit :=
  match dirs with
  | [] => ret tt
  | tmpDir :: rest => perform (Remove tmpDir) ;;; removeEach rest
  end.

(** [path.join(__dirname, 'terminator')] *)
Definition terminatorPath (config : Config) : string :=
  dirname config +:+ "/terminator".

(** The first lines of [disconnectFirefoxAndCleanup]: the reload watcher,
    when there is one, is closed and forgotten. *)
Definition closeReloadWatcher : H unit :=
  s <- get ;;
  if reloadWatcher s then
    perform CloseReloadWatcher ;;; modify (setReloadWatcher false)
  else ret tt.

(** The middle of [disconnectFirefoxAndCleanup]: the attempt to terminate
    the browser, by a signal to the child or by the terminator add-on. *)
Definition tryToTerminate (env : Env) (config : Config) : H unit :=
  s <- get ;;
  if firefoxProc s then
    perform (Log debug "Trying to kill Firefox using a SIGTERM signal") ;;;
    perform (Kill "SIGTERM") ;;;
    perform (Race firefoxClosedPromise 1000) ;;;
    suspended env afterKill
  else if negb (firefoxDebugSocketClosed s) && addonsActor s then
    perform (Log debug "Trying to close Firefox using the Terminator WebExtension") ;;;
    perform (InstallAddon (terminatorPath config)) ;;;
    suspended env installing ;;;
    await (installAddon env) ;;;
    perform (Race firefoxDebugSocketClosedPromise 1000) ;;;
    suspended env afterInstall
  else ret tt.

(** The end of [disconnectFirefoxAndCleanup]: when the socket has not
    closed the connection is disconnected and the function returns;
    otherwise the temporary directories are removed. *)
Definition cleanup (env : Env) (config : Config) : H unit :=
  s <- get ;;
  if negb (firefoxDebugSocketClosed s) then
    perform (Log warn "Couldn't terminate Firefox") ;;;
    perform Disconnect
  else
    match launch config with
    | Some l =>
        if (0 <? length (tmpDirs l))%nat then
          perform (Delay 500) ;;;
          suspended env grace ;;;
          perform (Log debug ("Removing " +:+ String.concat " , " (tmpDirs l))) ;;;
          tryCatch
            (removeEach (tmpDirs l) ;;; await (removeAll env))
            (fun err => perform (Log warn ("Failed to remove temporary directory: " +:+ err)))
        else ret tt
    | None => ret tt
    end.

Definition disconnectFirefoxAndCleanup (env : Env) (config : Config) : H unit :=
  closeReloadWatcher ;;;
  if negb (terminate config) then
    perform Disconnect
  else
    tryToTerminate env config ;;;
    cleanup env config.

(** The temporary directories of the configuration. *)
Definition configuredTmpDirs (config : Config) : list string :=
  match launch config with Some l => tmpDirs l | None => [] end.

(** The directories removed, in order. *)
Definition removed (effs : list Effect) : list string :=
  omap (fun e => match e with Remove d => Some d | _ => None end) effs.

(** The effects but the closing of the reload watcher, which comes first
    when there is one. *)
Definition afterWatcher (effs : list Effect) : list Effect :=
  match effs with
  | CloseReloadWatcher :: rest => rest
  | _ => effs
  end.

(** The effects of the reload-watcher step. *)
Definition watcherEffects (s : State) : list Effect :=
  if reloadWatcher s then [CloseReloadWatcher] else [].

(** The session after the reload-watcher step. *)
Definition withoutWatcher (s : State) : State :=
  if reloadWatcher s then setReloadWatcher false s else s.

End Shutdown.


(** ** Calls on a pending-request queue

    The methods of [PendingRequests], as a sequence of calls on one queue. *)

Module RequestQueue.
Import PendingRequests.

Section Calls.
Context {T : Type}.

(** The methods of [PendingRequests<T>], as calls. *)
Inductive Call :=
| Enqueue (req : PendingRequest)
| ResolveOne (t : T)
| RejectOne (err : string)
| ResolveAll (t : T)
| RejectAll (err : string).

Definition call (c : Call) (q : PendingRequests.t) : PendingRequests.t * list (Settlement T) :=
  match c with
  | Enqueue req => (enqueue req q, [])
  | ResolveOne v => resolveOne v q
  | RejectOne err => rejectOne err q
  | ResolveAll v => resolveAll v q
  | RejectAll err => rejectAll err q
  end.

(** A sequence of calls: the queue left and what has been settled or
    logged, oldest first. *)
Fixpoint calls (cs : list Call) (q : PendingRequests.t)
    : PendingRequests.t * list (Settlement T) :=
  match cs with
  | [] => (q, [])
  | c :: rest =>
      let '(q1, s1) := call c q in
      let '(q2, s2) := calls rest q1 in
      (q2, s1 ++ s2)
  end.

(** The request a settlement settles. *)
Definition settled (s : Settlement T) : option PendingRequest :=
  match s with
  | Resolved request _ => Some request
  | Rejected request _ => Some request
  | ConsoleLog _ => None
  end.

Definition enqueued (c : Call) : option PendingRequest :=
  match c with Enqueue req => Some req | _ => None end.

End Calls.

Arguments Call : clear implicits.

End RequestQueue.

(** ** The Root actor proxy: reading its effects *)

Module RootTabs.
Import JS RootActorProxy.

(** The proxy [new TabActorProxy(tab.actor, tab.title, tab.url, ...)]. *)
Definition newProxy (tab : Tab) : TabActorProxy :=
  mkTabActorProxy (tab_actor tab) (tab_title tab) (tab_url tab).

(** The proxies announced with [tabOpened], in order. *)
Definition opened (effs : list Effect) : list TabActorProxy :=
  omap (fun e => match e with Emit (EvTabOpened p) => Some p | _ => None end) effs.

(** The proxies announced with [tabClosed], in order. *)
Definition closed (effs : list Effect) : list TabActorProxy :=
  omap (fun e => match e with Emit (EvTabClosed p) => Some p | _ => None end) effs.

(** The promises settled, in order. *)
Definition settledRequests (effs : list Effect) : list PendingRequests.PendingRequest :=
  omap (fun e => match e with Settle s => RequestQueue.settled s | _ => None end) effs.

(** The requests written to the connection, in order. *)
Definition sent (effs : list Effect) : list Request :=
  omap (fun e => match e with SendRequest r => Some r | _ => None end) effs.

(** The proxy filed for a tab of a response: the known one when there is
    one, a new one otherwise. *)
Definition proxyFor (known : Map TabActorProxy) (tab : Tab) : TabActorProxy :=
  default (newProxy tab) (Map_get (tab_actor tab) known).

(** What is logged and emitted for a tab of a response. *)
Definition announce (known : Map TabActorProxy) (tab : Tab) : list Effect :=
  if Map_has (tab_actor tab) known then []
  else [LogDebug (TabOpenedMsg (tab_actor tab)); Emit (EvTabOpened (newProxy tab))].

(** The map built from the tabs of a response. *)
Definition file (known : Map TabActorProxy) (tabs : list Tab) (currentTabs : Map TabActorProxy)
    : Map TabActorProxy :=
  fold_left (fun currentTabs tab => Map_set (tab_actor tab) (proxyFor known tab) currentTabs)
    tabs currentTabs.

(** The keys of a map, in iteration order. *)
Definition keys {V} (m : Map V) : list string := map fst m.

(** Every proxy is filed under its own name, and under one key only. *)
Definition filedByName (m : Map TabActorProxy) : Prop :=
  NoDup (keys m) ∧ ∀ k p, (k, p) ∈ m → tabproxy_name p = k.

End RootTabs.

(** ** The thread actor proxy (the single-file actor-proxy module) *)

Module ThreadActorProxy.
Import PendingRequests.

(** A payload the proxy only passes on ([SourceLocation], [Source[]],
    [Frame[]]), by its JSON text. *)
Definition JSON := string.

(** [pausedResponse.why] *)
Record Why := mkWhy { why_type : option string }.

(** The properties of a packet from the thread actor that
    [receiveResponse] inspects. *)
Record Response := mkResponse {
  type_ : option string;
  error : option string;
  why : option Why;
  actualLocation : option JSON;
  sources : option JSON;
  frames : option JSON
}.

(** A request packet handed to [connection.sendRequest]. *)
Record Request := mkRequest {
  req_to : string;
  req_type : string;
  req_location : option JSON;
  req_resumeLimit : option string
}.

(** The five queues of the proxy. *)
Inductive Queue :=
| pendingAttachRequests
| pendingDetachRequests
| pendingSetBreakpointRequests
| pendingSourceRequests
| pendingFrameRequests.

#[global] Instance Queue_eq_dec : EqDecision Queue.
Proof. solve_decision. Defined.

(** What a promise is settled with: [null] or a payload. *)
Inductive Value := Null | Payload (json : JSON).

Inductive Effect :=
| SendRequest (r : Request)
| Emit (event : string)
| Settle (queue : Queue) (s : Settlement Value)
| LogUnknown (response : Response).

Record ThreadActor := mkThreadActor {
  name : string;
  pending : Queue -> PendingRequests.t;
  nextPromise : nat
}.

Definition create (_name : string) : ThreadActor :=
  {| name := _name; pending := fun _ => PendingRequests.empty; nextPromise := 0 |}.

Definition setPending (queue : Queue) (q : PendingRequests.t) (st : ThreadActor) : ThreadActor :=
  {| name := name st;
     pending := fun queue' => if decide (queue' = queue) then q else pending st queue';
     nextPromise := nextPromise st |}.

(** [new Promise((resolve, reject) => { queue.enqueue({ resolve, reject });
    connection.sendRequest(request) })] *)
Definition request (queue : Queue) (r : Request) (st : ThreadActor)
    : ThreadActor * list Effect * option (Queue * PendingRequest) :=
  let p := nextPromise st in
  ({| name := name st;
      pending := fun queue' =>
        if decide (queue' = queue) then enqueue p (pending st queue) else pending st queue';
      nextPromise := S p |},
   [SendRequest r],
   Some (queue, p)).

(** A method that only writes a request. *)
Definition send (r : Request) (st : ThreadActor)
    : ThreadActor * list Effect * option (Queue * PendingRequest) :=
  (st, [SendRequest r], None).

Definition attach (st : ThreadActor) :=
  request pendingAttachRequests (mkRequest (name st) "attach" None None) st.

Definition setBreakpoint (location : JSON) (st : ThreadActor) :=
  request pendingSetBreakpointRequests
    (mkRequest (name st) "setBreakpoint" (Some location) None) st.

Definition fetchSources (st : ThreadActor) :=
  request pendingSourceRequests (mkRequest (name st) "sources" None None) st.

Definition fetchStackFrames (st : ThreadActor) :=
  request pendingFrameRequests (mkRequest (name st) "sources" None None) st.

Definition resume (st : ThreadActor) := send (mkRequest (name st) "resume" None None) st.

Definition stepOver (st : ThreadActor) :=
  send (mkRequest (name st) "resume" None (Some "next")) st.

Definition stepInto (st : ThreadActor) :=
  send (mkRequest (name st) "resume" None (Some "step")) st.

Definition stepOut (st : ThreadActor) :=
  send (mkRequest (name st) "resume" None (Some "finish")) st.

Definition detach (st : ThreadActor) :=
  request pendingDetachRequests (mkRequest (name st) "detach" None None) st.

(** A method of [PendingRequests] applied to one of the queues. *)
Definition onQueue (queue : Queue)
    (f : PendingRequests.t -> PendingRequests.t * list (Settlement Value))
    (acc : ThreadActor * list Effect) : ThreadActor * list Effect :=
  let '(st, effs) := acc in
  let '(q, settled) := f (pending st queue) in
  (setPending queue q st, effs ++ map (Settle queue) settled).

Definition emit (event : string) (acc : ThreadActor * list Effect) : ThreadActor * list Effect :=
  (acc.1, acc.2 ++ [Emit event]).

Definition typeIs (response : Response) (t : string) : bool :=
  bool_decide (type_ response = Some t).

Definition errorIs (response : Response) (e : string) : bool :=
  bool_decide (error response = Some e).

(** [receiveResponse]; the result is the exception thrown, if any
    ([pausedResponse.why.type] of a packet without [why]). *)
Definition receiveResponse (response : Response) (st : ThreadActor)
    : ThreadActor * list Effect * option string :=
  if typeIs response "paused" then
    match why response with
    | None => (st, [], Some "TypeError: pausedResponse.why is undefined")
    | Some w =>
        let acc :=
          if bool_decide (why_type w = Some "attached") then
            onQueue pendingDetachRequests (rejectAll "paused")
              (onQueue pendingAttachRequests (resolveAll Null) (st, []))
          else (st, []) in
        (emit "paused" acc, None)
    end
  else if typeIs response "exited" then
    (emit "exited"
       (onQueue pendingDetachRequests (resolveAll Null)
          (onQueue pendingAttachRequests (rejectAll "exited") (st, []))), None)
  else if errorIs response "wrongState" then
    (emit "wrongState"
       (onQueue pendingDetachRequests (rejectAll "wrongState")
          (onQueue pendingAttachRequests (rejectAll "wrongState") (st, []))), None)
  else if typeIs response "detached" then
    (emit "detached"
       (onQueue pendingDetachRequests (resolveAll Null)
          (onQueue pendingAttachRequests (rejectAll "detached") (st, []))), None)
  else
    match actualLocation response with
    | Some location =>
        (onQueue pendingSetBreakpointRequests (resolveOne (Payload location)) (st, []), None)
    | None =>
        if errorIs response "noScript" || errorIs response "noCodeAtLineColumn" then
          (onQueue pendingSetBreakpointRequests
             (rejectOne (default "" (error response))) (st, []), None)
        else
          match sources response with
          | Some l => (onQueue pendingSourceRequests (resolveOne (Payload l)) (st, []), None)
          | None =>
              match frames response with
              | Some l => (onQueue pendingFrameRequests (resolveOne (Payload l)) (st, []), None)
              | None =>
                  if negb (typeIs response "newGlobal")
                  then (st, [LogUnknown response], None)
                  else (st, [], None)
              end
          end
    end.

(** What happens to the proxy, one step at a time: a method is called, or
    a packet from the thread actor arrives. *)
Inductive Op :=
| Attach
| SetBreakpoint (location : JSON)
| FetchSources
| FetchStackFrames
| Resume
| StepOver
| StepInto
| StepOut
| Detach
| Receive (response : Response).

(** A step: the proxy afterwards, the effects, and the promise returned
    to the caller, if the method returns one. *)
Definition step (st : ThreadActor) (op : Op)
    : ThreadActor * list Effect * option (Queue * PendingRequest) :=
  match op with
  | Attach => attach st
  | SetBreakpoint location => setBreakpoint location st
  | FetchSources => fetchSources st
  | FetchStackFrames => fetchStackFrames st
  | Resume => resume st
  | StepOver => stepOver st
  | StepInto => stepInto st
  | StepOut => stepOut st
  | Detach => detach st
  | Receive response =>
      let '(st', effs, _) := receiveResponse response st in (st', effs, None)
  end.

(** A run: the proxy afterwards, the effects, and the promises returned
    to the callers, in order. *)
Fixpoint run (st : ThreadActor) (ops : list Op)
    : ThreadActor * list Effect * list (Queue * PendingRequest) :=
  match ops with
  | [] => (st, [], [])
  | op :: ops' =>
      let '(st1, e1, p1) := step st op in
      let '(st2, e2, p2) := run st1 ops' in
      (st2, e1 ++ e2, from_option (fun p => [p]) [] p1 ++ p2)
  end.

(** The promises of [queue] settled, in order. *)
Definition settledIn (queue : Queue) (effs : list Effect) : list PendingRequest :=
  omap (fun e => match e with
                 | Settle queue' s =>
                     if decide (queue' = queue) then RequestQueue.settled s else None
                 | _ => None
                 end) effs.

(** The promises of [queue] among those returned to the callers. *)
Definition returnedFor (queue : Queue) (promises : list (Queue * PendingRequest))
    : list PendingRequest :=
  omap (fun qp => if decide (qp.1 = queue) then Some qp.2 else None) promises.

Definition sent (effs : list Effect) : list Request :=
  omap (fun e => match e with SendRequest r => Some r | _ => None end) effs.

(** A queue method that settles requests of the queue and enqueues none. *)
Definition accounts (f : PendingRequests.t -> PendingRequests.t * list (Settlement Value))
    : Prop :=
  forall q, omap RequestQueue.settled (f q).2 ++ (f q).1 = q.

(** The promises of [queue] the proxy has settled or still holds. *)
Definition accountedFor (queue : Queue) (acc : ThreadActor * list Effect)
    : list PendingRequest :=
  settledIn queue acc.2 ++ pending acc.1 queue.

End ThreadActorProxy.

(** ** The tab actor proxy (the single-file actor-proxy module) *)

Module TabActorProxy.
Import PendingRequests.

(** The properties of a packet from the tab actor that [receiveResponse]
    reads. *)
Record Response := mkResponse {
  type_ : option string;
  error : option string;
  threadActor : option string;
  state : option string;
  url : option string;
  title : option string
}.

Record Request := mkRequest { req_to : string; req_type : string }.

Inductive Queue := pendingAttachRequests | pendingDetachRequests.

(** What a promise is settled with and an event is emitted with: [null],
    or the thread actor proxy made for [tabAttachedResponse.threadActor]. *)
Inductive Value := Null | ThreadActorProxy (_name : option string).

Inductive Effect :=
| SendRequest (r : Request)
| Register (actor : option string)
| Emit (event : string) (argument : option Value)
| Settle (queue : Queue) (s : Settlement Value)
| LogUnknown (response : Response).

(** The fields of the proxy; [_url] and [_title] are overwritten with
    whatever a navigation packet carries. *)
Record TabActor := mkTabActor {
  _name : string;
  _title : option string;
  _url : option string;
  attachRequests : PendingRequests.t;
  detachRequests : PendingRequests.t;
  nextPromise : nat
}.

Definition create (name title url : string) : TabActor :=
  {| _name := name; _title := Some title; _url := Some url;
     attachRequests := PendingRequests.empty; detachRequests := PendingRequests.empty;
     nextPromise := 0 |}.

Definition attach (st : TabActor) : TabActor * list Effect * PendingRequest :=
  let p := nextPromise st in
  ({| _name := _name st; _title := _title st; _url := _url st;
      attachRequests := enqueue p (attachRequests st);
      detachRequests := detachRequests st;
      nextPromise := S p |},
   [SendRequest (mkRequest (_name st) "attach")], p).

Definition detach (st : TabActor) : TabActor * list Effect * PendingRequest :=
  let p := nextPromise st in
  ({| _name := _name st; _title := _title st; _url := _url st;
      attachRequests := attachRequests st;
      detachRequests := enqueue p (detachRequests st);
      nextPromise := S p |},
   [SendRequest (mkRequest (_name st) "detach")], p).

Definition setAttachRequests (q : PendingRequests.t) (st : TabActor) : TabActor :=
  {| _name := _name st; _title := _title st; _url := _url st;
     attachRequests := q; detachRequests := detachRequests st;
     nextPromise := nextPromise st |}.

Definition setDetachRequests (q : PendingRequests.t) (st : TabActor) : TabActor :=
  {| _name := _name st; _title := _title st; _url := _url st;
     attachRequests := attachRequests st; detachRequests := q;
     nextPromise := nextPromise st |}.

Definition setUrl (u : option string) (st : TabActor) : TabActor :=
  {| _name := _name st; _title := _title st; _url := u;
     attachRequests := attachRequests st; detachRequests := detachRequests st;
     nextPromise := nextPromise st |}.

Definition setTitle (t : option string) (st : TabActor) : TabActor :=
  {| _name := _name st; _title := t; _url := _url st;
     attachRequests := attachRequests st; detachRequests := detachRequests st;
     nextPromise := nextPromise st |}.

Definition typeIs (response : Response) (t : string) : bool :=
  bool_decide (type_ response = Some t).

Definition receiveResponse (response : Response) (st : TabActor) : TabActor * list Effect :=
  if typeIs response "tabAttached" then
    let thread := ThreadActorProxy (threadActor response) in
    let '(q, settled) := resolveOne thread (attachRequests st) in
    (setAttachRequests q st,
     [Register (threadActor response); Emit "attached" (Some thread)]
       ++ map (Settle pendingAttachRequests) settled)
  else if typeIs response "exited" then
    let '(q, settled) := rejectOne "exited" (attachRequests st) in
    (setAttachRequests q st, map (Settle pendingAttachRequests) settled)
  else if typeIs response "detached" then
    let '(q, settled) := resolveOne Null (detachRequests st) in
    (setDetachRequests q st,
     map (Settle pendingDetachRequests) settled ++ [Emit "detached" None])
  else if bool_decide (error response = Some "wrongState") then
    let '(q, settled) := rejectOne "exited" (detachRequests st) in
    (setDetachRequests q st, map (Settle pendingDetachRequests) settled)
  else if typeIs response "tabDetached" then
    (st, [Emit "tabDetached" None])
  else if typeIs response "tabNavigated" then
    if bool_decide (state response = Some "start") then
      (setUrl (url response) st, [Emit "willNavigate" None])
    else if bool_decide (state response = Some "stop") then
      (setTitle (title response) (setUrl (url response) st), [Emit "didNavigate" None])
    else (st, [])
  else
    if negb (typeIs response "frameUpdate") then (st, [LogUnknown response]) else (st, []).

(** The packets of the tab actor, received one after the other. *)
Fixpoint receiveAll (responses : list Response) (st : TabActor) : TabActor * list Effect :=
  match responses with
  | [] => (st, [])
  | response :: rest =>
      let '(st1, e1) := receiveResponse response st in
      let '(st2, e2) := receiveAll rest st1 in
      (st2, e1 ++ e2)
  end.

(** The packet is one that [receiveResponse] takes for a navigation in
    state [s]: its type is [tabNavigated] and no earlier branch claims
    it. *)
Definition navigates (s : string) (response : Response) : bool :=
  typeIs response "tabNavigated"
  && negb (bool_decide (error response = Some "wrongState"))
  && bool_decide (state response = Some s).

End TabActorProxy.

(** ** The session: connecting to the browser *)

Module ConnectToFirefox.
Import Handler.
Local Open Scope handler_scope.

Record AttachConfiguration := mkAttach {
  attach_port : N;
  attach_host : string;
  attach_reloadTabs : bool
}.

Record LaunchConfiguration := mkLaunch {
  launch_port : N;
  launch_timeout : N;
  detached : bool
}.

Record Config := mkConfig {
  attach : option AttachConfiguration;
  launch : option LaunchConfiguration
}.

(** Sockets and child processes are objects; the embedding names them by
    numbers. *)
Definition Socket := nat.
Definition ChildProcess := nat.

(** The fields of the session [connectToFirefox] writes. *)
Record State := mkState {
  reloadTabs : bool;
  firefoxProc : option ChildProcess;
  firefoxClosedPromise : option ChildProcess
}.

Inductive Effect :=
| Connect (port : N) (host : string)
| LaunchFirefox (launch : option LaunchConfiguration)
| OnceExit (proc : ChildProcess)
| OnceClose (proc : ChildProcess)
| WaitForSocket (port timeout : N).

(** What the awaited functions answer: [connect] and [waitForSocket]
    (util/net.ts), [launchFirefox] (firefox/launch.ts). *)
Record Env := mkEnv {
  connect : Outcome Socket;
  launchFirefox : Outcome (option ChildProcess);
  waitForSocket : Outcome Socket
}.

Definition H := M State Effect.

Definition setReloadTabs (b : bool) (s : State) : State :=
  {| reloadTabs := b; firefoxProc := firefoxProc s;
     firefoxClosedPromise := firefoxClosedPromise s |}.

Definition setFirefoxProc (p : ChildProcess) (s : State) : State :=
  {| reloadTabs := reloadTabs s; firefoxProc := Some p;
     firefoxClosedPromise := firefoxClosedPromise s |}.

Definition setFirefoxClosedPromise (p : ChildProcess) (s : State) : State :=
  {| reloadTabs := reloadTabs s; firefoxProc := firefoxProc s;
     firefoxClosedPromise := Some p |}.

(** The first half: the attempt to attach to a running browser. *)
Definition tryToAttach (env : Env) (config : Config) : H (option Socket) :=
  match attach config with
  | Some a =>
      tryCatch
        (perform (Connect (attach_port a) (attach_host a)) ;;;
         socket <- await (connect env) ;;
         modify (setReloadTabs (attach_reloadTabs a)) ;;;
         ret (Some socket))
        (fun err =>
           match launch config with
           | None => throw err
           | Some _ => ret None
           end)
  | None => ret None
  end.

(** The second half: the browser is launched and its socket awaited.
    [this.config.launch!] is read without a check. *)
Definition launchAndWait (env : Env) (config : Config) : H Socket :=
  perform (LaunchFirefox (launch config)) ;;;
  proc <- await (launchFirefox env) ;;
  (match proc with
   | Some p =>
       match launch config with
       | None => throw "TypeError: this.config.launch is undefined"
       | Some l =>
           if negb (detached l) then
             modify (setFirefoxProc p) ;;;
             perform (OnceExit p) ;;;
             modify (setFirefoxClosedPromise p) ;;;
             perform (OnceClose p)
           else ret tt
       end
   | None => ret tt
   end) ;;;
  match launch config with
  | None => throw "TypeError: this.config.launch is undefined"
  | Some l =>
      perform (WaitForSocket (launch_port l) (launch_timeout l)) ;;;
      await (waitForSocket env)
  end.

Definition connectToFirefox (env : Env) (config : Config) : H Socket :=
  socket <- tryToAttach env config ;;
  match socket with
  | Some socket => ret socket
  | None => launchAndWait env config
  end.

(** The configuration without its [attach] part. *)
Definition launchOnly (config : Config) : Config :=
  {| attach := None; launch := launch config |}.

(** The session at shutdown, as far as [disconnectFirefoxAndCleanup]
    reads it: the child process is the one [connectToFirefox] stored. *)
Definition atShutdown (s : State) (watcher closed addons : bool) : Shutdown.State :=
  {| Shutdown.reloadWatcher := watcher;
     Shutdown.firefoxProc := bool_decide (is_Some (firefoxProc s));
     Shutdown.firefoxDebugSocketClosed := closed;
     Shutdown.addonsActor := addons |}.

End ConnectToFirefox.

(** ** The test utilities (test/util.ts) *)

Module TestUtil.
Import Handler.
Local Open Scope handler_scope.

(** *** [waitForUnoccupiedPort] *)

Module Port.

(** The probes made so far. *)
Definition State := nat.

Inductive Effect :=
| Listen (port : N)
| Delay (ms : N).

(** What the [n]-th call of [isPortOccupied] finds: the port occupied
    ([EADDRINUSE]), the port free, or another error of the server. *)
Record Env := mkEnv { probe : nat -> Outcome bool }.

Definition H := M State Effect.

Definition isPortOccupied (env : Env) (port : N) : H bool :=
  n <- get ;;
  perform (Listen port) ;;;
  modify S ;;;
  await (probe env n).

(** The number of [i] in [0, 1, ...] with [i < timeout / 100]. *)
Definition iterations (timeout : N) : nat := N.to_nat ((timeout + 99) / 100).

(** The [for] loop, by the number of iterations left. *)
Fixpoint retry (env : Env) (port : N) (left : nat) : H bool :=
  match left with
  | 0 => ret false
  | S left' =>
      perform (Delay 100) ;;;
      occupied <- isPortOccupied env port ;;
      if negb occupied then ret true else retry env port left'
  end.

(** [N.prototype.toString] in a template string. *)
Fixpoint digits (fuel : nat) (n : N) (acc : string) : string :=
  match fuel with
  | 0 => acc
  | S fuel' =>
      let acc := String (Ascii.ascii_of_N (48 + n mod 10)) acc in
      if (n / 10 =? 0)%N then acc else digits fuel' (n / 10) acc
  end.

Definition toString (n : N) : string := digits (S (N.to_nat (N.log2 n))) n "".

Definition waitForUnoccupiedPort (env : Env) (port timeout : N) : H unit :=
  occupied <- isPortOccupied env port ;;
  if negb occupied then ret tt
  else
    returned <- retry env port (iterations timeout) ;;
    if returned then ret tt
    else throw ("Port " +:+ toString port +:+ " is occupied").

(** One probe, then [k] times a delay and a probe. *)
Definition polls (port : N) (k : nat) : list Effect :=
  Listen port :: concat (repeat [Delay 100; Listen port] k).

End Port.

(** *** [collectOutputEvents] *)

Module Collect.

(** The closure of [collectOutputEvents]: the array, whether the listener
    is registered, and what the promise was resolved with. *)
Record State (Ev : Type) := mkState {
  outputEvents : list Ev;
  listening : bool;
  resolved : option (list Ev)
}.
Arguments mkState {Ev} _ _ _.
Arguments outputEvents {Ev} _.
Arguments listening {Ev} _.
Arguments resolved {Ev} _.

(** The state when [collectOutputEvents] returns. *)
Definition collectOutputEvents {Ev} : State Ev :=
  {| outputEvents := []; listening := true; resolved := None |}.

(** The function [listener]. *)
Definition listener {Ev} (count : Z) (event : Ev) (s : State Ev) : State Ev :=
  let outputEvents' := outputEvents s ++ [event] in
  if (Z.of_nat (length outputEvents') >=? count)%Z then
    {| outputEvents := outputEvents';
       listening := false;
       resolved := match resolved s with None => Some outputEvents' | settled => settled end |}
  else
    {| outputEvents := outputEvents'; listening := listening s; resolved := resolved s |}.

(** The client emits an [output] event: the listener runs if it is
    registered. *)
Definition emitOutput {Ev} (count : Z) (s : State Ev) (event : Ev) : State Ev :=
  if listening s then listener count event s else s.

Definition emitAll {Ev} (count : Z) (events : list Ev) : State Ev :=
  fold_left (emitOutput count) events collectOutputEvents.

(** The number of events the promise waits for. *)
Definition awaited (count : Z) : nat := Z.to_nat (Z.max 1 count).

End Collect.

(** *** [evaluateCloaked] *)

Module Cloak.

Definition apostrophe : Ascii.ascii := Ascii.ascii_of_nat 39.
Definition backslash : Ascii.ascii := Ascii.ascii_of_nat 92.

(** [js.replace("'", "\\'")]: a string pattern replaces its first
    occurrence only. *)
Fixpoint replaceApostrophe (js : string) : string :=
  match js with
  | EmptyString => EmptyString
  | String c rest =>
      if Ascii.eqb c apostrophe then String backslash (String apostrophe rest)
      else String c (replaceApostrophe rest)
  end.

(** The expression handed to [evaluateRequest]. *)
Definition evaluateCloaked (js : string) : string :=
  "eval('setTimeout(function() { " +:+ replaceApostrophe js +:+ " }, 0)')".

Fixpoint contains (c : Ascii.ascii) (s : string) : bool :=
  match s with
  | EmptyString => false
  | String c' rest => Ascii.eqb c' c || contains c rest
  end.

End Cloak.

(** *** [findVariable] *)

Module Find.

(** The fields of a [DebugProtocol.Variable] the tests read. *)
Record DapVariable := mkVariable { var_name : string; var_value : string }.

Fixpoint search (variables : list DapVariable) (varName : string) : option DapVariable :=
  match variables with
  | [] => None
  | v :: rest => if String.eqb (var_name v) varName then Some v else search rest varName
  end.

Definition findVariable (variables : list DapVariable) (varName : string) : Outcome DapVariable :=
  match search variables varName with
  | Some v => Done v
  | None => Threw ("Variable '" +:+ varName +:+ "' not found")
  end.

End Find.

End TestUtil.

(** ** The session: console messages and page errors *)

Module ConsoleOutput.
Import Handler FirefoxDebugProtocol.
Local Open Scope handler_scope.

(** The body of an [OutputEvent]; [source] is the DAP source of a source
    adapter, named by the adapter's id. *)
Record OutputBody := mkOutputBody {
  category : string;
  output : string;
  source : option nat;
  line : option N;
  column : option N;
  variablesReference : option nat
}.

(** [new OutputEvent(output, category)]; the category defaults to
    ['console']. *)
Definition newOutputEvent (output category : string) : OutputBody :=
  {| category := category; output := output; source := None; line := None;
     column := None; variablesReference := None |}.

Record PageError := mkPageError {
  errorMessage : string;
  error_category : string;
  exception : bool;
  sourceName : string;
  error_lineNumber : N;
  error_columnNumber : N
}.

Record Timer := mkTimer {
  timer_name : string;
  timer_duration : string;
  timer_error : option string
}.

(** A console API call; [timer_duration] above is the number as a
    template string renders it. *)
Record ConsoleMessage := mkConsoleMessage {
  level : string;
  timer : option Timer;
  arguments : list Grip;
  filename : string;
  lineNumber : N;
  columnNumber : N
}.

Record OriginalLocation := mkOriginalLocation {
  original_url : option string;
  original_line : option N;
  original_column : option N
}.

Inductive Logged :=
| ConsoleAPI (message : ConsoleMessage)
| PageErrorLogged (pageError : PageError).

Inductive Effect :=
| LogDebug (what : Logged)
| FindOriginalLocation (url : string) (line column : N)
| GetAdapterForUrl (url : string)
| NewConsoleAPICallAdapter (args : list (string * ObjectGrip)) (msg : string)
| SendEvent (ev : OutputBody).

(** The collaborators: the source-maps manager, the sources manager, the
    path mapper, [renderGrip] (adapter/preview.ts) and the id the
    variables provider of a new [ConsoleAPICallAdapter] is registered
    with. *)
Record Env := mkEnv {
  findOriginalLocation : string -> N -> N -> Outcome (option OriginalLocation);
  getAdapterForUrl : string -> Outcome (option nat);
  convertFirefoxUrlToPath : string -> option string;
  renderGrip : Grip -> string;
  variablesProviderId : list (string * ObjectGrip) -> nat
}.

Record Config := mkConfig { showConsoleCallLocation : bool }.

Definition H := M unit Effect.

Definition clearScreen : string := String (Ascii.ascii_of_nat 27) "[2J".

Definition newline : string := String (Ascii.ascii_of_nat 10) "".

(** [addLocation]: the event with the fields the function has set. *)
Definition addLocation (env : Env) (outputEvent : OutputBody)
    (url : string) (line column : N) : H OutputBody :=
  perform (FindOriginalLocation url line column) ;;;
  originalLocation <- await (findOriginalLocation env url line column) ;;
  match originalLocation with
  | Some location =>
      match original_url location with
      | Some originalUrl =>
          if JS.truthy_string originalUrl then
            perform (GetAdapterForUrl originalUrl) ;;;
            sourceAdapter <- await (getAdapterForUrl env originalUrl) ;;
            match sourceAdapter with
            | Some adapter =>
                ret {| category := category outputEvent;
                       output := output outputEvent;
                       source := Some adapter;
                       line := original_line location;
                       column := original_column location;
                       variablesReference := variablesReference outputEvent |}
            | None => ret outputEvent
            end
          else ret outputEvent
      | None => ret outputEvent
      end
  | None => ret outputEvent
  end.

(** The body of the loop of the [onErrorMessages] handler. *)
Definition onErrorMessage (env : Env) (pageError : PageError) : H unit :=
  perform (LogDebug (PageErrorLogged pageError)) ;;;
  if String.eqb (error_category pageError) "content javascript" then
    let category := if exception pageError then "stderr" else "stdout" in
    let outputEvent := newOutputEvent (errorMessage pageError +:+ newline) category in
    outputEvent <- addLocation env outputEvent (sourceName pageError)
                     (error_lineNumber pageError) (error_columnNumber pageError) ;;
    perform (SendEvent outputEvent)
  else ret tt.

(** The handler given to [targetActor.onErrorMessages]. *)
Fixpoint onErrorMessages (env : Env) (messages : list PageError) : H unit :=
  match messages with
  | [] => ret tt
  | pageError :: rest => onErrorMessage env pageError ;;; onErrorMessages env rest
  end.

Definition timerErrorIs (message : ConsoleMessage) (e : string) : bool :=
  match timer message with
  | Some t => bool_decide (timer_error t = Some e)
  | None => false
  end.

(** [!message.timer?.error] *)
Definition noTimerError (message : ConsoleMessage) : bool :=
  match timer message with
  | Some t => negb (JS.truthy_opt_string (timer_error t))
  | None => true
  end.

(** The callback of [message.arguments.map]: the preview of an argument
    and the variable adapter made for an object grip. *)
Definition preview (env : Env) (message : ConsoleMessage) (index : nat) (grip : Grip)
    : string * list (string * ObjectGrip) :=
  match timer message, index with
  | Some t, 0 =>
      let renderedTimer := timer_name t +:+ ": " +:+ timer_duration t +:+ "ms" in
      (if String.eqb (level message) "timeEnd"
       then renderedTimer +:+ " - timer ended" else renderedTimer, [])
  | _, _ =>
      (match grip with GripString s => s | _ => renderGrip env grip end,
       match grip with
       | GripObject o => [("arg" +:+ TestUtil.Port.toString (N.of_nat index), o)]
       | _ => []
       end)
  end.

Fixpoint previews (env : Env) (message : ConsoleMessage) (index : nat) (grips : list Grip)
    : list string * list (string * ObjectGrip) :=
  match grips with
  | [] => ([], [])
  | grip :: rest =>
      let '(p, a) := preview env message index grip in
      let '(ps, args) := previews env message (S index) rest in
      (p :: ps, a ++ args)
  end.

Definition sendConsoleMessage (env : Env) (config : Config) (message : ConsoleMessage)
    : H unit :=
  perform (LogDebug (ConsoleAPI message)) ;;;
  if String.eqb (level message) "clear" then
    perform (SendEvent (newOutputEvent clearScreen "console"))
  else if String.eqb (level message) "time" && noTimerError message then
    ret tt
  else
    let category :=
      if String.eqb (level message) "error" then "stderr"
      else if String.eqb (level message) "warn" then "console" else "stdout" in
    outputEvent <-
      (if String.eqb (level message) "time" && timerErrorIs message "timerAlreadyExists" then
         ret (newOutputEvent
                ("Timer “" +:+ from_option timer_name "" (timer message) +:+ "” already exists")
                "console")
       else if (String.eqb (level message) "timeLog" || String.eqb (level message) "timeEnd")
               && timerErrorIs message "timerDoesntExist" then
         ret (newOutputEvent
                ("Timer “" +:+ from_option timer_name "" (timer message) +:+ "” doesn't exist")
                "console")
       else
         let '(ps, args) := previews env message 0 (arguments message) in
         let msg := String.concat " " ps in
         let msg :=
           if showConsoleCallLocation config then
             msg +:+ " (" +:+ default "undefined" (convertFirefoxUrlToPath env (filename message))
               +:+ ":" +:+ TestUtil.Port.toString (lineNumber message)
               +:+ ":" +:+ TestUtil.Port.toString (columnNumber message) +:+ ")"
           else msg in
         let outputEvent := newOutputEvent (msg +:+ newline) category in
         if (0 <? length args)%nat then
           perform (NewConsoleAPICallAdapter args msg) ;;;
           ret {| category := category; output := msg +:+ newline; source := None;
                  line := None; column := None;
                  variablesReference := Some (variablesProviderId env args) |}
         else ret outputEvent) ;;
    outputEvent <- addLocation env outputEvent (filename message)
                     (lineNumber message) (columnNumber message) ;;
    perform (SendEvent outputEvent).

(** The handler given to [targetActor.onConsoleMessages]. *)
Fixpoint onConsoleMessages (env : Env) (config : Config) (messages : list ConsoleMessage)
    : H unit :=
  match messages with
  | [] => ret tt
  | message :: rest =>
      sendConsoleMessage env config message ;;; onConsoleMessages env config rest
  end.

(** The call starts a timer: Firefox shows nothing for it, and neither
    does the session. *)
Definition startsTimer (message : ConsoleMessage) : bool :=
  String.eqb (level message) "time" && noTimerError message.

(** The output events among a list of effects. *)
Definition sentEvents (effs : list Effect) : list OutputBody :=
  omap (fun e => match e with SendEvent ev => Some ev | _ => None end) effs.

(** What the editor shows for an output event: its category and text. *)
Definition shown (ev : OutputBody) : string * string := (category ev, output ev).

(** What the editor is to show for one console API call: nothing for the
    start of a timer, and else one category and text. *)
Definition reported (env : Env) (config : Config) (message : ConsoleMessage)
    : option (string * string) :=
  if String.eqb (level message) "clear" then Some ("console", clearScreen)
  else if startsTimer message then None
  else if String.eqb (level message) "time" && timerErrorIs message "timerAlreadyExists" then
    Some ("console",
          "Timer “" +:+ from_option timer_name "" (timer message) +:+ "” already exists")
  else if (String.eqb (level message) "timeLog" || String.eqb (level message) "timeEnd")
          && timerErrorIs message "timerDoesntExist" then
    Some ("console",
          "Timer “" +:+ from_option timer_name "" (timer message) +:+ "” doesn't exist")
  else
    let msg := String.concat " " (previews env message 0 (arguments message)).1 in
    Some (if String.eqb (level message) "error" then "stderr"
          else if String.eqb (level message) "warn" then "console" else "stdout",
          (if showConsoleCallLocation config then
             msg +:+ " (" +:+ default "undefined" (convertFirefoxUrlToPath env (filename message))
               +:+ ":" +:+ TestUtil.Port.toString (lineNumber message)
               +:+ ":" +:+ TestUtil.Port.toString (columnNumber message) +:+ ")"
           else msg) +:+ newline).

(** The lookups of [addLocation] do not fail. *)
Definition lookupsSucceed (env : Env) : Prop :=
  (forall url line column, exists location,
     findOriginalLocation env url line column = Done location)
  /\ (forall url, exists adapter, getAdapterForUrl env url = Done adapter).

End ConsoleOutput.

(** * Concrete inputs

    The inputs at which the properties below are evaluated. *)

Module Inputs.

Module Root.
Import RootActorProxy.

Definition oneTab : Tab := mkTab "server1.conn0.tab1" "Home" "http://localhost/".

Definition emptyTabs : Response := mkResponse None (Some []) None.

Definition someTabs : Response := mkResponse None (Some [oneTab]) None.

End Root.

Module Descriptor.
Import DescriptorActorProxy.

Definition tabDescriptor : Proxy := create "server1.conn0.tabDescriptor1".

Definition watcherResponse : GetWatcherResponse :=
  mkGetWatcherResponse "server1.conn0.watcher2" (mkWatcherTraits (Some true)).

(** An engine that answers every request with the same watcher form. *)
Definition answering : Server := fun _ => Fulfilled watcherResponse.

(** An engine that answers the first request with an error packet. *)
Definition failingOnce : Server :=
  fun n => match n with 0 => RejectedWith "unknownError" | _ => Fulfilled watcherResponse end.

End Descriptor.

Module Thread.
Import Handler FirefoxDebugProtocol ThreadStateHandler.

Definition mainThread : ThreadAdapter :=
  mkThreadAdapter 1 tab "Tab localhost/index.html" "server1.conn0.windowGlobalTarget3"
    "server1.conn0.thread4".

Definition scriptActor : string := "server1.conn0.source5".

Definition evalActor : string := "server1.conn0.source9".

Definition scriptPath : string := "/work/web/s.js".

Definition scriptSource : SourceAdapter :=
  mkSourceAdapter 1 (Some scriptPath) (Some "http://localhost/s.js") false None.

Definition skippedSource : SourceAdapter :=
  mkSourceAdapter 1 (Some scriptPath) (Some "http://localhost/s.js") true None.

Definition evalSource : SourceAdapter :=
  mkSourceAdapter 2 None None false (Some "debugger eval").

Definition atBreakpoint : Frame := mkFrame (mkLocation scriptActor 2 4).

Definition evalFrame : Frame := mkFrame (mkLocation evalActor 1 0).

(** A breakpoint realized at line 2, column 4 with a hit limit of 3. *)
Definition limited : BreakpointInfo :=
  mkBreakpointInfo 7 (Some (mkActualLocation 2 4)) (Some 3%Z) 0.

(** A breakpoint realized at the same place without a hit limit. *)
Definition unlimited : BreakpointInfo :=
  mkBreakpointInfo 6 (Some (mkActualLocation 2 4)) None 0.

Definition sessionWith (bps : list BreakpointInfo) : State :=
  {| breakpoints := {[ scriptPath := bps ]};
     variablesProviders := Registry.empty;
     threadPausedReason := None;
     pauseLifetimeObjects := [];
     pauseLifetimeVariables := [] |}.

Definition session : State := sessionWith [limited].

(** The script's source is known as [script]; the eval source is known;
    the stack, when fetched, is [stack]. *)
Definition collaborators (script : SourceAdapter) (stack : list FrameAdapter) : Env :=
  {| applySourceMapToFrame := fun frame => Done frame;
     getAdapterForActor := fun actor =>
       if String.eqb actor scriptActor then Done script
       else if String.eqb actor evalActor then Done evalSource
       else Threw "Couldn't find source adapter";
     fetchAllStackFrames := Done stack |}.

Definition env : Env := collaborators scriptSource [mkFrameAdapter atBreakpoint].

Definition pausedAt (why : option ThreadPausedReason) : ThreadState :=
  mkThreadState "paused" (Some atBreakpoint) why.

Definition breakpointHit : ThreadPausedReason := mkReason "breakpoint" (Some ["server1.conn0.breakpoint8"]) None.

Definition breakpointWithoutActors : ThreadPausedReason := mkReason "breakpoint" (Some []) None.

Definition debuggerStatement : ThreadPausedReason := mkReason "debuggerStatement" None None.

Definition errorGrip : Grip :=
  GripObject (mkObjectGrip "TypeError" "server1.conn0.obj12" (Some (mkPreview "Error" "x is undefined"))).

Definition exceptionThrown : ThreadPausedReason := mkReason "exception" None (Some errorGrip).

Definition resumed : ThreadState := mkThreadState "resumed" None None.

(** The session while paused: an object grip proxy is held and two
    variable references have been handed out. *)
Definition pausedSession : State :=
  let s := {| breakpoints := ∅;
              variablesProviders := Registry.empty;
              threadPausedReason := Some debuggerStatement;
              pauseLifetimeObjects := ["server1.conn0.obj12"];
              pauseLifetimeVariables := [] |} in
  let s := (issueVariablesReference "frame scope" s).2 in
  (issueVariablesReference "object" s).2.

End Thread.

Module Start.
Import Handler FirefoxDebugProtocol SessionStart.

(** Every awaited request succeeds; the add-ons actor is present. *)
Definition responsive : Env :=
  {| fetchRoot := Done (mkRootActors true);
     getProcess := Done tt;
     attachDescriptor := Done tt;
     sessionStarted := Done tt;
     watchResources := Done tt |}.

(** An engine that connects to web extensions but has no native logpoints. *)
Definition oldEngine : Traits := mkTraits true false false.

Definition modernEngine : Traits := mkTraits true true true.

Definition legacyEngine : Traits := mkTraits true true false.

End Start.

Module Stop.
Import Handler Shutdown.

Definition profileDir : string := "/tmp/vscode-firefox-debug-profile-1".

(** A launch configuration with one temporary profile directory, and the
    browser is to be terminated. *)
Definition terminating : Config :=
  {| terminate := true; launch := Some (mkLaunch [profileDir]); dirname := "/ext/dist" |}.

(** The session holds the child process it launched. *)
Definition holdingChild : State :=
  {| reloadWatcher := false; firefoxProc := true;
     firefoxDebugSocketClosed := false; addonsActor := true |}.

(** The session holds no child process and knows the add-ons actor. *)
Definition attachedOnly : State :=
  {| reloadWatcher := false; firefoxProc := false;
     firefoxDebugSocketClosed := false; addonsActor := true |}.

(** The session holds neither a child process nor the add-ons actor. *)
Definition noMeans : State :=
  {| reloadWatcher := false; firefoxProc := false;
     firefoxDebugSocketClosed := false; addonsActor := false |}.

(** The browser exits, and the socket closes, within the wait. *)
Definition browserExits : Env :=
  {| socketCloses := fun _ => true; installAddon := Done tt; removeAll := Done tt |}.

(** The browser keeps running. *)
Definition browserStays : Env :=
  {| socketCloses := fun _ => false; installAddon := Done tt; removeAll := Done tt |}.

End Stop.

Module Targets.
Import TargetLifecycle.

Definition shortenUrl : string -> string := fun url => url.

(** No add-on is debugged and every tab is included. *)
Definition anyTab : Config :=
  {| addonManager := None;
     tabFilter_include := [fun _ => true];
     tabFilter_exclude := [];
     clearConsoleOnReload := false;
     config_addon := false |}.

Definition tabDescriptor1 : string := "server1.conn0.tabDescriptor1".

Definition page : TargetActorProxy :=
  mkTargetActor "server1.conn0.windowGlobalTarget3"
    (mkTarget (Some "http://localhost/index.html") None false (Some "frame") None None).

Definition pageWorker : TargetActorProxy :=
  mkTargetActor "server1.conn0.workerTarget6"
    (mkTarget (Some "http://localhost/worker.js") None false (Some "worker") None (Some 7%Z)).

(** A tab is opened with a page and a worker; the page is destroyed (and
    its destruction is announced once more), then the tab is closed. *)
Definition tabOpenedAndClosed : list Input :=
  [DescriptorAttached tabDescriptor1 tabDescriptor false;
   TargetAvailable tabDescriptor1 page "server1.conn0.thread4" "server1.conn0.console5";
   TargetAvailable tabDescriptor1 pageWorker "server1.conn0.thread7" "server1.conn0.console8";
   TargetDestroyed tabDescriptor1 "server1.conn0.windowGlobalTarget3";
   TargetDestroyed tabDescriptor1 "server1.conn0.windowGlobalTarget3";
   DescriptorDestroyed tabDescriptor1].

(** A tab is opened with a page; the page's target is destroyed while the
    handler of its arrival waits for [attachThread]; the handler then goes
    on, and the tab is closed. *)
Definition pageGoneWhileAttaching : list Input :=
  [DescriptorAttached tabDescriptor1 tabDescriptor false;
   TargetAvailable tabDescriptor1 page "server1.conn0.thread4" "server1.conn0.console5";
   TargetDestroyed tabDescriptor1 "server1.conn0.windowGlobalTarget3";
   Continued 0;
   DescriptorDestroyed tabDescriptor1].

End Targets.

Module Pauses.
Import Handler FirefoxDebugProtocol ThreadStateHandler.

(** The sources manager knows no source at all. *)
Definition noSources : Env :=
  {| applySourceMapToFrame := fun frame => Done frame;
     getAdapterForActor := fun _ => Threw "Couldn't find source adapter";
     fetchAllStackFrames := Done [] |}.

End Pauses.

Module Attached.
Import TargetLifecycle Inputs.Targets.

(** The page of an extension other than the one being debugged. *)
Definition foreignExtensionPage : TargetActorProxy :=
  mkTargetActor "server1.conn0.windowGlobalTarget11"
    (mkTarget (Some "moz-extension://1234/popup.html") (Some "other@example.org") false
       (Some "frame") None None).

(** The session after the tab's descriptor has been attached. *)
Definition tabAttached : State :=
  (run shortenUrl anyTab [DescriptorAttached tabDescriptor1 tabDescriptor false] initial).1.

(** The page is reloaded on every navigation. *)
Definition clearing : Config :=
  {| addonManager := None;
     tabFilter_include := [fun _ => true];
     tabFilter_exclude := [];
     clearConsoleOnReload := true;
     config_addon := false |}.

End Attached.

Module Leaving.
Import Handler Shutdown.

(** A launch configuration with a temporary profile directory; the
    browser is not to be terminated. *)
Definition staying : Config :=
  {| terminate := false; launch := Some (mkLaunch [Stop.profileDir]); dirname := "/ext/dist" |}.

(** The session holds the child it launched and watches for reloads. *)
Definition watchedChild : State :=
  {| reloadWatcher := true; firefoxProc := true;
     firefoxDebugSocketClosed := false; addonsActor := true |}.

(** The add-ons actor rejects the installation. *)
Definition refusingAddons : Env :=
  {| socketCloses := fun _ => false; installAddon := Threw "installAddon failed";
     removeAll := Done tt |}.

End Leaving.

Module Starting.
Import Handler FirefoxDebugProtocol SessionStart.

(** The root actor does not answer [getRoot]. *)
Definition rootUnreachable : Env :=
  {| fetchRoot := Threw "connection closed";
     getProcess := Done tt;
     attachDescriptor := Done tt;
     sessionStarted := Done tt;
     watchResources := Done tt |}.

(** The root actor answers but lists no add-ons actor. *)
Definition noAddons : Env :=
  {| fetchRoot := Done (mkRootActors false);
     getProcess := Done tt;
     attachDescriptor := Done tt;
     sessionStarted := Done tt;
     watchResources := Done tt |}.

End Starting.

Module ThreadPackets.
Import ThreadActorProxy.

Definition thread : ThreadActor := create "conn0.thread3".

(** The reply of the thread actor to a [sources] request. *)
Definition sourcesReply : Response :=
  {| type_ := None; error := None; why := None; actualLocation := None;
     sources := Some "[{ url: 'http://localhost/s.js' }]"; frames := None |}.

End ThreadPackets.

Module Connecting.
Import Handler ConnectToFirefox.

(** Attach to port 6000 and, failing that, launch a detached browser. *)
Definition attachOrLaunch : Config :=
  {| attach := Some (mkAttach 6000%N "localhost" true);
     launch := Some (mkLaunch 6000%N 2000%N true) |}.

Definition fresh : State :=
  {| reloadTabs := false; firefoxProc := None; firefoxClosedPromise := None |}.

(** Nothing listens on the port; the browser is launched as process 41
    and its socket is 7. *)
Definition notRunning : Env :=
  {| connect := Threw "ECONNREFUSED"; launchFirefox := Done (Some 41);
     waitForSocket := Done 7 |}.

End Connecting.

Module Ports.
Import Handler TestUtil.Port.

(** The port is occupied at the first two probes and free afterwards. *)
Definition freedSoon : Env :=
  {| probe := fun n => Done (n <? 2)%nat |}.

End Ports.

Module Console.
Import Handler FirefoxDebugProtocol ConsoleOutput.

(** No source map applies and no source adapter is known. *)
Definition unmapped : Env :=
  {| findOriginalLocation := fun _ _ _ => Done None;
     getAdapterForUrl := fun _ => Done None;
     convertFirefoxUrlToPath := fun _ => None;
     renderGrip := fun _ => "...";
     variablesProviderId := fun _ => 1%nat |}.

Definition typeError : PageError :=
  mkPageError "TypeError: x is undefined" "content javascript" true
    "http://localhost/s.js" 3 7.

Definition cssWarning : PageError :=
  mkPageError "Unknown property" "CSS Parser" false "http://localhost/s.css" 1 1.

Definition timerStart : ConsoleMessage :=
  mkConsoleMessage "time" (Some (mkTimer "t" "0" None)) [GripString "t"]
    "http://localhost/s.js" 1 1.

Definition errorCall : ConsoleMessage :=
  mkConsoleMessage "error" None [GripString "failed"] "http://localhost/s.js" 2 1.

Definition warning : ConsoleMessage :=
  mkConsoleMessage "warn" None [GripString "careful"] "http://localhost/s.js" 5 3.

End Console.

End Inputs.

(** * Properties *)

(** ** The Root actor proxy: resolved tab lists *)

Section RootActorProxyFacts.
Import JS RootActorProxy Inputs.Root.

Lemma Map_set_nonempty {V} (k : string) (v : V) (m : Map V) : Map_set k v m ≠ [].
Proof.
  destruct m as [|[k' v'] m']; simpl; [discriminate|].
  destruct (String.eqb k k'); discriminate.
Qed.

Lemma addTab_nonempty known acc tab : (addTab known acc tab).1 ≠ [].
Proof.
  destruct acc as [currentTabs effs]. unfold addTab.
  destruct (Map_get (tab_actor tab) known); simpl; apply Map_set_nonempty.
Qed.

Lemma addTab_effects known acc tab :
  Forall resolvesNonEmpty acc.2 → Forall resolvesNonEmpty (addTab known acc tab).2.
Proof.
  destruct acc as [currentTabs effs]. unfold addTab. intros Hacc.
  destruct (Map_get (tab_actor tab) known); simpl; [exact Hacc|].
  apply Forall_app; split; [exact Hacc|].
  repeat constructor; intros m Hm; discriminate Hm.
Qed.

Lemma fold_addTab_effects known tabs acc :
  Forall resolvesNonEmpty acc.2 →
  Forall resolvesNonEmpty (fold_left (addTab known) tabs acc).2.
Proof.
  revert acc. induction tabs as [|tab tabs IH]; intros acc Hacc; simpl; [exact Hacc|].
  apply IH, addTab_effects, Hacc.
Qed.

Lemma fold_addTab_nonempty known tabs acc :
  tabs ≠ [] ∨ acc.1 ≠ [] → (fold_left (addTab known) tabs acc).1 ≠ [].
Proof.
  revert acc. induction tabs as [|tab tabs IH]; intros acc H; simpl.
  - destruct H as [H|H]; [congruence|exact H].
  - apply IH. right. apply addTab_nonempty.
Qed.

Lemma closedTabs_effects known currentTabs :
  Forall resolvesNonEmpty (closedTabs known currentTabs).
Proof.
  unfold closedTabs. induction known as [|[k tabActor] known IH]; simpl; [constructor|].
  apply Forall_app; split; [|exact IH].
  destruct (Map_has (tabproxy_name tabActor) currentTabs);
    repeat constructor; intros m Hm; discriminate Hm.
Qed.

Lemma resolveOne_effects (m : Map TabActorProxy) q :
  m ≠ [] → Forall resolvesNonEmpty (map Settle (PendingRequests.resolveOne m q).2).
Proof.
  intros Hm. destruct q as [|request rest]; simpl; repeat constructor.
  - intros m' Hm'; discriminate Hm'.
  - intros m' Hm'. simpl in Hm'. congruence.
Qed.

Lemma receiveResponse_effects response st :
  Forall resolvesNonEmpty (receiveResponse response st).2.
Proof.
  unfold receiveResponse.
  destruct (truthy_opt_string (applicationType response)).
  { repeat constructor; intros m Hm; discriminate Hm. }
  destruct (tabs response) as [tabsResponse|].
  - destruct (length tabsResponse =? 0)%nat eqn:Hlen.
    { repeat constructor; intros m Hm; discriminate Hm. }
    pose proof (fold_addTab_effects (root_tabs st) tabsResponse ([], [])) as Hopened.
    pose proof (fold_addTab_nonempty (root_tabs st) tabsResponse ([], [])) as Hne.
    destruct (fold_left (addTab (root_tabs st)) tabsResponse ([], []))
      as [currentTabs opened].
    simpl in Hopened, Hne.
    assert (currentTabs ≠ []) as Hcur.
    { apply Hne. left. intros ->. discriminate Hlen. }
    pose proof (resolveOne_effects currentTabs (pendingTabsRequests st) Hcur) as Hsettled.
    destruct (PendingRequests.resolveOne currentTabs (pendingTabsRequests st))
      as [pending settled].
    simpl in *. constructor.
    { intros m Hm; discriminate Hm. }
    apply Forall_app; split; [apply Hopened; constructor|].
    apply Forall_app; split; [apply closedTabs_effects|exact Hsettled].
  - destruct (bool_decide (type_ response = Some "tabListChanged"));
      repeat constructor; intros m Hm; discriminate Hm.
Qed.

Lemma step_effects st op : Forall resolvesNonEmpty (step st op).2.
Proof.
  destruct op as [|response]; simpl.
  - repeat constructor; intros m Hm; discriminate Hm.
  - apply receiveResponse_effects.
Qed.

Lemma run_effects ops st : Forall resolvesNonEmpty (run st ops).2.
Proof.
  revert st. induction ops as [|op ops IH]; intros st; simpl; [constructor|].
  pose proof (step_effects st op) as Hstep.
  destruct (step st op) as [st1 e1].
  specialize (IH st1). destruct (run st1 ops) as [st2 e2].
  simpl in *. apply Forall_app; split; assumption.
Qed.

(** C10: whatever the callers and the root actor do, a [fetchTabs] promise
    is only ever resolved with a non-empty tab map; a tabs response that
    carries zero tabs leaves the proxy (and its pending requests) as it was,
    resolves nothing, and schedules a new [listTabs] request after 100 ms. *)
Theorem fetchTabs_resolves_with_tabs (ops : list Op) (st : RootActor) :
  (∀ e m, e ∈ (run st ops).2 → resolvedWith e = Some m → Map_size m ≠ 0)
  ∧ (∀ response,
       truthy_opt_string (applicationType response) = false →
       tabs response = Some [] →
       receiveResponse response st
       = (st, [LogInfo ReceivedZeroTabs; SetTimeout 100 listTabs])).
Proof.
  split.
  - intros e m He Hm.
    pose proof (run_effects ops st) as Hall.
    rewrite Forall_forall in Hall.
    specialize (Hall e He m Hm).
    destruct m; [congruence|discriminate].
  - intros response Happ Htabs. unfold receiveResponse.
    rewrite Happ, Htabs. reflexivity.
Qed.

Lemma fetchTabs_resolves_with_tabs_witness :
  receiveResponse emptyTabs (run init [OpFetchTabs]).1
  = ((run init [OpFetchTabs]).1, [LogInfo ReceivedZeroTabs; SetTimeout 100 listTabs])
  ∧ Settle (PendingRequests.Resolved 0
              [("server1.conn0.tab1",
                mkTabActorProxy "server1.conn0.tab1" "Home" "http://localhost/")])
    ∈ (run init [OpFetchTabs; OpReceive emptyTabs; OpReceive someTabs]).2.
Proof.
  split.
  - apply (proj2 (fetchTabs_resolves_with_tabs [] (run init [OpFetchTabs]).1));
      reflexivity.
  - vm_compute. set_solver.
Defined.

End RootActorProxyFacts.

(** ** The descriptor proxy: the cached [getWatcher] request *)

Section DescriptorActorProxyFacts.
Import DescriptorActorProxy Inputs.Descriptor.

Lemma sendCachedRequest_hit server key request convert p cached :
  cachedRequests p !! key = Some cached →
  sendCachedRequest server key request convert p = (p, Fulfilled cached).
Proof. intros H. unfold sendCachedRequest. rewrite H. reflexivity. Qed.

Lemma getWatcher_memoizes server p p1 w :
  getWatcher server p = (p1, Fulfilled w) →
  cachedRequests p1 !! "getWatcher" = Some w.
Proof.
  unfold getWatcher, sendCachedRequest.
  destruct (cachedRequests p !! "getWatcher") as [cached|] eqn:Hcache.
  - intros [= <- <-]. exact Hcache.
  - unfold sendRequest.
    destruct (server (length (wire p))) as [response|err]; simpl; [|discriminate].
    intros [= <- <-]. simpl. apply lookup_insert_eq.
Qed.

Lemma getWatcher_wire server p p1 r :
  getWatcher server p = (p1, r) →
  (is_Some (cachedRequests p !! "getWatcher") → wire p1 = wire p)
  ∧ (length (wire p1) ≤ S (length (wire p)))%nat.
Proof.
  unfold getWatcher, sendCachedRequest.
  destruct (cachedRequests p !! "getWatcher") as [cached|] eqn:Hcache.
  - intros [= <- <-]. split; [reflexivity|lia].
  - unfold sendRequest.
    destruct (server (length (wire p))) as [response|err]; simpl;
      intros [= <- <-]; simpl;
      (split; [intros [? [=]]|rewrite length_app; simpl; lia]).
Qed.

(** C9: when [getWatcher] has yielded a watcher proxy, invoking it again on
    the same descriptor proxy (whatever the engine would answer now) yields
    the very same [WatcherActorProxy] object and leaves the proxy, and so
    the packets written, untouched; the two invocations together have
    written at most one request, and none at all when a successful response
    was already cached. *)
Theorem getWatcher_twice (server server' : Server) (p p1 : Proxy) (w : WatcherActorProxy) :
  getWatcher server p = (p1, Fulfilled w) →
  getWatcher server' p1 = (p1, Fulfilled w)
  ∧ wire (getWatcher server' p1).1 = wire p1
  ∧ (length (wire (getWatcher server' p1).1) ≤ S (length (wire p)))%nat
  ∧ (is_Some (cachedRequests p !! "getWatcher") →
     wire (getWatcher server' p1).1 = wire p).
Proof.
  intros Hfirst.
  pose proof (getWatcher_memoizes _ _ _ _ Hfirst) as Hmemo.
  pose proof (getWatcher_wire _ _ _ _ Hfirst) as [Hhit Hlen].
  assert (getWatcher server' p1 = (p1, Fulfilled w)) as Hsecond.
  { unfold getWatcher. apply sendCachedRequest_hit, Hmemo. }
  rewrite Hsecond. simpl. repeat split; auto.
Qed.

Lemma getWatcher_twice_witness :
  let first := getWatcher answering tabDescriptor in
  first.2 = Fulfilled (mkWatcher 0 "server1.conn0.watcher2" true)
  ∧ getWatcher failingOnce first.1 = (first.1, first.2)
  ∧ length (wire (getWatcher failingOnce first.1).1) = 1%nat.
Proof.
  pose proof (getWatcher_twice answering failingOnce tabDescriptor
                (getWatcher answering tabDescriptor).1
                (mkWatcher 0 "server1.conn0.watcher2" true) eq_refl)
    as (Hsame & _ & _ & _).
  split; [reflexivity|]. split; [exact Hsame|reflexivity].
Defined.

End DescriptorActorProxyFacts.

(** ** The thread-state handler *)

Section ThreadStateFacts.
Import Handler FirefoxDebugProtocol ThreadStateHandler Inputs.Thread.

Ltac unfold_handler :=
  unfold onThreadState, onPaused, sourceGates, debuggerEvalGate, hitCountGate,
    sendStoppedEvent, effects, trace, finalState, outcome,
    tryCatch, bind, ret, perform, get, modify, await, throw.

Lemma disposeAll_run actors (s : State) :
  disposeAll actors s = (s, map (fun a => (DisposeProxy a, s)) actors, Done tt).
Proof.
  induction actors as [|a actors IH]; [reflexivity|].
  simpl. unfold bind, perform. rewrite IH. reflexivity.
Qed.

Lemma onResumed_run thread (s : State) :
  onResumed thread s
  = (clearPauseLifetime s,
     (Log info ("Thread " +:+ thread_actor thread +:+ " resumed"), s)
       :: map (fun a => (DisposeProxy a, s)) (pauseLifetimeObjects s)
       ++ [(SendEvent (DAP.ContinuedEvent (thread_id thread)), clearPauseLifetime s)],
     Done tt).
Proof.
  unfold onResumed, disposePauseLifetimeAdapters, bind, perform, get, modify.
  rewrite disposeAll_run. simpl. rewrite app_nil_r. reflexivity.
Qed.

Lemma stoppedEvents_app l1 l2 :
  stoppedEvents (l1 ++ l2) = stoppedEvents l1 ++ stoppedEvents l2.
Proof. unfold stoppedEvents. apply omap_app. Qed.

Lemma stoppedEvents_dispose (s : State) actors :
  stoppedEvents (map fst (map (fun a => (DisposeProxy a, s)) actors)) = [].
Proof. induction actors as [|a actors IH]; [reflexivity|]. simpl. exact IH. Qed.

(** A run of the handler sends at most one stopped event, and that one is
    built by [sendStoppedEvent] from the event's reason. *)
Lemma onThreadState_stopped env thread event (s : State) :
  stoppedEvents (effects (onThreadState env thread event s)) = []
  ∨ stoppedEvents (effects (onThreadState env thread event s))
    = [stoppedEventFor thread (ts_why event)].
Proof.
  unfold_handler.
  repeat (case_match; simplify_eq; simpl in * );
    try rewrite onResumed_run in *; simplify_eq; simpl;
    try rewrite map_app; try rewrite stoppedEvents_app;
    try rewrite stoppedEvents_dispose; simpl; auto.
Qed.

Lemma stoppedEventFor_reason thread reason :
  DAP.stopped_reason (stoppedEventFor thread reason)
  = match reason with Some r => reason_type r | None => "interrupt" end
  ∧ DAP.stopped_threadId (stoppedEventFor thread reason) = thread_id thread
  ∧ DAP.allThreadsStopped (stoppedEventFor thread reason) = Some false.
Proof.
  unfold stoppedEventFor.
  repeat (case_match; simpl); auto.
Qed.

(** C5, as the code has it: every stopped event the thread-state handler
    sends has [allThreadsStopped = false], carries the thread's id, and its
    reason is the engine's reason type unchanged (so ["exception"],
    ["breakpoint"] and ["debuggerStatement"] for these three), or
    ["interrupt"] when the event gives no reason.  Its text is the
    exception when that is a non-empty string; for an object grip it is
    [class: message] when the preview is an error preview and the class
    otherwise; without an exception there is no text. *)
Theorem stopped_event_classification env thread event (s : State) body :
  body ∈ stoppedEvents (effects (onThreadState env thread event s)) →
  DAP.allThreadsStopped body = Some false
  ∧ DAP.stopped_threadId body = thread_id thread
  ∧ DAP.stopped_reason body
    = match ts_why event with Some why => reason_type why | None => "interrupt" end
  ∧ (∀ why t, ts_why event = Some why → reason_type why = t →
       t ∈ ["exception"; "breakpoint"; "debuggerStatement"] →
       DAP.stopped_reason body = t)
  ∧ (∀ why text, ts_why event = Some why →
       reason_exception why = Some (GripString text) → text ≠ "" →
       DAP.stopped_text body = Some text)
  ∧ (∀ why grip preview, ts_why event = Some why →
       reason_exception why = Some (GripObject grip) →
       grip_preview grip = Some preview → preview_kind preview = "Error" →
       DAP.stopped_text body
       = Some (grip_class grip +:+ ": " +:+ preview_message preview))
  ∧ (∀ why grip, ts_why event = Some why →
       reason_exception why = Some (GripObject grip) →
       (∀ preview, grip_preview grip = Some preview → preview_kind preview ≠ "Error") →
       DAP.stopped_text body = Some (grip_class grip))
  ∧ ((∀ why, ts_why event = Some why → reason_exception why = None) →
     DAP.stopped_text body = None).
Proof.
  intros Hbody.
  assert (body = stoppedEventFor thread (ts_why event)) as ->.
  { destruct (onThreadState_stopped env thread event s) as [H|H];
      rewrite H in Hbody.
    - inversion Hbody.
    - apply list_elem_of_singleton in Hbody. exact Hbody. }
  destruct (stoppedEventFor_reason thread (ts_why event)) as (Hreason & Hid & Hall).
  split; [exact Hall|]. split; [exact Hid|]. split; [exact Hreason|].
  split; [|split; [|split; [|split]]].
  - intros why t Hwhy Ht _. rewrite Hreason, Hwhy. exact Ht.
  - intros why text Hwhy Hexc Hne. unfold stoppedEventFor. rewrite Hwhy, Hexc. simpl.
    unfold JS.truthy_string. destruct (String.eqb_spec text ""); [contradiction|reflexivity].
  - intros why grip preview Hwhy Hexc Hpreview Hkind.
    unfold stoppedEventFor. rewrite Hwhy, Hexc. simpl. rewrite Hpreview, Hkind. reflexivity.
  - intros why grip Hwhy Hexc Hpreview.
    unfold stoppedEventFor. rewrite Hwhy, Hexc. simpl.
    destruct (grip_preview grip) as [preview|]; [|reflexivity].
    destruct (String.eqb_spec (preview_kind preview) "Error") as [Hk|Hk]; [|reflexivity].
    exfalso. exact (Hpreview preview eq_refl Hk).
  - intros Hnone. unfold stoppedEventFor.
    destruct (ts_why event) as [why|]; [|reflexivity].
    rewrite (Hnone why eq_refl). reflexivity.
Qed.

Lemma stopped_event_classification_witness :
  let body := DAP.mkStoppedBody "exception" 1 (Some "TypeError: x is undefined") (Some false) in
  body ∈ stoppedEvents (effects (onThreadState env mainThread (pausedAt (Some exceptionThrown)) session))
  ∧ DAP.allThreadsStopped body = Some false
  ∧ DAP.stopped_reason body = "exception".
Proof.
  assert (DAP.mkStoppedBody "exception" 1 (Some "TypeError: x is undefined") (Some false)
          ∈ stoppedEvents (effects (onThreadState env mainThread
                                      (pausedAt (Some exceptionThrown)) session))) as Hin.
  { vm_compute. apply list_elem_of_here. }
  pose proof (stopped_event_classification env mainThread (pausedAt (Some exceptionThrown))
                session _ Hin) as (Hall & _ & Hreason & _).
  split; [exact Hin|]. split; [exact Hall|exact Hreason].
Defined.

(** C5, as the claim states it, fails: the pause at a [debugger] statement
    is surfaced with the reason ["debuggerStatement"], not
    ["debugger statement"]. *)
Lemma stopped_event_debugger_statement :
  stoppedEvents (effects (onThreadState env mainThread (pausedAt (Some debuggerStatement)) session))
  = [DAP.mkStoppedBody "debuggerStatement" 1 None (Some false)]
  ∧ "debuggerStatement" ≠ "debugger statement".
Proof. split; [vm_compute; reflexivity|discriminate]. Qed.

(** C2: when the source adapter of the pausing frame (the frame as the
    source maps leave it) is blackboxed, the handler resumes the thread and
    does nothing else: no stopped event is sent and the session is left as
    it was. *)
Theorem blackboxed_pause_is_resumed env thread event frame mapped sourceAdapter (s : State) :
  ts_state event = "paused" →
  ts_frame event = Some frame →
  applySourceMapToFrame env frame = Done mapped →
  getAdapterForActor env (loc_actor (frame_where mapped)) = Done sourceAdapter →
  isBlackBoxed sourceAdapter = true →
  effects (onThreadState env thread event s) = [ThreadResume (thread_id thread)]
  ∧ stoppedEvents (effects (onThreadState env thread event s)) = []
  ∧ finalState (onThreadState env thread event s) = s
  ∧ outcome (onThreadState env thread event s) = Done tt.
Proof.
  intros Hstate Hframe Hmapped Hadapter Hblack.
  unfold_handler. rewrite Hstate, Hframe. simpl. rewrite Hmapped. simpl.
  rewrite Hadapter, Hblack. simpl.
  repeat split.
Qed.

Lemma blackboxed_pause_is_resumed_witness :
  effects (onThreadState (collaborators skippedSource []) mainThread
             (pausedAt (Some exceptionThrown)) session)
  = [ThreadResume 1].
Proof.
  apply (blackboxed_pause_is_resumed (collaborators skippedSource []) mainThread
           (pausedAt (Some exceptionThrown)) atBreakpoint atBreakpoint skippedSource session);
    reflexivity.
Defined.

(** C4: when the pause is an exception and the source of the last frame of
    the fetched stack was introduced by debugger eval, the handler resumes
    the thread (once) and sends no stopped event; the recorded pause reason
    stays as it was. *)
Theorem debugger_eval_exception_is_resumed
    env thread event frame mapped frames startFrame sourceAdapter (s : State) :
  ts_state event = "paused" →
  ts_frame event = Some frame →
  applySourceMapToFrame env frame = Done mapped →
  whyTypeIs event "exception" = true →
  fetchAllStackFrames env = Done frames →
  last frames = Some startFrame →
  getAdapterForActor env (loc_actor (frame_where (fa_frame startFrame))) = Done sourceAdapter →
  introductionType sourceAdapter = Some "debugger eval" →
  resumes (effects (onThreadState env thread event s)) = [thread_id thread]
  ∧ stoppedEvents (effects (onThreadState env thread event s)) = []
  ∧ threadPausedReason (finalState (onThreadState env thread event s)) = threadPausedReason s
  ∧ outcome (onThreadState env thread event s) = Done tt.
Proof.
  intros Hstate Hframe Hmapped Hexc Hstack Hlast Hadapter Hintro.
  assert (whyTypeIs event "breakpoint" = false) as Hbp.
  { unfold whyTypeIs in *. destruct (ts_why event) as [why|]; [|reflexivity].
    apply String.eqb_eq in Hexc. rewrite Hexc. reflexivity. }
  unfold_handler. rewrite Hstate, Hframe, Hexc, Hbp. simpl. rewrite Hmapped. simpl.
  rewrite Hstack, Hlast, Hadapter, Hintro. simpl.
  destruct (getAdapterForActor env (loc_actor (frame_where mapped)))
    as [first|err]; simpl.
  - destruct (isBlackBoxed first); simpl; repeat split.
  - repeat split.
Qed.

Lemma debugger_eval_exception_is_resumed_witness :
  effects (onThreadState (collaborators scriptSource [mkFrameAdapter atBreakpoint; mkFrameAdapter evalFrame])
             mainThread (pausedAt (Some exceptionThrown)) session)
  = [FetchAllStackFrames 1; ThreadResume 1]
  ∧ stoppedEvents (effects (onThreadState
       (collaborators scriptSource [mkFrameAdapter atBreakpoint; mkFrameAdapter evalFrame])
       mainThread (pausedAt (Some exceptionThrown)) session)) = [].
Proof.
  split; [reflexivity|].
  apply (debugger_eval_exception_is_resumed
           (collaborators scriptSource [mkFrameAdapter atBreakpoint; mkFrameAdapter evalFrame])
           mainThread (pausedAt (Some exceptionThrown)) atBreakpoint atBreakpoint
           [mkFrameAdapter atBreakpoint; mkFrameAdapter evalFrame]
           (mkFrameAdapter evalFrame) evalSource session);
    reflexivity.
Defined.


(** *** Resuming *)

Lemma unregister_all_find {T} ids id (r : Registry.t T) :
  id ∈ ids → Registry.find id (fold_right Registry.unregister r ids) = None.
Proof.
  induction ids as [|id' ids IH]; intros Hin; [inversion Hin|].
  simpl. unfold Registry.find, Registry.unregister. simpl.
  destruct (decide (id' = id)) as [->|Hne].
  - apply lookup_delete_eq.
  - rewrite lookup_delete_ne by exact Hne.
    apply IH. apply elem_of_cons in Hin as [Heq|Hin]; [congruence|exact Hin].
Qed.

(** C3: on a resumed event the continued event is the last effect of the
    handler.  Everything before it is the log line and the disposal of
    every pause-lifetime proxy of the thread, no event reaches the editor
    before it, and the state in which it is sent holds no pause-lifetime
    proxy and finds none of the variable references issued under the
    pause. *)
Theorem resumed_disposes_before_continued env thread event (s : State) :
  ts_state event = "resumed" →
  ∃ before,
    trace (onThreadState env thread event s)
    = before ++ [(SendEvent (DAP.ContinuedEvent (thread_id thread)),
                  finalState (onThreadState env thread event s))]
    ∧ (∀ actor, actor ∈ pauseLifetimeObjects s → DisposeProxy actor ∈ map fst before)
    ∧ (∀ e ev, e ∈ map fst before → e ≠ SendEvent ev)
    ∧ pauseLifetimeObjects (finalState (onThreadState env thread event s)) = []
    ∧ pauseLifetimeVariables (finalState (onThreadState env thread event s)) = []
    ∧ (∀ id, id ∈ pauseLifetimeVariables s →
         queryable id (finalState (onThreadState env thread event s)) = false).
Proof.
  intros Hstate.
  assert (onThreadState env thread event s = onResumed thread s) as ->.
  { unfold onThreadState, bind, ret. rewrite Hstate. simpl.
    destruct (onResumed thread s) as [[s' t] r]. reflexivity. }
  rewrite onResumed_run. unfold trace, finalState. simpl.
  exists ((Log info ("Thread " +:+ thread_actor thread +:+ " resumed"), s)
            :: map (fun a => (DisposeProxy a, s)) (pauseLifetimeObjects s)).
  split; [reflexivity|]. split; [|split; [|split; [|split]]].
  - intros actor Hin. simpl. apply list_elem_of_further.
    rewrite map_map. simpl. apply list_elem_of_In, in_map_iff.
    exists actor. split; [reflexivity|]. apply list_elem_of_In, Hin.
  - intros e ev Hin. simpl in Hin. apply elem_of_cons in Hin as [->|Hin]; [discriminate|].
    rewrite map_map in Hin. simpl in Hin.
    apply list_elem_of_In, in_map_iff in Hin as (a & <- & _). discriminate.
  - reflexivity.
  - reflexivity.
  - intros id Hin. unfold queryable. simpl.
    rewrite (unregister_all_find _ _ _ Hin).
    apply bool_decide_eq_false. intros [x Hx]. discriminate Hx.
Qed.

Lemma resumed_disposes_before_continued_witness :
  queryable 1 pausedSession = true
  ∧ queryable 2 pausedSession = true
  ∧ effects (onThreadState env mainThread resumed pausedSession)
    = [Log info "Thread server1.conn0.thread4 resumed";
       DisposeProxy "server1.conn0.obj12";
       SendEvent (DAP.ContinuedEvent 1)]
  ∧ queryable 1 (finalState (onThreadState env mainThread resumed pausedSession)) = false
  ∧ queryable 2 (finalState (onThreadState env mainThread resumed pausedSession)) = false.
Proof.
  destruct (resumed_disposes_before_continued env mainThread resumed pausedSession eq_refl)
    as (before & _ & _ & _ & _ & _ & Hgone).
  split; [reflexivity|]. split; [reflexivity|]. split; [reflexivity|].
  split; apply Hgone; vm_compute; set_solver.
Defined.

(** A reference that is not queryable and that the registry has already
    handed out stays unqueryable whatever is registered later: ids are not
    reused. *)
Lemma unqueryable_forever providers : ∀ (s : State) id,
  queryable id s = false →
  (id < Registry.nextId (variablesProviders s))%nat →
  queryable id (issueAll providers s) = false.
Proof.
  induction providers as [|provider providers IH]; intros s id Hq Hlt; [exact Hq|].
  simpl. apply IH.
  - unfold queryable, issueVariablesReference, Registry.find in *. simpl.
    apply bool_decide_eq_false. apply bool_decide_eq_false in Hq.
    rewrite lookup_insert_ne by lia. exact Hq.
  - unfold issueVariablesReference. simpl. lia.
Qed.

(** The references issued under a pause stay invalid after the resumed
    event, also when later pauses register new variables providers. *)
Lemma disposed_references_stay_invalid env thread event (s : State) providers id :
  ts_state event = "resumed" →
  issuedByRegistry s →
  id ∈ pauseLifetimeVariables s →
  queryable id (issueAll providers (finalState (onThreadState env thread event s))) = false.
Proof.
  intros Hstate Hissued Hin.
  assert (onThreadState env thread event s = onResumed thread s) as ->.
  { unfold onThreadState, bind, ret. rewrite Hstate. simpl.
    destruct (onResumed thread s) as [[s' t] r]. reflexivity. }
  rewrite onResumed_run. unfold finalState. simpl.
  apply unqueryable_forever.
  { unfold queryable. simpl. rewrite (unregister_all_find _ _ _ Hin).
    apply bool_decide_eq_false. intros [x Hx]. discriminate Hx. }
  simpl.
  assert (∀ ids (r : Registry.t string),
            Registry.nextId (fold_right Registry.unregister r ids) = Registry.nextId r) as Hnext.
  { induction ids as [|i ids IHids]; intros r; [reflexivity|]. simpl. apply IHids. }
  rewrite Hnext. exact (Hissued id Hin).
Qed.

(** *** The hit-count gate *)

Lemma findFrom_alter {A} (f : A → bool) (g : A → A) l j i x :
  (∀ y, f (g y) = f y) →
  findFrom f j l = Some (i, x) →
  findFrom f j (alter g (i - j) l) = Some (i, g x) ∧ (j ≤ i)%nat.
Proof.
  intros Hfg. revert j. induction l as [|y l IH]; intros j Hfind; [discriminate|].
  simpl in Hfind. destruct (f y) eqn:Hy.
  - injection Hfind as <- <-. rewrite Nat.sub_diag. simpl. rewrite Hfg, Hy. auto.
  - destruct (IH (S j) Hfind) as [Hrec Hle].
    replace (i - j) with (S (i - S j)) by lia.
    simpl. rewrite Hy. split; [exact Hrec|lia].
Qed.

Lemma findBreakpoint_hit path loc i bp (s : State) :
  findBreakpoint path loc s = Some (i, bp) →
  findBreakpoint path loc (hit path i s) = Some (i, incrementHitCount bp).
Proof.
  unfold findBreakpoint, hit. simpl. intros Hfind.
  rewrite lookup_alter_eq.
  destruct (breakpoints s !! path) as [bps|]; [|discriminate]. simpl in *.
  unfold find in *.
  destruct (findFrom_alter (atLocation loc) incrementHitCount bps 0 i bp) as [H _];
    [reflexivity|exact Hfind|].
  rewrite Nat.sub_0_r in H. exact H.
Qed.

Section OneBreakpoint.
Variables (env : Env) (thread : ThreadAdapter) (event : ThreadState).
Variables (frame mapped : Frame) (sourceAdapter : SourceAdapter) (path : string).
Variables (i : nat) (limit : Z).

Let sourceLocation := frame_where mapped.

Hypothesis Hstate : ts_state event = "paused".
Hypothesis Hframe : ts_frame event = Some frame.
Hypothesis Hmapped : applySourceMapToFrame env frame = Done mapped.
Hypothesis Hadapter : getAdapterForActor env (loc_actor sourceLocation) = Done sourceAdapter.
Hypothesis Hblack : isBlackBoxed sourceAdapter = false.
Hypothesis Hpath : source_path sourceAdapter = Some path.
Hypothesis Hpath_truthy : path ≠ "".
Hypothesis Hwhy : whyTypeIs event "breakpoint" = true.
Hypothesis Hactors : whyHasActors event = true.
Hypothesis Hlimit : limit ≠ 0%Z.

(** One pause at the breakpoint: the hit is counted; below the limit the
    thread is resumed and nothing else happens, otherwise the stop is
    surfaced. *)
Lemma hit_count_step bp (s : State) :
  findBreakpoint path sourceLocation s = Some (i, bp) →
  hitLimit bp = Some limit →
  let r := onThreadState env thread event s in
  findBreakpoint path sourceLocation (finalState r) = Some (i, incrementHitCount bp)
  ∧ outcome r = Done tt
  ∧ ((hitCount bp + 1 < limit)%Z →
       finalState r = hit path i s ∧ effects r = [ThreadResume (thread_id thread)])
  ∧ ((limit ≤ hitCount bp + 1)%Z →
       stoppedEvents (effects r) = [stoppedEventFor thread (ts_why event)]
       ∧ resumes (effects r) = []).
Proof.
  intros Hfind Hlim.
  assert (whyTypeIs event "exception" = false) as Hexc.
  { unfold whyTypeIs in *. destruct (ts_why event) as [why|]; [|reflexivity].
    apply String.eqb_eq in Hwhy. rewrite Hwhy. reflexivity. }
  assert (JS.truthy_opt_string (source_path sourceAdapter) = true) as Htruthy.
  { rewrite Hpath. simpl. unfold JS.truthy_string.
    destruct (String.eqb_spec path ""); [contradiction|reflexivity]. }
  assert (JS.truthy_number limit = true) as Hnum.
  { unfold JS.truthy_number. apply negb_true_iff, Z.eqb_neq, Hlimit. }
  pose proof (findBreakpoint_hit _ _ _ _ _ Hfind) as Hafter.
  fold sourceLocation in Hadapter.
  unfold_handler. rewrite Hstate, Hframe. simpl. rewrite Hmapped. simpl.
  fold sourceLocation.
  rewrite Hadapter, Hblack, Hwhy, Hactors, Htruthy, Hpath. simpl.
  rewrite Hfind, Hlim, Hnum. simpl.
  destruct (Z.ltb_spec (hitCount bp + 1) limit) as [Hlt|Hge]; simpl.
  - split; [exact Hafter|]. split; [reflexivity|].
    split; [intros _; split; reflexivity|intros Hle; lia].
  - rewrite Hexc. simpl.
    split; [exact Hafter|]. split; [reflexivity|].
    split; [intros Hlt; lia|intros _; split; reflexivity].
Qed.

(** [k] pauses below the limit: each is answered by resuming the thread,
    and each is counted. *)
Lemma hit_count_suppressed k : ∀ bp (s : State),
  findBreakpoint path sourceLocation s = Some (i, bp) →
  hitLimit bp = Some limit →
  (hitCount bp + Z.of_nat k < limit)%Z →
  (handleTimes k env thread event s).2 = repeat [ThreadResume (thread_id thread)] k
  ∧ findBreakpoint path sourceLocation (handleTimes k env thread event s).1
    = Some (i, withHitCount (hitCount bp + Z.of_nat k) bp).
Proof.
  induction k as [|k IH]; intros bp s Hfind Hlim Hbelow.
  - simpl. split; [reflexivity|]. rewrite Hfind, Z.add_0_r. destruct bp; reflexivity.
  - simpl.
    destruct (hit_count_step bp s Hfind Hlim) as (Hafter & _ & Hlow & _).
    destruct Hlow as [Hfinal Heffs]; [lia|].
    destruct (IH (incrementHitCount bp) (finalState (onThreadState env thread event s)))
      as [Hruns Hcount]; [exact Hafter|exact Hlim|simpl; lia|].
    destruct (handleTimes k env thread event (finalState (onThreadState env thread event s)))
      as [s' runs].
    simpl in *. split; [rewrite Heffs, Hruns; reflexivity|].
    rewrite Hcount. unfold withHitCount. simpl. do 3 f_equal. lia.
Qed.

(** C1, as the code has it.  The pause is a breakpoint pause that names at
    least one breakpoint actor, the source adapter of the pausing frame is
    found, is not blackboxed and has a path, and [bp] is the first
    breakpoint of that path whose actual location is the frame's line and
    column; it has the hit limit [N] and has not been hit yet.  Then each of
    the first [N - 1] such pauses is counted and answered by resuming the
    thread and by nothing else, and the [N]-th is counted and surfaced: the
    stopped event is sent and the thread is not resumed. *)
Theorem hit_count_breakpoint (N : nat) bp (s : State) :
  findBreakpoint path sourceLocation s = Some (i, bp) →
  hitLimit bp = Some limit →
  limit = Z.of_nat N →
  hitCount bp = 0%Z →
  (∀ k, (k < N)%nat →
     (handleTimes k env thread event s).2 = repeat [ThreadResume (thread_id thread)] k
     ∧ findBreakpoint path sourceLocation (handleTimes k env thread event s).1
       = Some (i, withHitCount (Z.of_nat k) bp))
  ∧ stoppedEvents
      (effects (onThreadState env thread event (handleTimes (N - 1) env thread event s).1))
    = [stoppedEventFor thread (ts_why event)]
  ∧ resumes
      (effects (onThreadState env thread event (handleTimes (N - 1) env thread event s).1))
    = []
  ∧ findBreakpoint path sourceLocation
      (finalState (onThreadState env thread event (handleTimes (N - 1) env thread event s).1))
    = Some (i, withHitCount (Z.of_nat N) bp).
Proof.
  intros Hfind Hlim HN Hzero.
  assert (∀ k, (k < N)%nat →
     (handleTimes k env thread event s).2 = repeat [ThreadResume (thread_id thread)] k
     ∧ findBreakpoint path sourceLocation (handleTimes k env thread event s).1
       = Some (i, withHitCount (Z.of_nat k) bp)) as Hbelow.
  { intros k Hk.
    destruct (hit_count_suppressed k bp s Hfind Hlim) as [Hruns Hcount]; [lia|].
    rewrite Hzero in Hcount. split; [exact Hruns|exact Hcount]. }
  split; [exact Hbelow|].
  assert (N ≠ 0%nat) as Hpos by (intros ->; apply Hlimit; exact HN).
  destruct (Hbelow (N - 1)%nat) as [_ Hlast]; [lia|].
  destruct (hit_count_step (withHitCount (Z.of_nat (N - 1)) bp)
              (handleTimes (N - 1) env thread event s).1 Hlast Hlim)
    as (Hafter & _ & _ & Hsurfaced).
  destruct Hsurfaced as [Hstopped Hresumes]; [simpl; lia|].
  split; [exact Hstopped|]. split; [exact Hresumes|].
  rewrite Hafter. unfold incrementHitCount, withHitCount. simpl. do 3 f_equal. lia.
Qed.

End OneBreakpoint.

Lemma hit_count_breakpoint_witness :
  (handleTimes 2 env mainThread (pausedAt (Some breakpointHit)) session).2
  = [[ThreadResume 1]; [ThreadResume 1]]
  ∧ stoppedEvents
      (effects (onThreadState env mainThread (pausedAt (Some breakpointHit))
                  (handleTimes 2 env mainThread (pausedAt (Some breakpointHit)) session).1))
    = [DAP.mkStoppedBody "breakpoint" 1 None (Some false)]
  ∧ findBreakpoint scriptPath (frame_where atBreakpoint)
      (finalState (onThreadState env mainThread (pausedAt (Some breakpointHit))
                     (handleTimes 2 env mainThread (pausedAt (Some breakpointHit)) session).1))
    = Some (0%nat, withHitCount 3 limited).
Proof.
  destruct (hit_count_breakpoint env mainThread (pausedAt (Some breakpointHit))
              atBreakpoint atBreakpoint scriptSource scriptPath 0 3%Z
              eq_refl eq_refl eq_refl eq_refl eq_refl eq_refl ltac:(discriminate) eq_refl eq_refl
              ltac:(discriminate) 3 limited session eq_refl eq_refl eq_refl eq_refl)
    as (Hbelow & Hstopped & _ & Hcount).
  destruct (Hbelow 2%nat ltac:(lia)) as [Hruns _].
  split; [exact Hruns|]. split; [exact Hstopped|exact Hcount].
Defined.

(** C1, as the claim states it, fails.  In each of the three sessions the
    breakpoint [limited] is realized at the path of the pausing source with
    a hit limit of 3, the thread pauses with the reason type ["breakpoint"]
    and the frame's line and column are the breakpoint's actual location.
    Yet its hit count stays 0 and the stop is not suppressed: when the
    reason names no breakpoint actor, and when another breakpoint at the
    same location comes first in the table, the first pause is surfaced;
    when the source is blackboxed, the thread is resumed without the hit
    being counted. *)
Lemma hit_count_not_counted :
  let event := pausedAt (Some breakpointWithoutActors) in
  let hit := pausedAt (Some breakpointHit) in
  whyTypeIs event "breakpoint" = true
  ∧ atLocation (frame_where atBreakpoint) limited = true
  ∧ hitLimit limited = Some 3%Z
  ∧ (breakpoints (finalState (onThreadState env mainThread event session)) !! scriptPath
     = Some [limited]
     ∧ stoppedEvents (effects (onThreadState env mainThread event session))
       = [DAP.mkStoppedBody "breakpoint" 1 None (Some false)])
  ∧ (breakpoints (finalState (onThreadState env mainThread hit (sessionWith [unlimited; limited])))
       !! scriptPath
     = Some [unlimited; limited]
     ∧ stoppedEvents (effects (onThreadState env mainThread hit (sessionWith [unlimited; limited])))
       = [DAP.mkStoppedBody "breakpoint" 1 None (Some false)])
  ∧ (breakpoints (finalState (onThreadState (collaborators skippedSource []) mainThread hit session))
       !! scriptPath
     = Some [limited]
     ∧ effects (onThreadState (collaborators skippedSource []) mainThread hit session)
       = [ThreadResume 1]).
Proof. vm_compute. repeat split. Qed.

End ThreadStateFacts.

(** ** Session start: the Root [init] packet *)

Section SessionStartFacts.
Import Handler FirefoxDebugProtocol SessionStart Inputs.Start.

Ltac unfold_init :=
  unfold onInit, reject, resolve, settle, effects, trace, finalState, outcome,
    bind, ret, perform, get, modify, await, throw.

(** C8: with the start promise still pending when the [init] packet
    arrives, the handler rejects it with the message that this version of
    Firefox is not supported anymore exactly when the traits are those of
    an unsupported engine (web-extension connect without native
    logpoints).  In that case nothing else happens.  Otherwise the mode is
    chosen from the traits and discovery starts with [fetchRoot]; when the
    awaited requests succeed it goes on to the parent process descriptor in
    the modern mode and to the tabs in the legacy mode. *)
Theorem init_rejects_unsupported_engine env hasAddonManager traits (s : State) :
  startPromise s = Pending →
  (startPromise (finalState (onInit env hasAddonManager traits s)) = Rejected unsupportedMessage
   ↔ unsupportedEngine traits = true)
  ∧ (unsupportedEngine traits = true →
       effects (onInit env hasAddonManager traits s) = []
       ∧ processDescriptorMode (finalState (onInit env hasAddonManager traits s))
         = processDescriptorMode s)
  ∧ (unsupportedEngine traits = false →
       processDescriptorMode (finalState (onInit env hasAddonManager traits s))
       = Some (supportsEnableWindowGlobalThreadActors traits)
       ∧ (∃ rest, effects (onInit env hasAddonManager traits s) = FetchRoot :: rest)
       ∧ (∀ actors, fetchRoot env = Done actors →
            getProcess env = Done tt → attachDescriptor env = Done tt →
            if supportsEnableWindowGlobalThreadActors traits
            then [FetchRoot; GetProcess 0; AttachDescriptor]
                   `prefix_of` effects (onInit env hasAddonManager traits s)
            else [FetchRoot; FetchTabsThenClearReloadTabs]
                   `prefix_of` effects (onInit env hasAddonManager traits s))).
Proof.
  intros Hpending. unfold unsupportedEngine.
  destruct (webExtensionAddonConnect traits && negb (nativeLogpoints traits)) eqn:Hold.
  - unfold_init. rewrite Hold, Hpending. simpl.
    split; [split; reflexivity|]. split; [intros _; split; reflexivity|discriminate].
  - split; [|split; [discriminate|intros _]].
    + split; [|discriminate].
      unfold_init. rewrite Hold.
      destruct env as [[actors|e1] [[]|e2] [[]|e3] [[]|e4] [[]|e5]];
        try destruct actors as [[]]; destruct hasAddonManager;
        destruct (supportsEnableWindowGlobalThreadActors traits);
        simpl; rewrite ?Hpending; simpl; discriminate.
    + split; [|split].
      * unfold_init. rewrite Hold.
        destruct env as [[actors|e1] [[]|e2] [[]|e3] [[]|e4] [[]|e5]];
          try destruct actors as [[]]; destruct hasAddonManager;
          destruct (supportsEnableWindowGlobalThreadActors traits);
          reflexivity.
      * unfold_init. rewrite Hold.
        destruct env as [[actors|e1] [[]|e2] [[]|e3] [[]|e4] [[]|e5]];
          try destruct actors as [[]]; destruct hasAddonManager;
          destruct (supportsEnableWindowGlobalThreadActors traits);
          simpl; eexists; reflexivity.
      * intros actors Hroot Hprocess Hattach.
        unfold_init. rewrite Hold, Hroot, Hprocess, Hattach.
        destruct env as [r1 r2 r3 [[]|e4] [[]|e5]];
          destruct actors as [[]]; destruct hasAddonManager;
          destruct (supportsEnableWindowGlobalThreadActors traits);
          simpl; eexists; reflexivity.
Qed.

Lemma init_rejects_unsupported_engine_witness :
  startPromise (finalState (onInit responsive true oldEngine initial))
  = Rejected unsupportedMessage
  ∧ effects (onInit responsive true oldEngine initial) = []
  ∧ startPromise (finalState (onInit responsive true modernEngine initial)) = Resolved
  ∧ effects (onInit responsive true modernEngine initial)
    = [FetchRoot; GetProcess 0; AttachDescriptor; AddonSessionStarted; WatchResources resources]
  ∧ effects (onInit responsive false legacyEngine initial)
    = [FetchRoot; FetchTabsThenClearReloadTabs].
Proof.
  destruct (init_rejects_unsupported_engine responsive true oldEngine initial eq_refl)
    as ([_ Hrejected] & Hnothing & _).
  split; [exact (Hrejected eq_refl)|].
  split; [exact (proj1 (Hnothing eq_refl))|].
  repeat split.
Defined.

End SessionStartFacts.

(** ** Session shutdown *)

Section ShutdownFacts.
Import Handler Shutdown Inputs.Stop.

Lemma removeEach_run dirs (s : State) :
  removeEach dirs s = (s, map (fun d => (Remove d, s)) dirs, Done tt).
Proof.
  induction dirs as [|d dirs IH]; [reflexivity|].
  simpl. unfold bind, perform. rewrite IH. reflexivity.
Qed.

Lemma removed_app l1 l2 : removed (l1 ++ l2) = removed l1 ++ removed l2.
Proof. unfold removed. apply omap_app. Qed.

Lemma removed_removeEach (s : State) dirs :
  removed (map fst (map (fun d => (Remove d, s)) dirs)) = dirs.
Proof.
  induction dirs as [|d dirs IH]; [reflexivity|].
  simpl. unfold removed in *. simpl. f_equal. exact IH.
Qed.

Lemma elem_of_removeEach (s : State) dirs e :
  e ∈ map fst (map (fun d => (Remove d, s)) dirs) → ∃ d, e = Remove d.
Proof.
  rewrite map_map. simpl. intros Hin.
  apply list_elem_of_In, in_map_iff in Hin as (d & <- & _). eauto.
Qed.

Lemma closeReloadWatcher_run (s : State) :
  closeReloadWatcher s
  = (if reloadWatcher s then setReloadWatcher false s else s,
     if reloadWatcher s then [(CloseReloadWatcher, s)] else [],
     Done tt).
Proof.
  unfold closeReloadWatcher, bind, get, perform, modify, ret. simpl.
  destruct (reloadWatcher s); reflexivity.
Qed.

Lemma tryToTerminate_child env config (s : State) :
  firefoxProc s = true →
  finalState (tryToTerminate env config s)
    = (if socketCloses env afterKill then socketClosed s else s)
  ∧ effects (tryToTerminate env config s)
    = [Log debug "Trying to kill Firefox using a SIGTERM signal";
       Kill "SIGTERM"; Race firefoxClosedPromise 1000]
  ∧ outcome (tryToTerminate env config s) = Done tt.
Proof.
  intros Hproc.
  unfold tryToTerminate, suspended, effects, finalState, outcome, bind, get, perform, modify, ret.
  simpl. rewrite Hproc. simpl.
  destruct (socketCloses env afterKill); simpl; repeat split.
Qed.

Lemma tryToTerminate_addon env config (s : State) :
  firefoxProc s = false → firefoxDebugSocketClosed s = false → addonsActor s = true →
  match installAddon env with
  | Done _ =>
      effects (tryToTerminate env config s)
      = [Log debug "Trying to close Firefox using the Terminator WebExtension";
         InstallAddon (terminatorPath config);
         Race firefoxDebugSocketClosedPromise 1000]
      ∧ outcome (tryToTerminate env config s) = Done tt
  | Threw err =>
      effects (tryToTerminate env config s)
      = [Log debug "Trying to close Firefox using the Terminator WebExtension";
         InstallAddon (terminatorPath config)]
      ∧ outcome (tryToTerminate env config s) = Threw err
  end.
Proof.
  intros Hproc Hclosed Haddons.
  unfold tryToTerminate, suspended, effects, finalState, outcome, bind, get, perform,
    modify, ret, await.
  simpl. rewrite Hproc, Hclosed, Haddons. simpl.
  destruct (socketCloses env installing); simpl;
    destruct (installAddon env) as [[]|err]; simpl;
    try destruct (socketCloses env afterInstall); simpl; repeat split.
Qed.

Lemma tryToTerminate_no_child env config (s : State) e :
  firefoxProc s = false →
  e ∈ effects (tryToTerminate env config s) → ∀ signal, e ≠ Kill signal.
Proof.
  intros Hproc.
  unfold tryToTerminate, suspended, effects, finalState, outcome, bind, get, perform,
    modify, ret, await.
  simpl. rewrite Hproc. simpl.
  destruct (negb (firefoxDebugSocketClosed s) && addonsActor s); simpl;
    try destruct (socketCloses env installing); simpl;
    try destruct (installAddon env) as [[]|err]; simpl;
    try destruct (socketCloses env afterInstall); simpl;
    intros Hin signal ->;
    repeat (apply elem_of_cons in Hin as [Hin|Hin]; [discriminate|]);
    apply elem_of_nil in Hin; exact Hin.
Qed.

Lemma cleanup_open env config (s : State) :
  firefoxDebugSocketClosed s = false →
  cleanup env config s
  = (s, [(Log warn "Couldn't terminate Firefox", s); (Disconnect, s)], Done tt).
Proof.
  intros Hclosed. unfold cleanup, bind, get, perform. simpl. rewrite Hclosed. reflexivity.
Qed.

Lemma cleanup_closed env config (s : State) :
  firefoxDebugSocketClosed s = true →
  finalState (cleanup env config s) = s
  ∧ outcome (cleanup env config s) = Done tt
  ∧ removed (effects (cleanup env config s)) = configuredTmpDirs config
  ∧ (∀ e, e ∈ effects (cleanup env config s) →
       e ≠ Disconnect ∧ (∀ p, e ≠ InstallAddon p) ∧ (∀ signal, e ≠ Kill signal))
  ∧ (configuredTmpDirs config ≠ [] →
     ∃ after, effects (cleanup env config s) = Delay 500 :: after).
Proof.
  intros Hclosed.
  assert (socketClosed s = s) as Hsame by (destruct s; simpl in *; subst; reflexivity).
  unfold cleanup, configuredTmpDirs, suspended, effects, finalState, outcome, tryCatch,
    bind, get, perform, modify, ret, await.
  simpl. rewrite Hclosed. simpl.
  destruct (launch config) as [[dirs]|]; simpl.
  2: { split; [reflexivity|]. split; [reflexivity|]. split; [reflexivity|].
    split; [intros e He; apply elem_of_nil in He; contradiction|intros Hne; congruence]. }
  destruct (0 <? length dirs)%nat eqn:Hlen; simpl.
  2: { destruct dirs; [|discriminate Hlen].
       split; [reflexivity|]. split; [reflexivity|]. split; [reflexivity|].
       split; [intros e He; apply elem_of_nil in He; contradiction|intros Hne; congruence]. }
  assert (∀ (s' : State) rest e,
            (∀ e', e' ∈ rest → e' ≠ Disconnect ∧ (∀ p, e' ≠ InstallAddon p)
                               ∧ (∀ signal, e' ≠ Kill signal)) →
            e ∈ Delay 500 :: Log debug ("Removing " +:+ String.concat " , " dirs)
                :: map fst (map (fun d => (Remove d, s')) dirs) ++ rest →
            e ≠ Disconnect ∧ (∀ p, e ≠ InstallAddon p) ∧ (∀ signal, e ≠ Kill signal))
    as Hclean.
  { intros s' rest e Hrest Hin.
    repeat (apply elem_of_cons in Hin as [->|Hin]; [repeat split; discriminate|]).
    apply elem_of_app in Hin as [Hin|Hin]; [|exact (Hrest e Hin)].
    apply elem_of_removeEach in Hin as [d' ->]. repeat split; discriminate. }
  destruct (socketCloses env grace); simpl; rewrite ?Hsame, removeEach_run; simpl;
    destruct (removeAll env) as [[]|err]; simpl;
    rewrite ?app_nil_r, ?map_app; simpl;
    (split; [reflexivity|]); (split; [reflexivity|]);
    (split; [unfold removed; simpl;
             rewrite ?omap_app; simpl; rewrite ?app_nil_r;
             apply removed_removeEach|]);
    (split; [|intros _; eexists; reflexivity]);
    intros e Hin.
  all: try (apply (Hclean s [] e); [intros e' He'; apply elem_of_nil in He'; contradiction|];
            rewrite app_nil_r; exact Hin).
  all: apply (Hclean s [Log warn ("Failed to remove temporary directory: " +:+ err)] e);
    [intros e' He'; apply list_elem_of_singleton in He' as ->; repeat split; discriminate
    |exact Hin].
Qed.

Lemma tryToTerminate_effects env config (s : State) :
  removed (effects (tryToTerminate env config s)) = []
  ∧ Disconnect ∉ effects (tryToTerminate env config s).
Proof.
  unfold tryToTerminate, suspended, effects, finalState, outcome, bind, get, perform,
    modify, ret, await.
  simpl.
  destruct (firefoxProc s); simpl;
    [destruct (socketCloses env afterKill)
    |destruct (negb (firefoxDebugSocketClosed s) && addonsActor s); simpl;
     try destruct (socketCloses env installing); simpl;
     try destruct (installAddon env) as [[]|err]; simpl;
     try destruct (socketCloses env afterInstall)];
    simpl; (split; [reflexivity|]); intros Hin;
    repeat (apply elem_of_cons in Hin as [Hin|Hin]; [discriminate|]);
    apply elem_of_nil in Hin; exact Hin.
Qed.

Lemma shutdown_phases env config (s : State) :
  terminate config = true →
  let attempt := tryToTerminate env config (withoutWatcher s) in
  match outcome attempt with
  | Done _ =>
      effects (disconnectFirefoxAndCleanup env config s)
      = watcherEffects s ++ effects attempt
          ++ effects (cleanup env config (finalState attempt))
      ∧ finalState (disconnectFirefoxAndCleanup env config s)
        = finalState (cleanup env config (finalState attempt))
      ∧ outcome (disconnectFirefoxAndCleanup env config s)
        = outcome (cleanup env config (finalState attempt))
  | Threw err =>
      effects (disconnectFirefoxAndCleanup env config s)
      = watcherEffects s ++ effects attempt
      ∧ outcome (disconnectFirefoxAndCleanup env config s) = Threw err
  end.
Proof.
  intros Hterminate.
  unfold disconnectFirefoxAndCleanup, watcherEffects, withoutWatcher, bind,
    effects, finalState, outcome.
  rewrite !closeReloadWatcher_run, Hterminate. simpl.
  destruct (reloadWatcher s); simpl;
    destruct (tryToTerminate env config _) as [[s2 t2] [[]|err]]; simpl;
    try destruct (cleanup env config s2) as [[s3 t3] o3]; simpl;
    rewrite ?map_app; repeat split.
Qed.

Lemma afterWatcher_effects (s : State) rest :
  (∀ tail, rest ≠ CloseReloadWatcher :: tail) →
  afterWatcher (watcherEffects s ++ rest) = rest.
Proof.
  intros Hrest. unfold watcherEffects. destruct (reloadWatcher s); simpl; [reflexivity|].
  destruct rest as [|[] rest]; try reflexivity. exfalso. exact (Hrest rest eq_refl).
Qed.

Lemma withoutWatcher_fields (s : State) :
  firefoxProc (withoutWatcher s) = firefoxProc s
  ∧ firefoxDebugSocketClosed (withoutWatcher s) = firefoxDebugSocketClosed s
  ∧ addonsActor (withoutWatcher s) = addonsActor s.
Proof. unfold withoutWatcher. destruct (reloadWatcher s); repeat split. Qed.

(** C7, as the code has it.  With the terminate option set: a session that
    holds the launched child first signals it with SIGTERM and waits for it
    to close or for 1 s, and installs no add-on; a session that holds no
    child sends no signal and, when its socket is still open and it knows
    the add-ons actor, first installs the terminator add-on and, once that
    is installed, waits for the socket to close or for 1 s.  When the
    function returns, it has disconnected the connection exactly when the
    socket had not closed, and then it has removed nothing; when the socket
    had closed it has not disconnected, has removed exactly the temporary
    directories of the launch configuration, and has waited 500 ms before
    the first removal. *)
Theorem shutdown_with_terminate env config (s : State) :
  terminate config = true →
  (firefoxProc s = true →
     [Log debug "Trying to kill Firefox using a SIGTERM signal";
      Kill "SIGTERM"; Race firefoxClosedPromise 1000]
       `prefix_of` afterWatcher (effects (disconnectFirefoxAndCleanup env config s))
     ∧ ∀ p, InstallAddon p ∉ effects (disconnectFirefoxAndCleanup env config s))
  ∧ (firefoxProc s = false →
     (∀ signal, Kill signal ∉ effects (disconnectFirefoxAndCleanup env config s))
     ∧ (firefoxDebugSocketClosed s = false → addonsActor s = true →
        [Log debug "Trying to close Firefox using the Terminator WebExtension";
         InstallAddon (terminatorPath config)]
          `prefix_of` afterWatcher (effects (disconnectFirefoxAndCleanup env config s))
        ∧ (installAddon env = Done tt →
           [Log debug "Trying to close Firefox using the Terminator WebExtension";
            InstallAddon (terminatorPath config);
            Race firefoxDebugSocketClosedPromise 1000]
             `prefix_of` afterWatcher (effects (disconnectFirefoxAndCleanup env config s)))))
  ∧ (outcome (disconnectFirefoxAndCleanup env config s) = Done tt →
     (Disconnect ∈ effects (disconnectFirefoxAndCleanup env config s)
      ↔ firefoxDebugSocketClosed (finalState (disconnectFirefoxAndCleanup env config s)) = false)
     ∧ removed (effects (disconnectFirefoxAndCleanup env config s))
       = (if firefoxDebugSocketClosed (finalState (disconnectFirefoxAndCleanup env config s))
          then configuredTmpDirs config else [])
     ∧ (removed (effects (disconnectFirefoxAndCleanup env config s)) ≠ [] →
        ∃ before after,
          effects (disconnectFirefoxAndCleanup env config s) = before ++ Delay 500 :: after
          ∧ removed before = [])).
Proof.
  intros Hterminate.
  pose proof (shutdown_phases env config s Hterminate) as Hphases. simpl in Hphases.
  destruct (withoutWatcher_fields s) as (Hproc' & Hclosed' & Haddons').
  pose proof (tryToTerminate_effects env config (withoutWatcher s)) as [Hnoremove Hnodisc].
  assert (removed (watcherEffects s) = []) as Hw1.
  { unfold watcherEffects. destruct (reloadWatcher s); reflexivity. }
  assert (∀ e, e ∈ watcherEffects s → e = CloseReloadWatcher) as Hw.
  { unfold watcherEffects. intros e Hin. destruct (reloadWatcher s).
    - apply list_elem_of_singleton in Hin. exact Hin.
    - apply elem_of_nil in Hin. contradiction. }
  assert (Disconnect ∉ watcherEffects s) as Hw2.
  { intros Hin. apply Hw in Hin. discriminate Hin. }
  assert (∀ p, InstallAddon p ∉ watcherEffects s) as Hw3.
  { intros p Hin. apply Hw in Hin. discriminate Hin. }
  assert (∀ signal, Kill signal ∉ watcherEffects s) as Hw4.
  { intros signal Hin. apply Hw in Hin. discriminate Hin. }
  assert (∀ s2 e, e ∈ effects (cleanup env config s2) →
            (∀ p, e ≠ InstallAddon p) ∧ (∀ signal, e ≠ Kill signal)) as Hcleanup.
  { intros s2 e Hin. destruct (firefoxDebugSocketClosed s2) eqn:Hc.
    - destruct (cleanup_closed env config s2 Hc) as (_ & _ & _ & Hkind & _).
      destruct (Hkind e Hin) as (_ & H1 & H2). split; assumption.
    - rewrite (cleanup_open env config s2 Hc) in Hin. unfold effects in Hin. simpl in Hin.
      repeat (apply elem_of_cons in Hin as [->|Hin]; [split; discriminate|]).
      apply elem_of_nil in Hin. contradiction. }
  split; [|split].
  - intros Hproc. rewrite <- Hproc' in Hproc.
    destruct (tryToTerminate_child env config _ Hproc) as (_ & Heffs & Hout).
    rewrite Hout in Hphases. destruct Hphases as (Hall & _ & _).
    rewrite Hall, Heffs. split.
    + rewrite afterWatcher_effects by (intros tail; discriminate).
      eexists; reflexivity.
    + intros p Hin. apply elem_of_app in Hin as [Hin|Hin]; [exact (Hw3 p Hin)|].
      apply elem_of_app in Hin as [Hin|Hin].
      * repeat (apply elem_of_cons in Hin as [Hin|Hin]; [discriminate|]).
        apply elem_of_nil in Hin; exact Hin.
      * destruct (Hcleanup _ _ Hin) as [Hno _]. exact (Hno p eq_refl).
  - intros Hproc. rewrite <- Hproc' in Hproc. split.
    + intros signal Hin.
      assert (Kill signal ∈ watcherEffects s ++ effects (tryToTerminate env config (withoutWatcher s))
              ∨ ∃ s2, Kill signal ∈ effects (cleanup env config s2)) as [Hin'|[s2 Hin']].
      { destruct (outcome (tryToTerminate env config (withoutWatcher s))).
        - destruct Hphases as (Hall & _). rewrite Hall, app_assoc in Hin.
          apply elem_of_app in Hin as [Hin|Hin]; [left; exact Hin|right; eauto].
        - destruct Hphases as (Hall & _). rewrite Hall in Hin. left; exact Hin. }
      * apply elem_of_app in Hin' as [Hin'|Hin']; [exact (Hw4 signal Hin')|].
        exact (tryToTerminate_no_child env config _ _ Hproc Hin' signal eq_refl).
      * destruct (Hcleanup _ _ Hin') as [_ Hno]. exact (Hno signal eq_refl).
    + intros Hclosed Haddons. rewrite <- Hclosed' in Hclosed. rewrite <- Haddons' in Haddons.
      pose proof (tryToTerminate_addon env config _ Hproc Hclosed Haddons) as Haddon.
      split.
      * destruct (installAddon env) as [[]|err]; destruct Haddon as [Heffs Hout];
          rewrite Hout in Hphases; destruct Hphases as (Hall & _);
          rewrite Hall, Heffs;
          rewrite afterWatcher_effects by (intros tail; discriminate);
          eexists; reflexivity.
      * intros Hinstall. rewrite Hinstall in Haddon. destruct Haddon as [Heffs Hout].
        rewrite Hout in Hphases. destruct Hphases as (Hall & _).
        rewrite Hall, Heffs.
        rewrite afterWatcher_effects by (intros tail; discriminate).
        eexists; reflexivity.
  - intros Hdone.
    destruct (outcome (tryToTerminate env config (withoutWatcher s))) as [[]|err];
      [|destruct Hphases as [_ Hthrew]; congruence].
    destruct Hphases as (Hall & Hfinal & _). rewrite Hall, Hfinal.
    set (s2 := finalState (tryToTerminate env config (withoutWatcher s))).
    rewrite !removed_app, Hw1, Hnoremove. simpl.
    destruct (firefoxDebugSocketClosed s2) eqn:Hc.
    + destruct (cleanup_closed env config s2 Hc) as (Hstate & _ & Hremoved & Hkind & Hdelay).
      rewrite Hstate, Hc, Hremoved. split; [|split; [reflexivity|]].
      * split; [|discriminate]. intros Hin. exfalso.
        apply elem_of_app in Hin as [Hin|Hin]; [exact (Hw2 Hin)|].
        apply elem_of_app in Hin as [Hin|Hin]; [exact (Hnodisc Hin)|].
        destruct (Hkind _ Hin) as [Hno _]. exact (Hno eq_refl).
      * intros Hne. destruct (Hdelay Hne) as [after Hafter].
        exists (watcherEffects s ++ effects (tryToTerminate env config (withoutWatcher s))), after.
        rewrite Hafter, removed_app, Hw1, Hnoremove, app_assoc. split; reflexivity.
    + rewrite (cleanup_open env config s2 Hc). unfold effects at 2 3 4, finalState. simpl.
      rewrite Hc. split; [|split; [reflexivity|intros Hne; congruence]].
      split; [reflexivity|]. intros _.
      apply elem_of_app. right. apply elem_of_app. right.
      apply list_elem_of_further, list_elem_of_here.
Qed.

Lemma shutdown_with_terminate_witness :
  effects (disconnectFirefoxAndCleanup browserExits terminating holdingChild)
  = [Log debug "Trying to kill Firefox using a SIGTERM signal";
     Kill "SIGTERM"; Race firefoxClosedPromise 1000;
     Delay 500; Log debug "Removing /tmp/vscode-firefox-debug-profile-1";
     Remove profileDir]
  ∧ removed (effects (disconnectFirefoxAndCleanup browserExits terminating holdingChild))
    = [profileDir]
  ∧ (Disconnect ∈ effects (disconnectFirefoxAndCleanup browserExits terminating holdingChild)
     ↔ true = false).
Proof.
  destruct (shutdown_with_terminate browserExits terminating holdingChild eq_refl)
    as (_ & _ & Hreturn).
  destruct (Hreturn eq_refl) as (Hdisconnect & Hremoved & _).
  split; [reflexivity|]. split; [exact Hremoved|exact Hdisconnect].
Defined.

(** C7, as the claim states it, fails: the terminate option is set and the
    launch configuration has a temporary profile directory, yet in no run
    are both the connection disconnected and the directory removed.  When
    the browser exits within the wait, the directory is removed after
    500 ms and the connection is not disconnected; when it keeps running,
    the connection is disconnected and nothing is removed; a session that
    holds neither a child nor the add-ons actor sends no signal and
    installs no add-on. *)
Lemma shutdown_disconnects_or_removes :
  terminate terminating = true
  ∧ configuredTmpDirs terminating = [profileDir]
  ∧ effects (disconnectFirefoxAndCleanup browserExits terminating holdingChild)
    = [Log debug "Trying to kill Firefox using a SIGTERM signal";
       Kill "SIGTERM"; Race firefoxClosedPromise 1000;
       Delay 500; Log debug "Removing /tmp/vscode-firefox-debug-profile-1";
       Remove profileDir]
  ∧ effects (disconnectFirefoxAndCleanup browserStays terminating holdingChild)
    = [Log debug "Trying to kill Firefox using a SIGTERM signal";
       Kill "SIGTERM"; Race firefoxClosedPromise 1000;
       Log warn "Couldn't terminate Firefox"; Disconnect]
  ∧ effects (disconnectFirefoxAndCleanup browserStays terminating attachedOnly)
    = [Log debug "Trying to close Firefox using the Terminator WebExtension";
       InstallAddon "/ext/dist/terminator"; Race firefoxDebugSocketClosedPromise 1000;
       Log warn "Couldn't terminate Firefox"; Disconnect]
  ∧ effects (disconnectFirefoxAndCleanup browserStays terminating noMeans)
    = [Log warn "Couldn't terminate Firefox"; Disconnect].
Proof. vm_compute. repeat split. Qed.

End ShutdownFacts.

(** ** Targets and threads *)

Section TargetLifecycleFacts.
Import Handler TargetLifecycle.

Variable shortenUrl : string → string.
Variable config : Config.

Local Abbreviation exited id effs := (count (isThreadExited id) effs).
Local Abbreviation exitedCustom id effs := (count (isCustomThreadExited id) effs).
Local Abbreviation started id effs := (count (isThreadStarted id) effs).

Lemma count_app f l1 l2 : count f (l1 ++ l2) = (count f l1 + count f l2)%nat.
Proof. induction l1 as [|e l1 IH]; simpl; [reflexivity|]. rewrite IH. lia. Qed.

Lemma count_nil f : count f [] = 0%nat.
Proof. reflexivity. Qed.

Lemma count_cons f e l :
  count f (e :: l) = ((if f e then 1 else 0) + count f l)%nat.
Proof. reflexivity. Qed.

Lemma exited_exitEvents id t :
  exited id (exitEvents t) = (if (thread_id t =? id)%nat then 1 else 0)%nat
  ∧ exitedCustom id (exitEvents t) = (if (thread_id t =? id)%nat then 1 else 0)%nat
  ∧ started id (exitEvents t) = 0%nat.
Proof.
  unfold exitEvents. rewrite !count_cons, !count_nil. simpl.
  destruct (thread_id t =? id)%nat; repeat split.
Qed.

Lemma bind_done {S E A B} (m : M S E A) (k : A → M S E B) (s : S) a :
  outcome (m s) = Done a →
  finalState (bind m k s) = finalState (k a (finalState (m s)))
  ∧ effects (bind m k s) = effects (m s) ++ effects (k a (finalState (m s))).
Proof.
  unfold bind, outcome, finalState, effects.
  destruct (m s) as [[s1 t1] o]. simpl. intros ->.
  destruct (k a s1) as [[s2 t2] r]. simpl. rewrite map_app. split; reflexivity.
Qed.

(** The handler up to its [await]: the thread is filed and announced, and
    the rest of the handler waits. *)
Lemma onTargetAvailable_suspends d adapter targetActor threadActor consoleActor (s : State) :
  skipTarget config (descriptor_type adapter) (targetActor_target targetActor) = false →
  let t := mkThreadAdapter (Registry.nextId (threads s))
             (threadTypeAndName shortenUrl (descriptor_type adapter) targetActor).1
             (threadTypeAndName shortenUrl (descriptor_type adapter) targetActor).2
             (targetActor_name targetActor) threadActor in
  let r := onTargetAvailable shortenUrl config d adapter targetActor threadActor consoleActor s in
  finalState r
  = {| threads := (Registry.register t (threads s)).2;
       threadsByTargetActorName := <[targetActor_name targetActor := t]> (threadsByTargetActorName s);
       descriptors := descriptors s;
       suspended := suspended s ++ [(d, t)] |}
  ∧ effects r
    = [Log info ("Attaching " +:+ thread_name t);
       SendEvent (DAP.ThreadEvent "started" (thread_id t));
       SendEvent (DAP.CustomEvent "threadStarted"
                    (DAP.ThreadStartedEventBody (thread_name t) (thread_id t)))]
  ∧ outcome r = Done tt.
Proof.
  intros Hskip. unfold onTargetAvailable. rewrite Hskip.
  destruct (threadTypeAndName shortenUrl (descriptor_type adapter) targetActor) as [type name].
  repeat split.
Qed.

(** The continuation of the oldest suspended run. *)
Lemma handle_continued d t rest (s : State) :
  suspended s = (d, t) :: rest →
  let r := handle shortenUrl config (Continued 0) s in
  finalState r
  = {| threads := threads s;
       threadsByTargetActorName := threadsByTargetActorName s;
       descriptors := alter (fun a => setAdapterThreads (threadsAdd t (adapter_threads a)) a)
                        d (descriptors s);
       suspended := rest |}
  ∧ effects r = []
  ∧ outcome r = Done tt.
Proof.
  intros Hsuspended.
  unfold handle, onTargetAvailableResumed, updateAdapterThreads, bind, get, modify,
    finalState, effects, outcome, trace.
  simpl. rewrite Hsuspended. simpl. rewrite Hsuspended. repeat split.
Qed.

(** Nothing waits: a continuation step does nothing. *)
Lemma handle_continued_idle k (s : State) :
  suspended s = [] →
  handle shortenUrl config (Continued k) s = (s, [], Done tt).
Proof.
  intros Hidle. unfold handle, bind, get. simpl. rewrite Hidle. reflexivity.
Qed.

Lemma handle_available d adapter targetActor threadActor consoleActor (s : State) :
  descriptors s !! d = Some adapter →
  handle shortenUrl config (TargetAvailable d targetActor threadActor consoleActor) s
  = onTargetAvailable shortenUrl config d adapter targetActor threadActor consoleActor s.
Proof.
  intros Hadapter. unfold handle, bind, get. simpl. rewrite Hadapter.
  destruct (onTargetAvailable _ _ _ _ _ _ _ _) as [[s' tr] o]. reflexivity.
Qed.

(** The handler and its continuation, run one after the other. *)
Lemma onTargetAvailable_attach d adapter targetActor threadActor consoleActor (s : State) :
  descriptors s !! d = Some adapter →
  suspended s = [] →
  skipTarget config (descriptor_type adapter) (targetActor_target targetActor) = false →
  let t := mkThreadAdapter (Registry.nextId (threads s))
             (threadTypeAndName shortenUrl (descriptor_type adapter) targetActor).1
             (threadTypeAndName shortenUrl (descriptor_type adapter) targetActor).2
             (targetActor_name targetActor) threadActor in
  let r := handleUninterrupted shortenUrl config
             (TargetAvailable d targetActor threadActor consoleActor) s in
  finalState r
  = {| threads := (Registry.register t (threads s)).2;
       threadsByTargetActorName := <[targetActor_name targetActor := t]> (threadsByTargetActorName s);
       descriptors := alter (fun a => setAdapterThreads (threadsAdd t (adapter_threads a)) a)
                        d (descriptors s);
       suspended := [] |}
  ∧ effects r
    = [Log info ("Attaching " +:+ thread_name t);
       SendEvent (DAP.ThreadEvent "started" (thread_id t));
       SendEvent (DAP.CustomEvent "threadStarted"
                    (DAP.ThreadStartedEventBody (thread_name t) (thread_id t)))].
Proof.
  intros Hadapter Hidle Hskip t r. subst r.
  destruct (onTargetAvailable_suspends d adapter targetActor threadActor consoleActor s Hskip)
    as (Hstate & Heffs & Hout).
  fold t in Hstate, Heffs.
  rewrite <- (handle_available _ _ _ _ _ _ Hadapter) in Hstate, Heffs, Hout.
  unfold handleUninterrupted.
  destruct (bind_done _ (fun _ => handle shortenUrl config (Continued 0)) s tt Hout)
    as [-> ->].
  assert (suspended (finalState (handle shortenUrl config
                       (TargetAvailable d targetActor threadActor consoleActor) s))
          = (d, t) :: []) as Hsuspended
    by (rewrite Hstate; simpl; rewrite Hidle; reflexivity).
  destruct (handle_continued d t [] _ Hsuspended) as (Hstate' & Heffs' & _).
  rewrite Hstate', Heffs', Heffs, Hstate, app_nil_r. simpl. split; reflexivity.
Qed.

Lemma onTargetAvailable_skip d adapter targetActor threadActor consoleActor (s : State) :
  skipTarget config (descriptor_type adapter) (targetActor_target targetActor) = true →
  let r := onTargetAvailable shortenUrl config d adapter targetActor threadActor consoleActor s in
  finalState r = s
  ∧ effects r = [Log warn "Not attaching to this thread"; ResumeWhenPaused threadActor]
  ∧ outcome r = Done tt.
Proof.
  intros Hskip. unfold onTargetAvailable. rewrite Hskip. repeat split.
Qed.

(** A skipped target leaves nothing waiting. *)
Lemma handleUninterrupted_skip d adapter targetActor threadActor consoleActor (s : State) :
  descriptors s !! d = Some adapter →
  suspended s = [] →
  skipTarget config (descriptor_type adapter) (targetActor_target targetActor) = true →
  let r := handleUninterrupted shortenUrl config
             (TargetAvailable d targetActor threadActor consoleActor) s in
  finalState r = s
  ∧ effects r = [Log warn "Not attaching to this thread"; ResumeWhenPaused threadActor].
Proof.
  intros Hadapter Hidle Hskip r. subst r.
  destruct (onTargetAvailable_skip d adapter targetActor threadActor consoleActor s Hskip)
    as (Hstate & Heffs & Hout).
  rewrite <- (handle_available _ _ _ _ _ _ Hadapter) in Hstate, Heffs, Hout.
  unfold handleUninterrupted.
  destruct (bind_done _ (fun _ => handle shortenUrl config (Continued 0)) s tt Hout)
    as [-> ->].
  rewrite Hstate, Heffs, (handle_continued_idle 0 s Hidle), app_nil_r. split; reflexivity.
Qed.

Lemma onTargetDestroyed_unknown d n (s : State) :
  threadsByTargetActorName s !! n = None →
  onTargetDestroyed config d n s
  = (s, [(Log debug ("Unknown target actor " +:+ n +:+ " (already destroyed?)"), s)], Done tt).
Proof.
  intros Hnone. unfold onTargetDestroyed, bind, get, perform. simpl. rewrite Hnone. reflexivity.
Qed.

Lemma onTargetDestroyed_known d n t (s : State) :
  threadsByTargetActorName s !! n = Some t →
  let r := onTargetDestroyed config d n s in
  finalState r
  = {| threads := Registry.unregister (thread_id t) (threads s);
       threadsByTargetActorName := delete n (threadsByTargetActorName s);
       descriptors := alter (fun a => setAdapterThreads (threadsDelete t (adapter_threads a)) a)
                        d (descriptors s);
       suspended := suspended s |}
  ∧ ∃ clear, effects r
      = clear ++ [SetTargetDestroyed (thread_targetActor t)] ++ exitEvents t
          ++ [DisposeThreadAdapter (thread_id t)]
      ∧ (clear = [] ∨ clear = [SendEvent (DAP.OutputEvent clearScreen "console")]).
Proof.
  intros Hsome.
  unfold onTargetDestroyed, effects, finalState, bind, get, perform. simpl. rewrite Hsome.
  destruct (bool_decide (thread_type t = tab) && clearConsoleOnReload config); simpl.
  - split; [reflexivity|].
    exists [SendEvent (DAP.OutputEvent clearScreen "console")].
    split; [reflexivity|]. right. reflexivity.
  - split; [reflexivity|]. exists []. split; [reflexivity|]. left. reflexivity.
Qed.

Lemma exitThreads_cons t l (s : State) :
  let s1 := setThreadsByTargetActorName
              (delete (thread_targetActor t) (threadsByTargetActorName s)) s in
  exitThreads (t :: l) s
  = (finalState (exitThreads l s1),
     (SendEvent (DAP.ThreadEvent "exited" (thread_id t)), s)
       :: (SendEvent (DAP.CustomEvent "threadExited"
                        (DAP.ThreadExitedEventBody (thread_id t))), s)
       :: trace (exitThreads l s1),
     outcome (exitThreads l s1)).
Proof.
  simpl. unfold finalState, trace, outcome, sendThreadExitedEvent, bind, perform, modify.
  simpl.
  destruct (exitThreads l
              (setThreadsByTargetActorName
                 (delete (thread_targetActor t) (threadsByTargetActorName s)) s))
    as [[s' tr] o].
  reflexivity.
Qed.

Lemma exitThreads_run l (s : State) :
  finalState (exitThreads l s)
  = setThreadsByTargetActorName (withoutThreads l (threadsByTargetActorName s)) s
  ∧ effects (exitThreads l s) = flat_map exitEvents l
  ∧ outcome (exitThreads l s) = Done tt.
Proof.
  revert s. induction l as [|t l IH]; intros s.
  - destruct s; repeat split.
  - specialize (IH (setThreadsByTargetActorName
                      (delete (thread_targetActor t) (threadsByTargetActorName s)) s)).
    destruct IH as (Hstate & Heffs & Hout).
    rewrite exitThreads_cons.
    unfold effects, finalState, outcome, trace in *. simpl.
    rewrite Hstate, Heffs, Hout. repeat split.
Qed.

Lemma onDestroyed_run d adapter (s : State) :
  finalState (onDestroyed d adapter s)
  = setThreadsByTargetActorName
      (withoutThreads (adapter_threads adapter) (threadsByTargetActorName s)) s
  ∧ effects (onDestroyed d adapter s)
    = flat_map exitEvents (adapter_threads adapter) ++ [DisposeDescriptorAdapter d].
Proof.
  destruct (exitThreads_run (adapter_threads adapter) s) as (Hstate & Heffs & Hout).
  unfold onDestroyed, effects, finalState, outcome, bind, perform in *.
  destruct (exitThreads (adapter_threads adapter) s) as [[s' tr] o].
  simpl in *. subst o s'. simpl. rewrite map_app, Heffs. split; reflexivity.
Qed.

Lemma attachDescriptor_run d type contentScripts (s : State) :
  finalState (attachDescriptor config d type contentScripts s)
  = setDescriptors (<[d := mkDescriptorAdapter type [] contentScripts]> (descriptors s)) s
  ∧ (∀ e, e ∈ effects (attachDescriptor config d type contentScripts s) → isSendEvent e = false).
Proof.
  unfold attachDescriptor, effects, finalState, bind, perform, modify, ret. simpl.
  destruct (config_addon config && contentScripts); simpl; (split; [reflexivity|]);
    intros e Hin;
    repeat (apply elem_of_cons in Hin as [->|Hin]; [reflexivity|]);
    apply elem_of_nil in Hin; contradiction.
Qed.


(** *** Counting events *)

Lemma count_silent f l :
  (∀ e, e ∈ l → f e = false) → count f l = 0%nat.
Proof.
  induction l as [|e l IH]; intros Hl; [reflexivity|].
  simpl. rewrite (Hl e) by apply list_elem_of_here.
  apply IH. intros e' He'. apply Hl. apply list_elem_of_further, He'.
Qed.

Lemma quiet_counts l id :
  (∀ e, e ∈ l → isSendEvent e = false) →
  exited id l = 0%nat ∧ exitedCustom id l = 0%nat ∧ started id l = 0%nat.
Proof.
  intros Hl. repeat split; apply count_silent; intros e He;
    specialize (Hl e He); destruct e; try reflexivity; discriminate Hl.
Qed.

Lemma exited_flat_map_other l id :
  (∀ t, t ∈ l → thread_id t ≠ id) →
  exited id (flat_map exitEvents l) = 0%nat
  ∧ exitedCustom id (flat_map exitEvents l) = 0%nat.
Proof.
  induction l as [|t l IH]; intros Hl; [split; reflexivity|].
  destruct IH as [IH1 IH2].
  { intros t' Ht'. apply Hl, list_elem_of_further, Ht'. }
  change (flat_map exitEvents (t :: l)) with (exitEvents t ++ flat_map exitEvents l).
  rewrite !count_app, IH1, IH2.
  destruct (exited_exitEvents id t) as (-> & -> & _).
  destruct (Nat.eqb_spec (thread_id t) id) as [Heq|Hne]; [|split; reflexivity].
  exfalso. exact (Hl t (list_elem_of_here _ _) Heq).
Qed.

Lemma started_flat_map l id : started id (flat_map exitEvents l) = 0%nat.
Proof.
  induction l as [|t l IH]; [reflexivity|].
  change (flat_map exitEvents (t :: l)) with (exitEvents t ++ flat_map exitEvents l).
  rewrite count_app, IH.
  destruct (exited_exitEvents id t) as (_ & _ & ->). reflexivity.
Qed.

Lemma exited_flat_map_member l t :
  NoDup (map thread_id l) → t ∈ l →
  exited (thread_id t) (flat_map exitEvents l) = 1%nat
  ∧ exitedCustom (thread_id t) (flat_map exitEvents l) = 1%nat.
Proof.
  induction l as [|t' l IH]; intros Hnodup Hin; [inversion Hin|].
  simpl in Hnodup. apply NoDup_cons in Hnodup as [Hnotin Hnodup].
  change (flat_map exitEvents (t' :: l)) with (exitEvents t' ++ flat_map exitEvents l).
  rewrite !count_app.
  destruct (exited_exitEvents (thread_id t) t') as (-> & -> & _).
  apply elem_of_cons in Hin as [->|Hin].
  - rewrite Nat.eqb_refl.
    destruct (exited_flat_map_other l (thread_id t')) as [-> ->]; [|split; reflexivity].
    intros t Ht Heq. apply Hnotin. rewrite <- Heq.
    apply list_elem_of_In, in_map, list_elem_of_In, Ht.
  - destruct (IH Hnodup Hin) as [-> ->].
    destruct (Nat.eqb_spec (thread_id t') (thread_id t)) as [Heq|Hne]; [|split; reflexivity].
    exfalso. apply Hnotin. rewrite Heq.
    apply list_elem_of_In, in_map, list_elem_of_In, Hin.
Qed.

Lemma withoutThreads_lookup l (m : gmap string ThreadAdapter) k :
  withoutThreads l m !! k
  = if bool_decide (k ∈ map thread_targetActor l) then None else m !! k.
Proof.
  revert m. induction l as [|t l IH]; intros m.
  - change (withoutThreads [] m) with m.
    change (map thread_targetActor []) with (@nil string).
    rewrite bool_decide_eq_false_2 by (intros H; inversion H). reflexivity.
  - change (withoutThreads (t :: l) m)
      with (withoutThreads l (delete (thread_targetActor t) m)).
    rewrite IH.
    change (map thread_targetActor (t :: l))
      with (thread_targetActor t :: map thread_targetActor l).
    destruct (decide (k = thread_targetActor t)) as [->|Hne].
    + rewrite lookup_delete_eq.
      rewrite (bool_decide_eq_true_2 (thread_targetActor t ∈ thread_targetActor t :: _))
        by apply list_elem_of_here.
      case_bool_decide; reflexivity.
    + rewrite lookup_delete_ne by congruence.
      destruct (decide (k ∈ map thread_targetActor l)) as [Hin|Hnotin].
      * rewrite (bool_decide_eq_true_2 _ Hin).
        rewrite bool_decide_eq_true_2 by (apply list_elem_of_further, Hin).
        reflexivity.
      * rewrite (bool_decide_eq_false_2 _ Hnotin).
        rewrite bool_decide_eq_false_2; [reflexivity|].
        intros Hin. apply elem_of_cons in Hin as [Heq|Hin]; contradiction.
Qed.

Lemma sameThread_refl t : sameThread t t = true.
Proof. apply Nat.eqb_refl. Qed.

Lemma threadsAdd_fresh t l :
  (∀ t', t' ∈ l → thread_id t' ≠ thread_id t) → threadsAdd t l = l ++ [t].
Proof.
  intros Hfresh. unfold threadsAdd.
  destruct (existsb (sameThread t) l) eqn:Hex; [|reflexivity].
  apply existsb_exists in Hex as (t' & Hin & Hsame).
  apply Nat.eqb_eq in Hsame. exfalso.
  apply (Hfresh t'); [apply list_elem_of_In, Hin|congruence].
Qed.

Lemma elem_of_threadsDelete t t' l :
  t' ∈ threadsDelete t l ↔ t' ∈ l ∧ thread_id t ≠ thread_id t'.
Proof.
  unfold threadsDelete. rewrite list_elem_of_filter. unfold sameThread.
  split; intros [H1 H2].
  - split; [exact H2|]. apply Nat.eqb_neq, H1.
  - split; [apply Nat.eqb_neq, H2|exact H1].
Qed.

(** *** The invariant *)

Lemma invariant_initial : Invariant engineStart initial [].
Proof.
  constructor; simpl.
  - intros n t H. rewrite lookup_empty in H. discriminate.
  - intros d a t H. apply not_elem_of_empty in H. contradiction.
  - intros n1 n2 t1 t2 H. rewrite lookup_empty in H. discriminate.
  - intros d a H. apply not_elem_of_empty in H. contradiction.
  - intros d H. apply not_elem_of_empty in H. contradiction.
  - intros d [a H]. rewrite lookup_empty in H. discriminate.
  - intros id. repeat split; try lia; try discriminate.
  - reflexivity.
  - reflexivity.
Qed.


Lemma exited_quiet l effs id :
  (∀ e, e ∈ l → isSendEvent e = false) → exited id (effs ++ l) = exited id effs.
Proof. intros H. rewrite count_app. destruct (quiet_counts l id H) as (-> & _ & _). lia. Qed.

Lemma exitedCustom_quiet l effs id :
  (∀ e, e ∈ l → isSendEvent e = false) → exitedCustom id (effs ++ l) = exitedCustom id effs.
Proof. intros H. rewrite count_app. destruct (quiet_counts l id H) as (_ & -> & _). lia. Qed.

Lemma started_quiet l effs id :
  (∀ e, e ∈ l → isSendEvent e = false) → started id (effs ++ l) = started id effs.
Proof. intros H. rewrite count_app. destruct (quiet_counts l id H) as (_ & _ & ->). lia. Qed.

Lemma union_other (X : gset string) d d' : d' ∈ {[d]} ∪ X → d' ≠ d → d' ∈ X.
Proof.
  intros Hin Hne. apply elem_of_union in Hin as [Hin|Hin]; [|exact Hin].
  apply elem_of_singleton in Hin. contradiction.
Qed.

Lemma union_right (X : gset string) d d' : d' ∈ X → d' ∈ {[d]} ∪ X.
Proof. intros Hin. apply elem_of_union. right. exact Hin. Qed.

Lemma union_left (X : gset string) d : d ∈ {[d]} ∪ X.
Proof. apply elem_of_union. left. apply elem_of_singleton. reflexivity. Qed.

Ltac quiet H :=
  repeat first
    [ rewrite (exited_quiet _ _ _ H)
    | rewrite (exitedCustom_quiet _ _ _ H)
    | rewrite (started_quiet _ _ _ H) ].

(** Attaching a descriptor the session has not seen yet. *)
Lemma invariant_attach e (s : State) effs d type contentScripts :
  Invariant e s effs →
  d ∉ attached e →
  Invariant (engineStep e (DescriptorAttached d type contentScripts))
    (finalState (attachDescriptor config d type contentScripts s))
    (effs ++ effects (attachDescriptor config d type contentScripts s)).
Proof.
  intros [Hreg Hown Huniq Hnodup Hlive Hatt Hcounts Hidle Hfresh] Hnew.
  destruct (attachDescriptor_run d type contentScripts s) as [-> Hquiet].
  assert (∀ d', d' ∈ live e → d' ≠ d) as Hother.
  { intros d' Hd' ->. apply Hnew, Hatt, Hlive, Hd'. }
  constructor; simpl.
  - intros n t Hn. quiet Hquiet.
    destruct (Hreg n t Hn) as (H1 & H2 & H3 & H4 & d' & a & Hd' & Ha & Ht).
    repeat split; try assumption.
    exists d', a. split; [apply union_right, Hd'|]. split; [|exact Ht].
    rewrite lookup_insert_ne; [exact Ha|]. intros ->. exact (Hother _ Hd' eq_refl).
  - intros d' a t Hd' Ha Ht.
    destruct (decide (d' = d)) as [->|Hne].
    + rewrite lookup_insert_eq in Ha. injection Ha as <-. simpl in Ht. inversion Ht.
    + rewrite lookup_insert_ne in Ha by congruence.
      apply (Hown d' a t); [exact (union_other _ _ _ Hd' Hne)|exact Ha|exact Ht].
  - exact Huniq.
  - intros d' a Hd' Ha.
    destruct (decide (d' = d)) as [->|Hne].
    + rewrite lookup_insert_eq in Ha. injection Ha as <-. simpl. constructor.
    + rewrite lookup_insert_ne in Ha by congruence.
      apply (Hnodup d' a); [exact (union_other _ _ _ Hd' Hne)|exact Ha].
  - intros d' Hd'.
    destruct (decide (d' = d)) as [->|Hne].
    + rewrite lookup_insert_eq. eauto.
    + rewrite lookup_insert_ne by congruence. apply Hlive.
      exact (union_other _ _ _ Hd' Hne).
  - intros d' Hd'.
    destruct (decide (d' = d)) as [->|Hne]; [apply union_left|].
    rewrite lookup_insert_ne in Hd' by congruence. apply union_right, Hatt, Hd'.
  - intros id. quiet Hquiet. exact (Hcounts id).
  - exact Hidle.
  - intros id Hid. quiet Hquiet. exact (Hfresh id Hid).
Qed.

(** A registered target is a live target of the engine. *)
Lemma registered_is_target e (s : State) effs n t :
  Invariant e s effs →
  threadsByTargetActorName s !! n = Some t →
  ∃ d, targets e !! n = Some d ∧ d ∈ live e.
Proof.
  intros Hinv Hn.
  destruct (inv_registered _ _ _ Hinv n t Hn) as (Htarget & _ & _ & _ & d & a & Hd & Ha & Ht).
  destruct (inv_owned _ _ _ Hinv d a t Hd Ha Ht) as [_ Htargets].
  rewrite Htarget in Htargets. eauto.
Qed.

(** A target that is announced and skipped. *)
Lemma invariant_skip e (s : State) effs d adapter targetActor threadActor consoleActor :
  Invariant e s effs →
  descriptors s !! d = Some adapter →
  targets e !! targetActor_name targetActor = None →
  skipTarget config (descriptor_type adapter) (targetActor_target targetActor) = true →
  Invariant (engineStep e (TargetAvailable d targetActor threadActor consoleActor))
    (finalState (handleUninterrupted shortenUrl config
                   (TargetAvailable d targetActor threadActor consoleActor) s))
    (effs ++ effects (handleUninterrupted shortenUrl config
                        (TargetAvailable d targetActor threadActor consoleActor) s)).
Proof.
  intros Hinv Hadapter Hfree Hskip.
  destruct (handleUninterrupted_skip d adapter targetActor threadActor consoleActor s
              Hadapter (inv_idle _ _ _ Hinv) Hskip) as [-> ->].
  assert (∀ e0, e0 ∈ [Log warn "Not attaching to this thread"; ResumeWhenPaused threadActor] →
                isSendEvent e0 = false) as Hquiet.
  { intros e0 Hin. repeat (apply elem_of_cons in Hin as [->|Hin]; [reflexivity|]).
    inversion Hin. }
  destruct Hinv as [Hreg Hown Huniq Hnodup Hlive Hatt Hcounts Hidle Hfresh].
  constructor; simpl.
  - intros n t Hn. quiet Hquiet. exact (Hreg n t Hn).
  - intros d' a t Hd' Ha Ht. destruct (Hown d' a t Hd' Ha Ht) as [H1 H2].
    split; [exact H1|]. rewrite lookup_insert_ne; [exact H2|].
    intros Heq. rewrite <- Heq, Hfree in H2. discriminate.
  - exact Huniq.
  - exact Hnodup.
  - exact Hlive.
  - exact Hatt.
  - intros id. quiet Hquiet. exact (Hcounts id).
  - exact Hidle.
  - intros id Hid. quiet Hquiet. exact (Hfresh id Hid).
Qed.

(** A target that is announced and attached. *)
Lemma invariant_available e (s : State) effs d adapter targetActor threadActor consoleActor :
  Invariant e s effs →
  d ∈ live e →
  descriptors s !! d = Some adapter →
  targets e !! targetActor_name targetActor = None →
  skipTarget config (descriptor_type adapter) (targetActor_target targetActor) = false →
  Invariant (engineStep e (TargetAvailable d targetActor threadActor consoleActor))
    (finalState (handleUninterrupted shortenUrl config
                   (TargetAvailable d targetActor threadActor consoleActor) s))
    (effs ++ effects (handleUninterrupted shortenUrl config
                        (TargetAvailable d targetActor threadActor consoleActor) s)).
Proof.
  intros Hinv Hd Hadapter Hfree Hskip.
  destruct (onTargetAvailable_attach d adapter targetActor threadActor consoleActor s
              Hadapter (inv_idle _ _ _ Hinv) Hskip) as [-> ->].
  set (t := mkThreadAdapter (Registry.nextId (threads s))
              (threadTypeAndName shortenUrl (descriptor_type adapter) targetActor).1
              (threadTypeAndName shortenUrl (descriptor_type adapter) targetActor).2
              (targetActor_name targetActor) threadActor).
  assert (threadsByTargetActorName s !! (targetActor_name targetActor) = None) as Hnone.
  { destruct (threadsByTargetActorName s !! (targetActor_name targetActor)) as [t0|] eqn:Hn; [|reflexivity].
    destruct (registered_is_target _ _ _ _ _ Hinv Hn) as (d0 & Hd0 & _). congruence. }
  destruct Hinv as [Hreg Hown Huniq Hnodup Hlive Hatt Hcounts Hidle Hfresh].
  assert (∀ n' t', threadsByTargetActorName s !! n' = Some t' →
                   thread_id t' ≠ Registry.nextId (threads s)) as Hids.
  { intros n' t' Hn'. destruct (Hreg n' t' Hn') as (_ & Hlt & _). lia. }
  assert (∀ t', t' ∈ adapter_threads adapter → thread_id t' ≠ thread_id t) as Hl.
  { intros t' Ht'. destruct (Hown d adapter t' Hd Hadapter Ht') as [Hn' _].
    exact (Hids _ _ Hn'). }
  pose proof (threadsAdd_fresh t _ Hl) as Hadd.
  assert (∀ id, exited id (effs ++ [Log info ("Attaching " +:+ thread_name t);
                  SendEvent (DAP.ThreadEvent "started" (thread_id t));
                  SendEvent (DAP.CustomEvent "threadStarted"
                    (DAP.ThreadStartedEventBody (thread_name t) (thread_id t)))])
                = exited id effs) as Hc1.
  { intros id. rewrite count_app. simpl. lia. }
  assert (∀ id, exitedCustom id (effs ++ [Log info ("Attaching " +:+ thread_name t);
                  SendEvent (DAP.ThreadEvent "started" (thread_id t));
                  SendEvent (DAP.CustomEvent "threadStarted"
                    (DAP.ThreadStartedEventBody (thread_name t) (thread_id t)))])
                = exitedCustom id effs) as Hc2.
  { intros id. rewrite count_app. simpl. lia. }
  assert (∀ id, started id (effs ++ [Log info ("Attaching " +:+ thread_name t);
                  SendEvent (DAP.ThreadEvent "started" (thread_id t));
                  SendEvent (DAP.CustomEvent "threadStarted"
                    (DAP.ThreadStartedEventBody (thread_name t) (thread_id t)))])
                = (started id effs
                   + (if (Registry.nextId (threads s) =? id)%nat then 1 else 0))%nat) as Hc3.
  { intros id. rewrite count_app. simpl. lia. }
  assert (∀ id, id ≠ Registry.nextId (threads s) →
                ((Registry.nextId (threads s) =? id)%nat = false)) as Hneq.
  { intros id Hid. apply Nat.eqb_neq. congruence. }
  assert (started (Registry.nextId (threads s)) effs = 0%nat) as Hzero.
  { apply Hfresh. lia. }
  constructor; simpl.
  - (* registered *)
    intros n t0 Hn. rewrite Hc1, Hc3.
    destruct (decide (n = (targetActor_name targetActor))) as [->|Hne].
    + rewrite lookup_insert_eq in Hn. injection Hn as <-. simpl.
      rewrite Nat.eqb_refl, Hzero.
      destruct (Hcounts (Registry.nextId (threads s))) as (_ & Hle & _).
      split; [reflexivity|]. split; [lia|]. split; [reflexivity|]. split; [lia|].
      exists d, (setAdapterThreads (adapter_threads adapter ++ [t]) adapter).
      split; [exact Hd|]. split.
      * rewrite lookup_alter_eq, Hadapter. simpl. rewrite Hadd. reflexivity.
      * simpl. apply elem_of_app. right. apply list_elem_of_here.
    + rewrite lookup_insert_ne in Hn by congruence.
      destruct (Hreg n t0 Hn) as (H1 & H2 & H3 & H4 & d0 & a0 & Hd0 & Ha0 & Ht0).
      rewrite (Hneq _ (Hids _ _ Hn)).
      split; [exact H1|]. split; [lia|]. split; [lia|]. split; [exact H4|].
      destruct (decide (d0 = d)) as [->|Hned].
      * exists d, (setAdapterThreads (adapter_threads adapter ++ [t]) adapter).
        split; [exact Hd|]. split.
        { rewrite lookup_alter_eq, Hadapter. simpl. rewrite Hadd. reflexivity. }
        simpl. apply elem_of_app. left. congruence.
      * exists d0, a0. split; [exact Hd0|]. split; [|exact Ht0].
        rewrite lookup_alter_ne by congruence. exact Ha0.
  - (* owned *)
    intros d' a' t' Hd' Ha' Ht'.
    assert (t' = t ∧ d' = d
            ∨ ∃ a0, descriptors s !! d' = Some a0 ∧ t' ∈ adapter_threads a0) as [[-> ->]|Hold].
    { destruct (decide (d' = d)) as [->|Hned].
      - rewrite lookup_alter_eq, Hadapter in Ha'. injection Ha' as <-. simpl in Ht'.
        rewrite Hadd in Ht'.
        apply elem_of_app in Ht' as [Ht'|Ht'].
        + right. eauto.
        + left. apply list_elem_of_singleton in Ht'. auto.
      - rewrite lookup_alter_ne in Ha' by congruence. right. eauto. }
    + simpl. rewrite !lookup_insert_eq. split; reflexivity.
    + destruct Hold as (a0 & Ha0 & Ht0).
      destruct (Hown d' a0 t' Hd' Ha0 Ht0) as [H1 H2].
      assert (thread_targetActor t' ≠ (targetActor_name targetActor)) as Hother.
      { intros Heq. rewrite Heq in H1. congruence. }
      rewrite !lookup_insert_ne by congruence. split; assumption.
  - (* unique *)
    intros n1 n2 t1 t2 Hn1 Hn2 Heq.
    destruct (decide (n1 = (targetActor_name targetActor))) as [->|Hne1]; destruct (decide (n2 = (targetActor_name targetActor))) as [->|Hne2];
      try reflexivity.
    + rewrite lookup_insert_eq in Hn1. injection Hn1 as <-.
      rewrite lookup_insert_ne in Hn2 by congruence.
      exfalso. apply (Hids _ _ Hn2). simpl in Heq. congruence.
    + rewrite lookup_insert_eq in Hn2. injection Hn2 as <-.
      rewrite lookup_insert_ne in Hn1 by congruence.
      exfalso. apply (Hids _ _ Hn1). simpl in Heq. congruence.
    + rewrite lookup_insert_ne in Hn1, Hn2 by congruence.
      exact (Huniq _ _ _ _ Hn1 Hn2 Heq).
  - (* no duplicates *)
    intros d' a' Hd' Ha'.
    destruct (decide (d' = d)) as [->|Hned].
    + rewrite lookup_alter_eq, Hadapter in Ha'. injection Ha' as <-. simpl.
      rewrite Hadd. apply NoDup_app. split; [exact (Hnodup d adapter Hd Hadapter)|].
      split; [|apply NoDup_singleton].
      intros t' Ht' Hin. apply list_elem_of_singleton in Hin. subst t'.
      exact (Hl t Ht' eq_refl).
    + rewrite lookup_alter_ne in Ha' by congruence. exact (Hnodup d' a' Hd' Ha').
  - (* live *)
    intros d' Hd'. destruct (Hlive d' Hd') as [a0 Ha0].
    destruct (decide (d' = d)) as [->|Hned].
    + rewrite lookup_alter_eq, Ha0. simpl. eauto.
    + rewrite lookup_alter_ne by congruence. eauto.
  - (* attached *)
    intros d' [a' Ha']. apply Hatt.
    destruct (decide (d' = d)) as [->|Hned].
    + eauto.
    + rewrite lookup_alter_ne in Ha' by congruence. eauto.
  - (* counts *)
    intros id. rewrite Hc1, Hc2, Hc3.
    destruct (Hcounts id) as (H1 & H2 & H3 & H4).
    destruct (decide (id = Registry.nextId (threads s))) as [->|Hne].
    + rewrite Nat.eqb_refl, Hzero in *.
      split; [exact H1|]. split; [lia|]. split; [lia|]. intros _. left.
      exists (targetActor_name targetActor), t. split; [apply lookup_insert_eq|reflexivity].
    + rewrite (Hneq id Hne).
      split; [exact H1|]. split; [lia|]. split; [lia|]. intros Hstarted.
      destruct H4 as [(n0 & t0 & Hn0 & Hid0)|Hexited]; [lia| |right; exact Hexited].
      left. exists n0, t0. simpl. split; [|exact Hid0].
      rewrite lookup_insert_ne; [exact Hn0|]. intros Heq. rewrite <- Heq in Hn0. congruence.
  - (* idle *)
    reflexivity.
  - (* fresh *)
    intros id Hid. rewrite Hc3. rewrite Hfresh by lia.
    rewrite Hneq by lia. reflexivity.
Qed.


(** The destruction of a target the session has no thread for. *)
Lemma invariant_destroyed_unknown e (s : State) effs d n :
  Invariant e s effs →
  threadsByTargetActorName s !! n = None →
  Invariant (engineStep e (TargetDestroyed d n))
    (finalState (onTargetDestroyed config d n s))
    (effs ++ effects (onTargetDestroyed config d n s)).
Proof.
  intros Hinv Hnone. rewrite (onTargetDestroyed_unknown d n s Hnone).
  unfold finalState, effects. simpl.
  assert (∀ e0, e0 ∈ [Log debug ("Unknown target actor " +:+ n +:+ " (already destroyed?)")] →
                isSendEvent e0 = false) as Hquiet.
  { intros e0 Hin. apply list_elem_of_singleton in Hin as ->. reflexivity. }
  destruct Hinv as [Hreg Hown Huniq Hnodup Hlive Hatt Hcounts Hidle Hfresh].
  constructor; simpl.
  - intros n' t Hn'. quiet Hquiet. exact (Hreg n' t Hn').
  - intros d' a t Hd' Ha Ht. destruct (Hown d' a t Hd' Ha Ht) as [H1 H2].
    split; [exact H1|]. rewrite lookup_delete_ne; [exact H2|].
    intros Heq. rewrite <- Heq in H1. congruence.
  - exact Huniq.
  - exact Hnodup.
  - exact Hlive.
  - exact Hatt.
  - intros id. quiet Hquiet. exact (Hcounts id).
  - exact Hidle.
  - intros id Hid. quiet Hquiet. exact (Hfresh id Hid).
Qed.

(** The destruction of a target whose thread is registered, announced by
    the watcher of the target's own descriptor. *)
Lemma invariant_destroyed_known e (s : State) effs d n t :
  Invariant e s effs →
  threadsByTargetActorName s !! n = Some t →
  targets e !! n = Some d →
  Invariant (engineStep e (TargetDestroyed d n))
    (finalState (onTargetDestroyed config d n s))
    (effs ++ effects (onTargetDestroyed config d n s))
  ∧ exited (thread_id t) (effects (onTargetDestroyed config d n s)) = 1%nat.
Proof.
  intros Hinv Hn Htargets.
  destruct (onTargetDestroyed_known d n t s Hn) as (-> & clear & -> & Hclear).
  destruct Hinv as [Hreg Hown Huniq Hnodup Hlive Hatt Hcounts Hidle Hfresh].
  destruct (Hreg n t Hn) as (Htarget & Hlt & Hstarted & Hexited & d0 & a0 & Hd0 & Ha0 & Ht0).
  assert (d0 = d) as ->.
  { destruct (Hown d0 a0 t Hd0 Ha0 Ht0) as [_ H]. rewrite Htarget in H. congruence. }
  assert (∀ id, exited id (clear ++ [SetTargetDestroyed (thread_targetActor t)]
                             ++ exitEvents t ++ [DisposeThreadAdapter (thread_id t)])
                = (if (thread_id t =? id)%nat then 1 else 0)%nat) as Hc1.
  { intros id. destruct Hclear as [-> | ->]; simpl; destruct (thread_id t =? id)%nat; reflexivity. }
  assert (∀ id, exitedCustom id (clear ++ [SetTargetDestroyed (thread_targetActor t)]
                             ++ exitEvents t ++ [DisposeThreadAdapter (thread_id t)])
                = (if (thread_id t =? id)%nat then 1 else 0)%nat) as Hc2.
  { intros id. destruct Hclear as [-> | ->]; simpl; destruct (thread_id t =? id)%nat; reflexivity. }
  assert (∀ id, started id (clear ++ [SetTargetDestroyed (thread_targetActor t)]
                             ++ exitEvents t ++ [DisposeThreadAdapter (thread_id t)])
                = 0%nat) as Hc3.
  { intros id. destruct Hclear as [-> | ->]; reflexivity. }
  assert (∀ n' t', n' ≠ n → threadsByTargetActorName s !! n' = Some t' →
                   (thread_id t =? thread_id t')%nat = false) as Hdiff.
  { intros n' t' Hne Hn'. apply Nat.eqb_neq. intros Heq.
    apply Hne. exact (Huniq _ _ _ _ Hn' Hn (eq_sym Heq)). }
  split; [|rewrite Hc1, Nat.eqb_refl; reflexivity].
  constructor; simpl.
  - (* registered *)
    intros n' t' Hn'.
    destruct (decide (n' = n)) as [->|Hne]; [rewrite lookup_delete_eq in Hn'; discriminate|].
    rewrite lookup_delete_ne in Hn' by congruence.
    rewrite !count_app with (l1 := effs), Hc1, Hc3, (Hdiff n' t' Hne Hn').
    destruct (Hreg n' t' Hn') as (H1 & H2 & H3 & H4 & d1 & a1 & Hd1 & Ha1 & Ht1).
    split; [exact H1|]. split; [exact H2|]. split; [lia|]. split; [lia|].
    destruct (decide (d1 = d)) as [->|Hned].
    + exists d, (setAdapterThreads (threadsDelete t (adapter_threads a1)) a1).
      split; [exact Hd1|]. split.
      * rewrite lookup_alter_eq, Ha1. reflexivity.
      * simpl. apply elem_of_threadsDelete. split; [exact Ht1|].
        apply Nat.eqb_neq. exact (Hdiff n' t' Hne Hn').
    + exists d1, a1. split; [exact Hd1|]. split; [|exact Ht1].
      rewrite lookup_alter_ne by congruence. exact Ha1.
  - (* owned *)
    intros d' a' t' Hd' Ha' Ht'.
    assert (∃ a1, descriptors s !! d' = Some a1 ∧ t' ∈ adapter_threads a1
                  ∧ (d' = d → thread_id t ≠ thread_id t')) as (a1 & Ha1 & Ht1 & Hsame).
    { destruct (decide (d' = d)) as [->|Hned].
      - rewrite lookup_alter_eq, Ha0 in Ha'. injection Ha' as <-. simpl in Ht'.
        apply elem_of_threadsDelete in Ht' as [Ht' Hid]. eauto.
      - rewrite lookup_alter_ne in Ha' by congruence. exists a'.
        split; [exact Ha'|]. split; [exact Ht'|]. intros Heq. contradiction. }
    destruct (Hown d' a1 t' Hd' Ha1 Ht1) as [H1 H2].
    assert (thread_targetActor t' ≠ n) as Hother.
    { intros Heq. rewrite Heq in H1, H2.
      assert (d' = d) as Hd by congruence.
      apply (Hsame Hd). congruence. }
    rewrite !lookup_delete_ne by congruence. split; assumption.
  - (* unique *)
    intros n1 n2 t1 t2 Hn1 Hn2.
    apply (Huniq n1 n2 t1 t2).
    + destruct (decide (n1 = n)) as [->|Hne];
        [rewrite lookup_delete_eq in Hn1; discriminate|].
      rewrite lookup_delete_ne in Hn1 by congruence. exact Hn1.
    + destruct (decide (n2 = n)) as [->|Hne];
        [rewrite lookup_delete_eq in Hn2; discriminate|].
      rewrite lookup_delete_ne in Hn2 by congruence. exact Hn2.
  - (* no duplicates *)
    intros d' a' Hd' Ha'.
    destruct (decide (d' = d)) as [->|Hned].
    + rewrite lookup_alter_eq, Ha0 in Ha'. injection Ha' as <-. simpl.
      unfold threadsDelete. apply NoDup_filter. exact (Hnodup d a0 Hd0 Ha0).
    + rewrite lookup_alter_ne in Ha' by congruence. exact (Hnodup d' a' Hd' Ha').
  - (* live *)
    intros d' Hd'. destruct (Hlive d' Hd') as [a1 Ha1].
    destruct (decide (d' = d)) as [->|Hned].
    + rewrite lookup_alter_eq, Ha1. simpl. eauto.
    + rewrite lookup_alter_ne by congruence. eauto.
  - (* attached *)
    intros d' [a' Ha']. apply Hatt.
    destruct (decide (d' = d)) as [->|Hned].
    + eauto.
    + rewrite lookup_alter_ne in Ha' by congruence. eauto.
  - (* counts *)
    intros id. rewrite !count_app with (l1 := effs), Hc1, Hc2, Hc3.
    destruct (Hcounts id) as (H1 & H2 & H3 & H4).
    destruct (Nat.eqb_spec (thread_id t) id) as [Heq|Hne].
    + subst id. split; [lia|]. split; [lia|]. split; [lia|]. intros _. right. lia.
    + split; [lia|]. split; [lia|]. split; [lia|]. intros Hst.
      destruct H4 as [(n0 & t0 & Hn0 & Hid0)|Hex]; [lia| |right; lia].
      left. exists n0, t0. simpl. split; [|exact Hid0].
      rewrite lookup_delete_ne; [exact Hn0|].
      intros Heq. rewrite <- Heq in Hn0. congruence.
  - (* idle *)
    exact Hidle.
  - (* fresh *)
    intros id Hid. rewrite count_app, Hc3. rewrite Hfresh by exact Hid. reflexivity.
Qed.


Lemma elem_of_map_targets k l :
  k ∈ map thread_targetActor l ↔ ∃ t, t ∈ l ∧ thread_targetActor t = k.
Proof.
  rewrite list_elem_of_In, in_map_iff. split; intros (t & H1 & H2); exists t.
  - split; [apply list_elem_of_In, H2|exact H1].
  - split; [exact H2|apply list_elem_of_In, H1].
Qed.

(** The destruction of a live descriptor. *)
Lemma invariant_descriptor_destroyed e (s : State) effs d adapter :
  Invariant e s effs →
  d ∈ live e →
  descriptors s !! d = Some adapter →
  Invariant (engineStep e (DescriptorDestroyed d))
    (finalState (onDestroyed d adapter s))
    (effs ++ effects (onDestroyed d adapter s)).
Proof.
  intros Hinv Hd Hadapter.
  destruct (onDestroyed_run d adapter s) as [-> ->].
  destruct Hinv as [Hreg Hown Huniq Hnodup Hlive Hatt Hcounts Hidle Hfresh].
  set (l := adapter_threads adapter) in *.
  assert (∀ t, t ∈ l → threadsByTargetActorName s !! thread_targetActor t = Some t
                        ∧ targets e !! thread_targetActor t = Some d) as Hl.
  { intros t Ht. exact (Hown d adapter t Hd Hadapter Ht). }
  assert (∀ t1 t2, t1 ∈ l → t2 ∈ l → thread_id t1 = thread_id t2 → t1 = t2) as Hinj.
  { intros t1 t2 H1 H2 Heq.
    destruct (Hl t1 H1) as [Hn1 _]. destruct (Hl t2 H2) as [Hn2 _].
    pose proof (Huniq _ _ _ _ Hn1 Hn2 Heq) as Hname. rewrite Hname in Hn1. congruence. }
  assert (NoDup (map thread_id l)) as Hids.
  { apply (NoDup_fmap_2_strong thread_id l Hinj). exact (Hnodup d adapter Hd Hadapter). }
  assert (∀ id, exited id (flat_map exitEvents l ++ [DisposeDescriptorAdapter d])
                = exited id (flat_map exitEvents l)) as Hc1.
  { intros id. rewrite count_app. simpl. lia. }
  assert (∀ id, exitedCustom id (flat_map exitEvents l ++ [DisposeDescriptorAdapter d])
                = exitedCustom id (flat_map exitEvents l)) as Hc2.
  { intros id. rewrite count_app. simpl. lia. }
  assert (∀ id, started id (flat_map exitEvents l ++ [DisposeDescriptorAdapter d]) = 0%nat)
    as Hc3.
  { intros id. rewrite count_app, started_flat_map. reflexivity. }
  assert (∀ n' t', withoutThreads l (threadsByTargetActorName s) !! n' = Some t' →
                   threadsByTargetActorName s !! n' = Some t'
                   ∧ n' ∉ map thread_targetActor l) as Hleft.
  { intros n' t' Hn'. rewrite withoutThreads_lookup in Hn'.
    destruct (decide (n' ∈ map thread_targetActor l)) as [Hin|Hnotin].
    - rewrite (bool_decide_eq_true_2 _ Hin) in Hn'. discriminate.
    - rewrite (bool_decide_eq_false_2 _ Hnotin) in Hn'. auto. }
  assert (∀ n' t', threadsByTargetActorName s !! n' = Some t' →
                   n' ∉ map thread_targetActor l →
                   withoutThreads l (threadsByTargetActorName s) !! n' = Some t') as Hkept.
  { intros n' t' Hn' Hnotin. rewrite withoutThreads_lookup.
    rewrite (bool_decide_eq_false_2 _ Hnotin). exact Hn'. }
  assert (∀ n' t', threadsByTargetActorName s !! n' = Some t' →
                   n' ∉ map thread_targetActor l →
                   ∀ t, t ∈ l → thread_id t ≠ thread_id t') as Hdiff.
  { intros n' t' Hn' Hnotin t Ht Heq.
    destruct (Hl t Ht) as [Hn _].
    apply Hnotin. rewrite <- (Huniq _ _ _ _ Hn Hn' Heq).
    apply elem_of_map_targets. eauto. }
  constructor; simpl.
  - (* registered *)
    intros n' t' Hn'. destruct (Hleft n' t' Hn') as [Hold Hnotin].
    rewrite !count_app with (l1 := effs), Hc1, Hc3.
    destruct (exited_flat_map_other l (thread_id t') (Hdiff n' t' Hold Hnotin)) as [-> _].
    destruct (Hreg n' t' Hold) as (H1 & H2 & H3 & H4 & d1 & a1 & Hd1 & Ha1 & Ht1).
    split; [exact H1|]. split; [exact H2|]. split; [lia|]. split; [lia|].
    exists d1, a1. split; [|split; [exact Ha1|exact Ht1]].
    apply elem_of_difference. split; [exact Hd1|].
    intros Heq. apply elem_of_singleton in Heq. subst d1.
    apply Hnotin. apply elem_of_map_targets. exists t'.
    split; [|exact H1]. unfold l. congruence.
  - (* owned *)
    intros d' a' t' Hd' Ha' Ht'.
    apply elem_of_difference in Hd' as [Hd' Hned].
    assert (d' ≠ d) as Hne by (intros ->; apply Hned, elem_of_singleton; reflexivity).
    destruct (Hown d' a' t' Hd' Ha' Ht') as [H1 H2].
    split.
    + apply Hkept; [exact H1|].
      intros Hin. apply elem_of_map_targets in Hin as (t & Ht & Heq).
      destruct (Hl t Ht) as [_ Htd]. rewrite Heq in Htd. congruence.
    + apply map_lookup_filter_Some. split; [exact H2|exact Hne].
  - (* unique *)
    intros n1 n2 t1 t2 Hn1 Hn2.
    destruct (Hleft _ _ Hn1) as [Ho1 _]. destruct (Hleft _ _ Hn2) as [Ho2 _].
    exact (Huniq _ _ _ _ Ho1 Ho2).
  - (* no duplicates *)
    intros d' a' Hd' Ha'. apply elem_of_difference in Hd' as [Hd' _].
    exact (Hnodup d' a' Hd' Ha').
  - (* live *)
    intros d' Hd'. apply elem_of_difference in Hd' as [Hd' _]. exact (Hlive d' Hd').
  - exact Hatt.
  - (* counts *)
    intros id. rewrite !count_app with (l1 := effs), Hc1, Hc2, Hc3.
    destruct (Hcounts id) as (H1 & H2 & H3 & H4).
    destruct (decide (id ∈ map thread_id l)) as [Hin|Hnotin].
    + apply list_elem_of_In, in_map_iff in Hin as (t & <- & Ht).
      apply list_elem_of_In in Ht.
      destruct (exited_flat_map_member l t Hids Ht) as [-> ->].
      destruct (Hl t Ht) as [Hn _].
      destruct (Hreg _ _ Hn) as (_ & _ & Hst & Hex & _).
      split; [lia|]. split; [lia|]. split; [lia|]. intros _. right. lia.
    + destruct (exited_flat_map_other l id) as [-> ->].
      { intros t Ht Heq. apply Hnotin. rewrite <- Heq.
        apply list_elem_of_In, in_map, list_elem_of_In, Ht. }
      split; [lia|]. split; [lia|]. split; [lia|]. intros Hst.
      destruct H4 as [(n0 & t0 & Hn0 & Hid0)|Hex]; [lia| |right; lia].
      left. exists n0, t0. simpl. split; [|exact Hid0].
      apply Hkept; [exact Hn0|].
      intros Hin. apply elem_of_map_targets in Hin as (t & Ht & Heq).
      destruct (Hl t Ht) as [Hn _]. rewrite Heq in Hn.
      assert (t0 = t) as -> by congruence.
      apply Hnotin. rewrite <- Hid0.
      apply list_elem_of_In, in_map, list_elem_of_In, Ht.
  - (* idle *)
    exact Hidle.
  - (* fresh *)
    intros id Hid. rewrite count_app, Hc3. rewrite Hfresh by exact Hid. reflexivity.
Qed.

(** *** Every input of a well-formed sequence preserves the invariant *)

Lemma handle_available_done d targetActor threadActor consoleActor (s : State) :
  outcome (handle shortenUrl config (TargetAvailable d targetActor threadActor consoleActor) s)
  = Done tt.
Proof.
  destruct (descriptors s !! d) as [adapter|] eqn:Hadapter.
  - rewrite (handle_available _ _ _ _ _ _ Hadapter).
    destruct (skipTarget config (descriptor_type adapter) (targetActor_target targetActor))
      eqn:Hskip.
    + apply (onTargetAvailable_skip d adapter targetActor threadActor consoleActor s Hskip).
    + apply (onTargetAvailable_suspends d adapter targetActor threadActor consoleActor s Hskip).
  - unfold handle, bind, get. simpl. rewrite Hadapter. reflexivity.
Qed.

Lemma run_app l1 l2 (s : State) :
  run shortenUrl config (l1 ++ l2) s
  = ((run shortenUrl config l2 (run shortenUrl config l1 s).1).1,
     (run shortenUrl config l1 s).2 ++ (run shortenUrl config l2 (run shortenUrl config l1 s).1).2).
Proof.
  revert s. induction l1 as [|input l1 IH]; intros s; simpl.
  - destruct (run shortenUrl config l2 s). reflexivity.
  - rewrite IH.
    destruct (run shortenUrl config l1 (finalState (handle shortenUrl config input s)))
      as [s1 effs1].
    simpl. rewrite app_assoc. reflexivity.
Qed.

(** The run of an uninterrupted schedule, input by input. *)
Lemma run_uninterrupted_cons input inputs (s : State) :
  run shortenUrl config (uninterrupted (input :: inputs)) s
  = ((run shortenUrl config (uninterrupted inputs)
        (finalState (handleUninterrupted shortenUrl config input s))).1,
     effects (handleUninterrupted shortenUrl config input s)
       ++ (run shortenUrl config (uninterrupted inputs)
             (finalState (handleUninterrupted shortenUrl config input s))).2).
Proof.
  assert (uninterrupted (input :: inputs) = uninterrupted [input] ++ uninterrupted inputs)
    as -> by (unfold uninterrupted; simpl; rewrite app_nil_r; reflexivity).
  rewrite run_app.
  assert (run shortenUrl config (uninterrupted [input]) s
          = (finalState (handleUninterrupted shortenUrl config input s),
             effects (handleUninterrupted shortenUrl config input s))) as ->; [|reflexivity].
  destruct input as [d type cs|d targetActor threadActor consoleActor|d n|d|k];
    try (simpl; rewrite app_nil_r; reflexivity).
  unfold handleUninterrupted.
  destruct (bind_done _ (fun _ => handle shortenUrl config (Continued 0)) s tt
              (handle_available_done d targetActor threadActor consoleActor s)) as [-> ->].
  simpl. rewrite app_nil_r. reflexivity.
Qed.

Lemma invariant_step e (s : State) effs input :
  Invariant e s effs →
  allowed e input = true →
  Invariant (engineStep e input)
    (finalState (handleUninterrupted shortenUrl config input s))
    (effs ++ effects (handleUninterrupted shortenUrl config input s)).
Proof.
  intros Hinv Hallowed.
  destruct input as [d type cs|d targetActor threadActor consoleActor|d n|d|k];
    unfold allowed in Hallowed.
  - apply bool_decide_eq_true in Hallowed.
    exact (invariant_attach e s effs d type cs Hinv Hallowed).
  - apply andb_true_iff in Hallowed as [Hd Hfree].
    apply bool_decide_eq_true in Hd. apply bool_decide_eq_true in Hfree.
    destruct (inv_live _ _ _ Hinv d Hd) as [adapter Hadapter].
    destruct (skipTarget config (descriptor_type adapter) (targetActor_target targetActor))
      eqn:Hskip.
    + exact (invariant_skip e s effs d adapter _ _ _ Hinv Hadapter Hfree Hskip).
    + exact (invariant_available e s effs d adapter _ _ _ Hinv Hd Hadapter Hfree Hskip).
  - apply andb_true_iff in Hallowed as [Hd Hown].
    apply bool_decide_eq_true in Hd. apply bool_decide_eq_true in Hown.
    destruct (inv_live _ _ _ Hinv d Hd) as [adapter Hadapter].
    unfold handleUninterrupted.
    assert (handle shortenUrl config (TargetDestroyed d n) s = onTargetDestroyed config d n s)
      as ->.
    { unfold handle, bind, get. simpl. rewrite Hadapter.
      destruct (onTargetDestroyed _ _ _ _) as [[s' tr] o]. reflexivity. }
    destruct (threadsByTargetActorName s !! n) as [t|] eqn:Hn.
    + destruct (registered_is_target _ _ _ _ _ Hinv Hn) as (d0 & Hd0 & _).
      assert (targets e !! n = Some d) as Htargets.
      { destruct Hown as [Hnone|Hsome]; [congruence|exact Hsome]. }
      exact (proj1 (invariant_destroyed_known e s effs d n t Hinv Hn Htargets)).
    + exact (invariant_destroyed_unknown e s effs d n Hinv Hn).
  - apply bool_decide_eq_true in Hallowed.
    destruct (inv_live _ _ _ Hinv d Hallowed) as [adapter Hadapter].
    unfold handleUninterrupted.
    assert (handle shortenUrl config (DescriptorDestroyed d) s = onDestroyed d adapter s) as ->.
    { unfold handle, bind, get. simpl. rewrite Hadapter.
      destruct (onDestroyed _ _ _) as [[s' tr] o]. reflexivity. }
    exact (invariant_descriptor_destroyed e s effs d adapter Hinv Hallowed Hadapter).
  - unfold handleUninterrupted.
    rewrite (handle_continued_idle k s (inv_idle _ _ _ Hinv)).
    simpl. rewrite app_nil_r. exact Hinv.
Qed.

Lemma invariant_run inputs : ∀ e (s : State) effs,
  Invariant e s effs →
  wellFormed e inputs = true →
  Invariant (engineRun e inputs) (run shortenUrl config (uninterrupted inputs) s).1
    (effs ++ (run shortenUrl config (uninterrupted inputs) s).2).
Proof.
  induction inputs as [|input inputs IH]; intros e s effs Hinv Hwf.
  - simpl. rewrite app_nil_r. exact Hinv.
  - simpl in Hwf. apply andb_true_iff in Hwf as [Hallowed Hwf].
    pose proof (invariant_step e s effs input Hinv Hallowed) as Hstep.
    specialize (IH _ _ _ Hstep Hwf).
    rewrite run_uninterrupted_cons. cbn [fst snd]. rewrite app_assoc. exact IH.
Qed.

(** When no handler runs while another is suspended, the two thread-exited
    events of a thread are sent equally often and at most once, and they
    have been sent exactly once for precisely the threads that were started
    and are no longer attached. *)
Lemma exited_once_when_uninterrupted (inputs : list Input) :
  wellFormed engineStart inputs = true →
  ∀ id,
    exited id (run shortenUrl config (uninterrupted inputs) initial).2
    = exitedCustom id (run shortenUrl config (uninterrupted inputs) initial).2
    ∧ (exited id (run shortenUrl config (uninterrupted inputs) initial).2 ≤ 1)%nat
    ∧ (exited id (run shortenUrl config (uninterrupted inputs) initial).2 = 1%nat
       ↔ started id (run shortenUrl config (uninterrupted inputs) initial).2 = 1%nat
         ∧ ¬ isAttached id (run shortenUrl config (uninterrupted inputs) initial).1).
Proof.
  intros Hwf id.
  pose proof (invariant_run inputs engineStart initial [] invariant_initial Hwf) as Hinv.
  simpl in Hinv.
  destruct (inv_counts _ _ _ Hinv id) as (Heq & Hle & Hone & Hgone).
  split; [exact Heq|]. split; [lia|]. split.
  - intros Hex. split; [lia|].
    intros (n & t & Hn & Hid).
    destruct (inv_registered _ _ _ Hinv n t Hn) as (_ & _ & _ & Hzero & _).
    rewrite Hid in Hzero. lia.
  - intros [Hst Hnot]. destruct (Hgone Hst) as [Hatt|Hex]; [contradiction|exact Hex].
Qed.

(** C6: the code at a schedule it can meet.  A tab's page target is
    announced and, while the handler of the announcement waits at
    [await this.attachThread(...)], its destruction is announced; then the
    handler goes on with [adapter.threads.add(threadAdapter)], and the tab
    is closed.  The schedule is well-formed, the thread is started once,
    and each of its two thread-exited events is sent twice: by
    [onTargetDestroyed], and again by [onDestroyed], which finds the thread
    that the continuation has put back.  The second half of the claim holds:
    a target-destroyed event that names a target without a registered
    thread adapter only writes a debug log line, the session stays as it
    was and no event is sent. *)
Theorem thread_exited_twice :
  (wellFormed engineStart Inputs.Targets.pageGoneWhileAttaching = true
   ∧ filter (λ e, bool_decide (isSendEvent e = true))
       (run Inputs.Targets.shortenUrl Inputs.Targets.anyTab
          Inputs.Targets.pageGoneWhileAttaching initial).2
     = [SendEvent (DAP.ThreadEvent "started" 1);
        SendEvent (DAP.CustomEvent "threadStarted"
                     (DAP.ThreadStartedEventBody "Tab http://localhost/index.html" 1));
        SendEvent (DAP.ThreadEvent "exited" 1);
        SendEvent (DAP.CustomEvent "threadExited" (DAP.ThreadExitedEventBody 1));
        SendEvent (DAP.ThreadEvent "exited" 1);
        SendEvent (DAP.CustomEvent "threadExited" (DAP.ThreadExitedEventBody 1))]
   ∧ started 1 (run Inputs.Targets.shortenUrl Inputs.Targets.anyTab
                  Inputs.Targets.pageGoneWhileAttaching initial).2 = 1%nat
   ∧ exited 1 (run Inputs.Targets.shortenUrl Inputs.Targets.anyTab
                 Inputs.Targets.pageGoneWhileAttaching initial).2 = 2%nat
   ∧ exitedCustom 1 (run Inputs.Targets.shortenUrl Inputs.Targets.anyTab
                       Inputs.Targets.pageGoneWhileAttaching initial).2 = 2%nat)
  ∧ (∀ (s : State) d n,
       threadsByTargetActorName s !! n = None →
       finalState (onTargetDestroyed config d n s) = s
       ∧ effects (onTargetDestroyed config d n s)
         = [Log debug ("Unknown target actor " +:+ n +:+ " (already destroyed?)")]
       ∧ count isSendEvent (effects (onTargetDestroyed config d n s)) = 0%nat).
Proof.
  split.
  - vm_compute. repeat split.
  - intros s d n Hnone. rewrite (onTargetDestroyed_unknown d n s Hnone).
    repeat split.
Qed.

End TargetLifecycleFacts.

(** * Further properties *)

(** ** The thread-state handler: how a pause is answered *)

Section ThreadStateAnswers.
Import Handler FirefoxDebugProtocol ThreadStateHandler Inputs.Thread Inputs.Pauses.

Ltac unfold_paused :=
  unfold onThreadState, onPaused, sourceGates, debuggerEvalGate, hitCountGate,
    sendStoppedEvent, effects, trace, finalState, outcome,
    tryCatch, bind, ret, perform, get, modify, await, throw.

(** X1: a paused event that carries a frame is answered in exactly one of
    two ways, provided the two requests the handler awaits outside its
    [try] blocks succeed (the source maps are applied to the frame, and the
    stack is fetched): the thread is resumed once, no stopped event is sent
    and the recorded pause reason stays as it was; or the thread is not
    resumed, one stopped event is sent and the event's reason is recorded.
    When applying the source maps fails, the handler fails with that error
    and does neither: nothing is sent and the session is as it was. *)
Theorem pause_resumed_or_surfaced env thread event frame (s : State) :
  ts_state event = "paused" →
  ts_frame event = Some frame →
  match applySourceMapToFrame env frame with
  | Threw err =>
      outcome (onThreadState env thread event s) = Threw err
      ∧ effects (onThreadState env thread event s) = []
      ∧ finalState (onThreadState env thread event s) = s
  | Done _ =>
      ∀ frames, fetchAllStackFrames env = Done frames →
      outcome (onThreadState env thread event s) = Done tt
      ∧ ((resumes (effects (onThreadState env thread event s)) = [thread_id thread]
          ∧ stoppedEvents (effects (onThreadState env thread event s)) = []
          ∧ threadPausedReason (finalState (onThreadState env thread event s))
            = threadPausedReason s)
         ∨ (resumes (effects (onThreadState env thread event s)) = []
            ∧ stoppedEvents (effects (onThreadState env thread event s))
              = [stoppedEventFor thread (ts_why event)]
            ∧ threadPausedReason (finalState (onThreadState env thread event s))
              = ts_why event))
  end.
Proof.
  intros Hstate Hframe.
  destruct (applySourceMapToFrame env frame) as [mapped|err] eqn:Hmapped.
  - intros frames Hstack.
    unfold_paused. rewrite Hstate, Hframe. simpl. rewrite Hmapped, Hstack. simpl.
    repeat (case_match; simplify_eq; simpl in * ); split; auto.
  - unfold_paused. rewrite Hstate, Hframe. simpl. rewrite Hmapped. repeat split.
Qed.

Lemma pause_resumed_or_surfaced_witness :
  outcome (onThreadState env mainThread (pausedAt (Some breakpointHit)) session) = Done tt
  ∧ ((resumes (effects (onThreadState env mainThread (pausedAt (Some breakpointHit)) session))
      = [thread_id mainThread]
      ∧ stoppedEvents
          (effects (onThreadState env mainThread (pausedAt (Some breakpointHit)) session)) = []
      ∧ threadPausedReason
          (finalState (onThreadState env mainThread (pausedAt (Some breakpointHit)) session))
        = threadPausedReason session)
     ∨ (resumes (effects (onThreadState env mainThread (pausedAt (Some breakpointHit)) session))
        = []
        ∧ stoppedEvents
            (effects (onThreadState env mainThread (pausedAt (Some breakpointHit)) session))
          = [stoppedEventFor mainThread (ts_why (pausedAt (Some breakpointHit)))]
        ∧ threadPausedReason
            (finalState (onThreadState env mainThread (pausedAt (Some breakpointHit)) session))
          = ts_why (pausedAt (Some breakpointHit)))).
Proof.
  apply (pause_resumed_or_surfaced env mainThread (pausedAt (Some breakpointHit))
           atBreakpoint session eq_refl eq_refl [mkFrameAdapter atBreakpoint] eq_refl).
Defined.

(** X2: when the source maps are applied to the frame and the stack can be
    fetched, but the sources manager cannot produce a source adapter (every
    lookup fails with [err]), no gate can fire: the failure is logged as a
    warning, the stop is surfaced, the thread is not resumed and no hit is
    counted. *)
Theorem lookup_failure_surfaces_stop env thread event frame mapped frames err (s : State) :
  ts_state event = "paused" →
  ts_frame event = Some frame →
  applySourceMapToFrame env frame = Done mapped →
  fetchAllStackFrames env = Done frames →
  (∀ actor, getAdapterForActor env actor = Threw err) →
  Log warn err ∈ effects (onThreadState env thread event s)
  ∧ stoppedEvents (effects (onThreadState env thread event s))
    = [stoppedEventFor thread (ts_why event)]
  ∧ resumes (effects (onThreadState env thread event s)) = []
  ∧ breakpoints (finalState (onThreadState env thread event s)) = breakpoints s.
Proof.
  intros Hstate Hframe Hmapped Hstack Hfail.
  unfold_paused. rewrite Hstate, Hframe. simpl. rewrite Hmapped, Hstack. simpl.
  rewrite !Hfail. simpl.
  destruct (whyTypeIs event "exception"); simpl.
  - destruct (last frames) as [startFrame|]; simpl; rewrite ?Hfail; simpl;
      repeat split; apply list_elem_of_here || (repeat apply list_elem_of_further; apply list_elem_of_here) || idtac.
    all: try apply list_elem_of_here.
  - repeat split. apply list_elem_of_here.
Qed.

Lemma lookup_failure_surfaces_stop_witness :
  Log warn "Couldn't find source adapter"
    ∈ effects (onThreadState noSources mainThread (pausedAt (Some breakpointHit)) session)
  ∧ stoppedEvents
      (effects (onThreadState noSources mainThread (pausedAt (Some breakpointHit)) session))
    = [stoppedEventFor mainThread (Some breakpointHit)]
  ∧ resumes (effects (onThreadState noSources mainThread (pausedAt (Some breakpointHit)) session))
    = []
  ∧ breakpoints
      (finalState (onThreadState noSources mainThread (pausedAt (Some breakpointHit)) session))
    = breakpoints session.
Proof.
  apply (lookup_failure_surfaces_stop noSources mainThread (pausedAt (Some breakpointHit))
           atBreakpoint atBreakpoint [] "Couldn't find source adapter" session); reflexivity.
Defined.

End ThreadStateAnswers.

(** ** The thread-state handler and the breakpoints table *)

Section BreakpointsTable.
Import Handler FirefoxDebugProtocol ThreadStateHandler Inputs.Thread.

Ltac unfold_events :=
  unfold onThreadState, onPaused, onResumed, disposePauseLifetimeAdapters,
    sourceGates, debuggerEvalGate, hitCountGate,
    sendStoppedEvent, effects, trace, finalState, outcome,
    tryCatch, bind, ret, perform, get, modify, await, throw.

Lemma fmap_alter_absorb {A B} (f : A → B) (g : A → A) i (l : list A) :
  (∀ x, f (g x) = f x) → f <$> alter g i l = f <$> l.
Proof.
  intros Hfg. revert i. induction l as [|x l IH]; intros [|i]; simpl; try reflexivity.
  - rewrite Hfg. reflexivity.
  - f_equal. apply IH.
Qed.

Lemma hit_erased path i (s : State) p :
  (fmap (withHitCount 0) <$> breakpoints (hit path i s) !! p)
  = (fmap (withHitCount 0) <$> breakpoints s !! p).
Proof.
  unfold hit. simpl. destruct (decide (path = p)) as [->|Hne].
  - rewrite lookup_alter_eq. destruct (breakpoints s !! p) as [l|]; simpl; [|reflexivity].
    f_equal. apply fmap_alter_absorb. intros []; reflexivity.
  - rewrite lookup_alter_ne by exact Hne. reflexivity.
Qed.

(** What one thread-state event can do to the table: nothing, or one hit. *)
Lemma onThreadState_breakpoints env thread event (s : State) :
  breakpoints (finalState (onThreadState env thread event s)) = breakpoints s
  ∨ (whyTypeIs event "breakpoint" = true
     ∧ ∃ path i, breakpoints (finalState (onThreadState env thread event s))
                 = breakpoints (hit path i s)).
Proof.
  unfold_events.
  destruct (String.eqb_spec (ts_state event) "paused") as [Hpaused|_]; simpl.
  - rewrite Hpaused. simpl.
    destruct (ts_frame event) as [frame|]; simpl; [|left; reflexivity].
    destruct (applySourceMapToFrame env frame) as [mapped|failure]; simpl;
      [|left; reflexivity].
    destruct (getAdapterForActor env (loc_actor (frame_where mapped)))
      as [sourceAdapter|err]; simpl.
    all: try destruct (isBlackBoxed sourceAdapter); simpl.
    all: try (left; reflexivity).
    all: destruct (whyTypeIs event "breakpoint") eqn:Hwhy; simpl.
    all: repeat (case_match; simplify_eq; simpl in * ).
    all: try (left; reflexivity).
    all: right; split; [reflexivity|]; eexists _, _; reflexivity.
  - destruct (String.eqb (ts_state event) "resumed"); simpl; [|left; reflexivity].
    rewrite disposeAll_run. simpl. left; reflexivity.
Qed.

(** X3: no thread-state event adds, removes, reorders or relocates a
    breakpoint or changes a hit limit: under every source path the table
    holds the same breakpoints afterwards, up to their hit counts; and an
    event whose pause reason is not a breakpoint leaves the hit counts
    alone as well. *)
Theorem breakpoints_only_counted env thread event (s : State) path :
  (fmap (withHitCount 0)
     <$> breakpoints (finalState (onThreadState env thread event s)) !! path)
  = (fmap (withHitCount 0) <$> breakpoints s !! path)
  ∧ (whyTypeIs event "breakpoint" = false →
     breakpoints (finalState (onThreadState env thread event s)) = breakpoints s).
Proof.
  destruct (onThreadState_breakpoints env thread event s)
    as [Hsame|(Hwhy & p & i & Hhit)].
  - rewrite Hsame. split; [reflexivity|intros _; reflexivity].
  - rewrite Hhit. split; [apply hit_erased|intros Hnot; congruence].
Qed.

(** X4: a hit limit is a threshold, not a budget.  Once the count has
    reached the limit, every later pause at the breakpoint is surfaced (one
    stopped event, no resume), and each is still counted: after [k] more
    pauses the hit count has grown by [k], beyond the limit. *)
Theorem hit_count_beyond_limit env thread event frame mapped sourceAdapter path i limit k :
  ts_state event = "paused" →
  ts_frame event = Some frame →
  applySourceMapToFrame env frame = Done mapped →
  getAdapterForActor env (loc_actor (frame_where mapped)) = Done sourceAdapter →
  isBlackBoxed sourceAdapter = false →
  source_path sourceAdapter = Some path →
  path ≠ "" →
  whyTypeIs event "breakpoint" = true →
  whyHasActors event = true →
  limit ≠ 0%Z →
  ∀ bp (s : State),
  findBreakpoint path (frame_where mapped) s = Some (i, bp) →
  hitLimit bp = Some limit →
  (limit ≤ hitCount bp + 1)%Z →
  Forall (λ effs, stoppedEvents effs = [stoppedEventFor thread (ts_why event)]
                  ∧ resumes effs = [])
    (handleTimes k env thread event s).2
  ∧ length (handleTimes k env thread event s).2 = k
  ∧ findBreakpoint path (frame_where mapped) (handleTimes k env thread event s).1
    = Some (i, withHitCount (hitCount bp + Z.of_nat k) bp).
Proof.
  intros Hstate Hframe Hmapped Hadapter Hblack Hpath Hne Hwhy Hactors Hlimit.
  induction k as [|k IH]; intros bp s Hfind Hlim Hreached.
  - simpl. split; [constructor|]. split; [reflexivity|].
    rewrite Hfind, Z.add_0_r. destruct bp; reflexivity.
  - simpl.
    destruct (hit_count_step env thread event frame mapped sourceAdapter path i limit
                Hstate Hframe Hmapped Hadapter Hblack Hpath Hne Hwhy Hactors Hlimit
                bp s Hfind Hlim)
      as (Hafter & _ & _ & Hhigh).
    specialize (Hhigh Hreached).
    destruct (IH (incrementHitCount bp) (finalState (onThreadState env thread event s)))
      as (Hall & Hlen & Hcount); [exact Hafter|exact Hlim|simpl; lia|].
    destruct (handleTimes k env thread event (finalState (onThreadState env thread event s)))
      as [s' runs].
    simpl in *. split; [constructor; assumption|]. split; [congruence|].
    rewrite Hcount. unfold withHitCount. simpl. do 3 f_equal. lia.
Qed.

Lemma hit_count_beyond_limit_witness :
  findBreakpoint scriptPath (mkLocation scriptActor 2 4)
    (handleTimes 5 env mainThread (pausedAt (Some breakpointHit))
       (sessionWith [withHitCount 2 limited])).1
  = Some (0%nat, withHitCount 7 limited).
Proof.
  apply (hit_count_beyond_limit env mainThread (pausedAt (Some breakpointHit))
           atBreakpoint atBreakpoint scriptSource scriptPath 0 3 5
           eq_refl eq_refl eq_refl eq_refl eq_refl eq_refl ltac:(discriminate)
           eq_refl eq_refl ltac:(discriminate)
           (withHitCount 2 limited) (sessionWith [withHitCount 2 limited])
           eq_refl eq_refl ltac:(simpl; lia)).
Defined.

End BreakpointsTable.

(** ** Targets and threads: what a target leaves behind *)

Section TargetRoundTrips.
Import Handler TargetLifecycle.

Variable shortenUrl : string → string.
Variable config : Config.

Lemma handle_destroyed d adapter n (s : State) :
  descriptors s !! d = Some adapter →
  handle shortenUrl config (TargetDestroyed d n) s = onTargetDestroyed config d n s.
Proof.
  intros Hadapter. unfold handle, bind, get. simpl. rewrite Hadapter.
  destruct (onTargetDestroyed _ _ _ _) as [[s' tr] o]. reflexivity.
Qed.

Lemma run_two a b (s : State) :
  run shortenUrl config [a; b] s
  = (finalState (handle shortenUrl config b (finalState (handle shortenUrl config a s))),
     effects (handle shortenUrl config a s)
       ++ effects (handle shortenUrl config b (finalState (handle shortenUrl config a s)))).
Proof. simpl. rewrite app_nil_r. reflexivity. Qed.

Lemma run_one a (s : State) :
  run shortenUrl config [a] s
  = (finalState (handle shortenUrl config a s), effects (handle shortenUrl config a s)).
Proof. simpl. rewrite app_nil_r. reflexivity. Qed.

(** The effects of [onTargetDestroyed] for a registered thread. *)
Lemma onTargetDestroyed_effects d n t (s : State) :
  threadsByTargetActorName s !! n = Some t →
  effects (onTargetDestroyed config d n s)
  = (if bool_decide (thread_type t = tab) && clearConsoleOnReload config
     then [SendEvent (DAP.OutputEvent clearScreen "console")] else [])
    ++ [SetTargetDestroyed (thread_targetActor t)] ++ exitEvents t
    ++ [DisposeThreadAdapter (thread_id t)].
Proof.
  intros Hsome.
  unfold onTargetDestroyed, effects, finalState, bind, get, perform. simpl. rewrite Hsome.
  destruct (bool_decide (thread_type t = tab) && clearConsoleOnReload config); reflexivity.
Qed.

Lemma threadsDelete_added t l :
  (∀ t', t' ∈ l → thread_id t' ≠ thread_id t) → threadsDelete t (threadsAdd t l) = l.
Proof.
  intros Hfresh. rewrite (threadsAdd_fresh t l Hfresh). unfold threadsDelete.
  induction l as [|x l IH]; simpl.
  - rewrite filter_cons, filter_nil. unfold sameThread. rewrite Nat.eqb_refl.
    destruct (decide (true = false)) as [Habs|_]; [discriminate|reflexivity].
  - rewrite filter_cons.
    assert (sameThread t x = false) as Hx.
    { unfold sameThread. apply Nat.eqb_neq. intros Heq.
      apply (Hfresh x); [apply list_elem_of_here|congruence]. }
    destruct (decide (sameThread t x = false)) as [_|Habs]; [|contradiction].
    f_equal. apply IH. intros t' Hin. apply Hfresh. apply list_elem_of_further. exact Hin.
Qed.

(** X5: a target the session decides not to attach to leaves no trace.
    Announcing it only logs a warning and arranges for its thread to be
    resumed whenever it pauses; when its destruction is announced later,
    only a debug line is logged.  The session state is as before and no
    event has been sent to the editor. *)
Theorem skipped_target_leaves_no_trace d adapter targetActor threadActor consoleActor
    (s : State) :
  descriptors s !! d = Some adapter →
  skipTarget config (descriptor_type adapter) (targetActor_target targetActor) = true →
  threadsByTargetActorName s !! targetActor_name targetActor = None →
  (run shortenUrl config
     [TargetAvailable d targetActor threadActor consoleActor;
      TargetDestroyed d (targetActor_name targetActor)] s).1 = s
  ∧ (run shortenUrl config
       [TargetAvailable d targetActor threadActor consoleActor;
        TargetDestroyed d (targetActor_name targetActor)] s).2
    = [Log warn "Not attaching to this thread"; ResumeWhenPaused threadActor;
       Log debug ("Unknown target actor " +:+ targetActor_name targetActor
                  +:+ " (already destroyed?)")].
Proof.
  intros Hadapter Hskip Hunknown.
  rewrite run_two, (handle_available shortenUrl config _ _ _ _ _ _ Hadapter).
  destruct (onTargetAvailable_skip shortenUrl config d adapter targetActor threadActor
              consoleActor s Hskip) as (Hstate & Heffs & _).
  rewrite Hstate, Heffs, (handle_destroyed _ _ _ _ Hadapter).
  rewrite (onTargetDestroyed_unknown config d _ s Hunknown). split; reflexivity.
Qed.

(** X6: attaching to a target and then seeing it destroyed is a round
    trip, when the handler of the target's arrival is not interrupted: it
    runs up to [await this.attachThread(...)], its continuation runs next,
    and the target's destruction is announced after that.  When no other
    handler is suspended, the descriptor has an adapter, the target is not
    skipped, its actor name is not in use and the next thread id is fresh,
    the three steps leave the session as it was except that one thread id
    has been used up; and the thread that was announced as started is the
    one that is announced as exited, the screen being cleared in between
    exactly for a tab thread under [clearConsoleOnReload]. *)
Theorem attach_destroy_round_trip d adapter targetActor threadActor consoleActor
    (s : State) :
  suspended s = [] →
  descriptors s !! d = Some adapter →
  skipTarget config (descriptor_type adapter) (targetActor_target targetActor) = false →
  threadsByTargetActorName s !! targetActor_name targetActor = None →
  Registry.objectsById (threads s) !! Registry.nextId (threads s) = None →
  (∀ t', t' ∈ adapter_threads adapter → thread_id t' ≠ Registry.nextId (threads s)) →
  let id := Registry.nextId (threads s) in
  let type := (threadTypeAndName shortenUrl (descriptor_type adapter) targetActor).1 in
  let name := (threadTypeAndName shortenUrl (descriptor_type adapter) targetActor).2 in
  let r := run shortenUrl config
             [TargetAvailable d targetActor threadActor consoleActor;
              Continued 0;
              TargetDestroyed d (targetActor_name targetActor)] s in
  r.1 = setThreads (Registry.mk (Registry.objectsById (threads s)) (S id)) s
  ∧ r.2 = [Log info ("Attaching " +:+ name);
           SendEvent (DAP.ThreadEvent "started" id);
           SendEvent (DAP.CustomEvent "threadStarted" (DAP.ThreadStartedEventBody name id))]
          ++ (if bool_decide (type = tab) && clearConsoleOnReload config
              then [SendEvent (DAP.OutputEvent clearScreen "console")] else [])
          ++ [SetTargetDestroyed (targetActor_name targetActor);
              SendEvent (DAP.ThreadEvent "exited" id);
              SendEvent (DAP.CustomEvent "threadExited" (DAP.ThreadExitedEventBody id));
              DisposeThreadAdapter id].
Proof.
  intros Hidle Hadapter Hskip Hunknown Hfree Hfresh id type name r. subst r.
  change [TargetAvailable d targetActor threadActor consoleActor; Continued 0;
          TargetDestroyed d (targetActor_name targetActor)]
    with (uninterrupted [TargetAvailable d targetActor threadActor consoleActor;
                         TargetDestroyed d (targetActor_name targetActor)]).
  rewrite run_uninterrupted_cons.
  change (uninterrupted [TargetDestroyed d (targetActor_name targetActor)])
    with [TargetDestroyed d (targetActor_name targetActor)].
  rewrite run_one. cbn [fst snd].
  destruct (onTargetAvailable_attach shortenUrl config d adapter targetActor threadActor
              consoleActor s Hadapter Hidle Hskip) as [Hstate Heffs].
  cbv zeta in Hstate, Heffs. cbn [thread_id thread_name] in Heffs.
  fold id type name in Hstate, Heffs.
  set (t := mkThreadAdapter id type name (targetActor_name targetActor) threadActor) in *.
  set (s1 := finalState (handleUninterrupted shortenUrl config
                           (TargetAvailable d targetActor threadActor consoleActor) s)) in *.
  assert (descriptors s1 !! d
          = Some (setAdapterThreads (threadsAdd t (adapter_threads adapter)) adapter))
    as Hadapter'.
  { rewrite Hstate. simpl. rewrite lookup_alter_eq, Hadapter. reflexivity. }
  rewrite (handle_destroyed _ _ _ _ Hadapter').
  assert (threadsByTargetActorName s1 !! targetActor_name targetActor = Some t) as Hknown.
  { rewrite Hstate. simpl. apply lookup_insert_eq. }
  destruct (onTargetDestroyed_known config d _ t _ Hknown) as [Hfinal _].
  rewrite (onTargetDestroyed_effects d _ t _ Hknown), Heffs.
  simpl in Hfinal. rewrite Hfinal, Hstate. simpl. split; [|reflexivity].
  unfold setThreads, Registry.unregister. simpl.
  destruct s as [ths byName descs waiting]. simpl in *. subst waiting.
  f_equal.
  - f_equal. apply delete_insert_id. exact Hfree.
  - apply delete_insert_id. exact Hunknown.
  - rewrite alter_alter_eq. apply alter_id. intros a Ha.
    assert (a = adapter) as -> by congruence.
    simpl. rewrite (threadsDelete_added t _ Hfresh). destruct adapter; reflexivity.
Qed.

End TargetRoundTrips.

Lemma skipped_target_leaves_no_trace_witness :
  (TargetLifecycle.run Inputs.Targets.shortenUrl Inputs.Targets.anyTab
     [TargetLifecycle.TargetAvailable Inputs.Targets.tabDescriptor1
        Inputs.Attached.foreignExtensionPage "server1.conn0.thread12" "server1.conn0.console13";
      TargetLifecycle.TargetDestroyed Inputs.Targets.tabDescriptor1
        "server1.conn0.windowGlobalTarget11"] Inputs.Attached.tabAttached).1
  = Inputs.Attached.tabAttached.
Proof.
  apply (skipped_target_leaves_no_trace Inputs.Targets.shortenUrl Inputs.Targets.anyTab
           Inputs.Targets.tabDescriptor1
           (TargetLifecycle.mkDescriptorAdapter TargetLifecycle.tabDescriptor [] false)
           Inputs.Attached.foreignExtensionPage "server1.conn0.thread12"
           "server1.conn0.console13" Inputs.Attached.tabAttached);
    vm_compute; reflexivity.
Defined.

Lemma attach_destroy_round_trip_witness :
  (TargetLifecycle.run Inputs.Targets.shortenUrl Inputs.Attached.clearing
     [TargetLifecycle.TargetAvailable Inputs.Targets.tabDescriptor1
        Inputs.Targets.page "server1.conn0.thread4" "server1.conn0.console5";
      TargetLifecycle.Continued 0;
      TargetLifecycle.TargetDestroyed Inputs.Targets.tabDescriptor1
        "server1.conn0.windowGlobalTarget3"] Inputs.Attached.tabAttached).2
  = [TargetLifecycle.Log TargetLifecycle.info "Attaching Tab http://localhost/index.html";
     TargetLifecycle.SendEvent (DAP.ThreadEvent "started" 1);
     TargetLifecycle.SendEvent
       (DAP.CustomEvent "threadStarted"
          (DAP.ThreadStartedEventBody "Tab http://localhost/index.html" 1));
     TargetLifecycle.SendEvent (DAP.OutputEvent TargetLifecycle.clearScreen "console");
     TargetLifecycle.SetTargetDestroyed "server1.conn0.windowGlobalTarget3";
     TargetLifecycle.SendEvent (DAP.ThreadEvent "exited" 1);
     TargetLifecycle.SendEvent (DAP.CustomEvent "threadExited" (DAP.ThreadExitedEventBody 1));
     TargetLifecycle.DisposeThreadAdapter 1].
Proof.
  apply (attach_destroy_round_trip Inputs.Targets.shortenUrl Inputs.Attached.clearing
           Inputs.Targets.tabDescriptor1
           (TargetLifecycle.mkDescriptorAdapter TargetLifecycle.tabDescriptor [] false)
           Inputs.Targets.page "server1.conn0.thread4" "server1.conn0.console5"
           Inputs.Attached.tabAttached);
    try (vm_compute; reflexivity).
  intros t' Hin. vm_compute in Hin. apply elem_of_nil in Hin. destruct Hin.
Defined.

(** ** Targets and threads: nothing outlives the descriptors *)

Section DescriptorsGone.
Import Handler TargetLifecycle.

Variable shortenUrl : string → string.
Variable config : Config.

(** X7: no thread outlives the descriptors, when no handler runs while
    another is suspended.  After a well-formed sequence of inputs that
    leaves no descriptor alive, each handler of a target's arrival being
    followed at once by its continuation, the session finds no thread by
    any target actor name, and every thread that was announced as started
    has been announced as exited. *)
Theorem no_thread_outlives_descriptors (inputs : list Input) :
  wellFormed engineStart inputs = true →
  live (engineRun engineStart inputs) = ∅ →
  threadsByTargetActorName (run shortenUrl config (uninterrupted inputs) initial).1 = ∅
  ∧ ∀ id, count (isThreadExited id) (run shortenUrl config (uninterrupted inputs) initial).2
          = count (isThreadStarted id)
              (run shortenUrl config (uninterrupted inputs) initial).2.
Proof.
  intros Hwf Hgone.
  pose proof (invariant_run shortenUrl config inputs engineStart initial []
                (invariant_initial) Hwf) as Hinv.
  simpl in Hinv.
  set (r := run shortenUrl config (uninterrupted inputs) initial) in *.
  assert (∀ n, threadsByTargetActorName r.1 !! n = None) as Hnone.
  { intros n.
    destruct (threadsByTargetActorName r.1 !! n) as [t|] eqn:Hn; [|reflexivity].
    destruct (registered_is_target _ _ _ n t Hinv Hn) as (d & _ & Hlive).
    rewrite Hgone in Hlive. apply elem_of_empty in Hlive. destruct Hlive. }
  split; [apply map_empty; exact Hnone|].
  intros id. destruct (inv_counts _ _ _ Hinv id) as (_ & Hle & Hone & Hleft).
  destruct (count (isThreadStarted id) r.2) as [|[|k]] eqn:Hstarted; [lia| |lia].
  destruct (Hleft eq_refl) as [(n & t & Hn & _)|Hexited]; [|exact Hexited].
  rewrite Hnone in Hn. discriminate Hn.
Qed.

End DescriptorsGone.

Lemma no_thread_outlives_descriptors_witness :
  TargetLifecycle.threadsByTargetActorName
    (TargetLifecycle.run Inputs.Targets.shortenUrl Inputs.Targets.anyTab
       (TargetLifecycle.uninterrupted Inputs.Targets.tabOpenedAndClosed)
       TargetLifecycle.initial).1 = ∅.
Proof.
  apply (no_thread_outlives_descriptors Inputs.Targets.shortenUrl Inputs.Targets.anyTab
           Inputs.Targets.tabOpenedAndClosed); vm_compute; reflexivity.
Defined.

(** ** Shutdown: what is left alone *)

Section ShutdownLeftAlone.
Import Handler Shutdown Inputs.Stop Inputs.Leaving.

(** X8: without the terminate option the browser is left alone.  Whatever
    the session holds (a launched child, the add-ons actor, temporary
    profile directories in the launch configuration), the function closes
    and forgets the reload watcher when there is one, disconnects, and does
    nothing else: no signal, no add-on, no wait and no removal. *)
Theorem shutdown_without_terminate env config (s : State) :
  terminate config = false →
  effects (disconnectFirefoxAndCleanup env config s) = watcherEffects s ++ [Disconnect]
  ∧ finalState (disconnectFirefoxAndCleanup env config s) = withoutWatcher s
  ∧ outcome (disconnectFirefoxAndCleanup env config s) = Done tt.
Proof.
  intros Hterminate.
  unfold disconnectFirefoxAndCleanup, effects, finalState, outcome, trace, bind, perform.
  rewrite closeReloadWatcher_run, Hterminate. unfold watcherEffects, withoutWatcher.
  destruct (reloadWatcher s); repeat split.
Qed.

Lemma shutdown_without_terminate_witness :
  effects (disconnectFirefoxAndCleanup browserExits staying watchedChild)
  = [CloseReloadWatcher; Disconnect].
Proof.
  apply (shutdown_without_terminate browserExits staying watchedChild). reflexivity.
Defined.

(** X9: when the terminator add-on cannot be installed, the shutdown
    fails with the installation's error right there: the rejection is not
    caught, so the connection is not disconnected, no temporary directory
    is removed, and nothing is waited for. *)
Theorem shutdown_install_failure env config (s : State) err :
  terminate config = true →
  firefoxProc s = false →
  firefoxDebugSocketClosed s = false →
  addonsActor s = true →
  installAddon env = Threw err →
  outcome (disconnectFirefoxAndCleanup env config s) = Threw err
  ∧ effects (disconnectFirefoxAndCleanup env config s)
    = watcherEffects s
      ++ [Log debug "Trying to close Firefox using the Terminator WebExtension";
          InstallAddon (terminatorPath config)].
Proof.
  intros Hterminate Hproc Hsocket Haddons Hinstall.
  destruct (withoutWatcher_fields s) as (Hp & Hc & Ha).
  pose proof (shutdown_phases env config s Hterminate) as Hphases.
  pose proof (tryToTerminate_addon env config (withoutWatcher s)) as Hattempt.
  rewrite Hp, Hc, Ha in Hattempt. specialize (Hattempt Hproc Hsocket Haddons).
  rewrite Hinstall in Hattempt. destruct Hattempt as [Heffs Hout].
  simpl in Hphases. rewrite Hout in Hphases. destruct Hphases as [Hall Hthrew].
  split; [exact Hthrew|]. rewrite Hall, Heffs. reflexivity.
Qed.

Lemma shutdown_install_failure_witness :
  outcome (disconnectFirefoxAndCleanup refusingAddons terminating attachedOnly)
  = Threw "installAddon failed"
  ∧ effects (disconnectFirefoxAndCleanup refusingAddons terminating attachedOnly)
    = watcherEffects attachedOnly
      ++ [Log debug "Trying to close Firefox using the Terminator WebExtension";
          InstallAddon (terminatorPath terminating)].
Proof.
  apply (shutdown_install_failure refusingAddons terminating attachedOnly
           "installAddon failed"); reflexivity.
Defined.

End ShutdownLeftAlone.

(** ** Start: how the [init] handler settles the start promise *)

Section SessionStartSettles.
Import Handler FirefoxDebugProtocol SessionStart Inputs.Start Inputs.Starting.

Ltac unfold_onInit :=
  unfold onInit, reject, resolve, settle, effects, trace, finalState, outcome,
    bind, ret, perform, get, modify, await, throw.

Ltac each_answer env hasAddonManager traits :=
  destruct env as [[[[|]]|?] [[]|?] [[]|?] [[]|?] [[]|?]];
  destruct hasAddonManager;
  destruct (supportsEnableWindowGlobalThreadActors traits).

(** X10: for a supported engine and a pending start promise, the [init]
    handler resolves the promise exactly when it runs to its end and, if
    the session has an add-on manager, the root actor listed an add-ons
    actor.  A promise that is still pending afterwards is one whose handler
    was stopped by a failed request: nothing will settle it. *)
Theorem init_settles_start_promise env hasAddonManager traits (s : State) :
  startPromise s = Pending →
  unsupportedEngine traits = false →
  (startPromise (finalState (onInit env hasAddonManager traits s)) = Resolved
   ↔ outcome (onInit env hasAddonManager traits s) = Done tt
     ∧ (hasAddonManager = true → fetchRoot env = Done (mkRootActors true)))
  ∧ (startPromise (finalState (onInit env hasAddonManager traits s)) = Pending →
     ∃ err, outcome (onInit env hasAddonManager traits s) = Threw err).
Proof.
  intros Hpending Hsupported. unfold unsupportedEngine in Hsupported.
  unfold_onInit. rewrite Hsupported.
  each_answer env hasAddonManager traits; simpl; rewrite ?Hpending; simpl.
  all: split;
    [split;
       [intros Hresolved;
        first [discriminate Hresolved
              |split; [reflexivity
                      |intros Hmanager; first [reflexivity|discriminate Hmanager]]]
       |intros [Hdone Haddons];
        first [discriminate Hdone|reflexivity
              |specialize (Haddons eq_refl); discriminate Haddons]]
    |intros Hstill; first [discriminate Hstill|eexists; reflexivity]].
Qed.

Lemma init_settles_start_promise_witness :
  ∃ err, outcome (onInit rootUnreachable true modernEngine initial) = Threw err.
Proof.
  apply (proj2 (init_settles_start_promise rootUnreachable true modernEngine initial
                  eq_refl eq_refl)).
  reflexivity.
Defined.

(** X11: a missing add-ons actor rejects the start promise but does not
    stop the handler.  With an add-on manager and a root actor that lists
    no add-ons actor, the promise is rejected, the add-on manager is not
    started, and the handler still goes on: in the modern mode the
    resources of the parent process are watched afterwards. *)
Theorem init_without_addons_actor env traits (s : State) :
  startPromise s = Pending →
  unsupportedEngine traits = false →
  fetchRoot env = Done (mkRootActors false) →
  getProcess env = Done tt →
  attachDescriptor env = Done tt →
  startPromise (finalState (onInit env true traits s))
  = Rejected "No AddonsActor received from Firefox"
  ∧ (AddonSessionStarted ∉ effects (onInit env true traits s))
  ∧ (supportsEnableWindowGlobalThreadActors traits = true →
     last (effects (onInit env true traits s)) = Some (WatchResources resources)).
Proof.
  intros Hpending Hsupported Hroot Hprocess Hattach. unfold unsupportedEngine in Hsupported.
  unfold_onInit. rewrite Hsupported, Hroot, Hprocess, Hattach.
  destruct (supportsEnableWindowGlobalThreadActors traits); simpl; rewrite ?Hpending.
  - destruct (watchResources env) as [[]|err]; simpl; rewrite ?Hpending.
    all: split; [reflexivity|]; split; [|intros _; reflexivity].
    all: intros Hin; repeat (apply elem_of_cons in Hin as [Habs|Hin]; [discriminate Habs|]).
    all: apply elem_of_nil in Hin; exact Hin.
  - split; [reflexivity|]. split; [|discriminate].
    intros Hin; repeat (apply elem_of_cons in Hin as [Habs|Hin]; [discriminate Habs|]).
    apply elem_of_nil in Hin; exact Hin.
Qed.

Lemma init_without_addons_actor_witness :
  startPromise (finalState (onInit noAddons true modernEngine initial))
  = Rejected "No AddonsActor received from Firefox"
  ∧ (AddonSessionStarted ∉ effects (onInit noAddons true modernEngine initial))
  ∧ (supportsEnableWindowGlobalThreadActors modernEngine = true →
     last (effects (onInit noAddons true modernEngine initial))
     = Some (WatchResources resources)).
Proof.
  apply (init_without_addons_actor noAddons modernEngine initial); reflexivity.
Defined.

End SessionStartSettles.

(** ** The pending-request queue: nothing is lost, nothing settled twice *)

Section RequestQueueFacts.
Import PendingRequests RequestQueue.
Context {T : Type}.

Lemma call_accounts (c : Call T) q :
  omap settled (call c q).2 ++ (call c q).1 = q ++ from_option (λ r, [r]) [] (enqueued c).
Proof.
  destruct c as [req|v|err|v|err]; simpl.
  - reflexivity.
  - destruct q as [|request rest]; simpl; rewrite ?app_nil_r; reflexivity.
  - destruct q as [|request rest]; simpl; rewrite ?app_nil_r; reflexivity.
  - rewrite !app_nil_r. induction q as [|r q IH]; simpl; [reflexivity|]. f_equal. exact IH.
  - rewrite !app_nil_r. induction q as [|r q IH]; simpl; [reflexivity|]. f_equal. exact IH.
Qed.

(** X12: a pending-request queue loses nothing and settles nothing twice.
    Over every sequence of calls, the requests settled so far (in the order
    of their settlement) followed by the requests still pending are exactly
    the requests that were pending at the start followed by those enqueued
    since, in the order of their arrival. *)
Theorem queue_accounts (cs : list (Call T)) : ∀ q,
  omap settled (calls cs q).2 ++ (calls cs q).1 = q ++ omap enqueued cs.
Proof.
  induction cs as [|c cs IH]; intros q; simpl.
  - rewrite app_nil_r. reflexivity.
  - pose proof (call_accounts c q) as Hcall.
    destruct (call c q) as [q1 s1]. specialize (IH q1).
    destruct (calls cs q1) as [q2 s2]. simpl in *.
    rewrite omap_app, <- app_assoc, IH, app_assoc, Hcall, <- app_assoc.
    destruct (enqueued c); reflexivity.
Qed.

End RequestQueueFacts.

(** ** The Root actor proxy: the tab list and its events *)

Section RootTabsFacts.
Import JS RootActorProxy RootTabs Inputs.Root.

Lemma Map_get_set {V} k k' (v : V) m :
  Map_get k (Map_set k' v m) = if String.eqb k k' then Some v else Map_get k m.
Proof.
  induction m as [|[k0 v0] m IH]; simpl.
  - rewrite String.eqb_sym. destruct (String.eqb_spec k' k); reflexivity.
  - destruct (String.eqb_spec k' k0) as [->|Hne]; simpl.
    + destruct (String.eqb k k0); reflexivity.
    + rewrite IH. destruct (String.eqb_spec k k0) as [->|Hk]; [|reflexivity].
      destruct (String.eqb_spec k0 k'); [congruence|reflexivity].
Qed.

Lemma Map_has_keys {V} k (m : Map V) : Map_has k m = true ↔ k ∈ keys m.
Proof.
  unfold Map_has, keys. induction m as [|[k0 v0] m IH]; simpl.
  - split; [discriminate|]. intros Hin. apply elem_of_nil in Hin. destruct Hin.
  - rewrite elem_of_cons. destruct (String.eqb_spec k k0) as [->|Hne].
    + split; [left; reflexivity|reflexivity].
    + rewrite IH. split; [right; assumption|]. intros [Heq|Hin]; [contradiction|exact Hin].
Qed.

Lemma Map_get_elem {V} k (v : V) m : Map_get k m = Some v → (k, v) ∈ m.
Proof.
  induction m as [|[k0 v0] m IH]; simpl; [discriminate|].
  destruct (String.eqb_spec k k0) as [->|Hne].
  - intros [= ->]. apply list_elem_of_here.
  - intros Hget. apply list_elem_of_further, IH, Hget.
Qed.

Lemma elem_Map_get {V} k (v : V) m : NoDup (keys m) → (k, v) ∈ m → Map_get k m = Some v.
Proof.
  unfold keys. induction m as [|[k0 v0] m IH]; simpl; intros Hnd Hin.
  - apply elem_of_nil in Hin. destruct Hin.
  - apply NoDup_cons in Hnd as [Hfresh Hnd].
    apply elem_of_cons in Hin as [Heq|Hin].
    + injection Heq as -> ->. rewrite String.eqb_refl. reflexivity.
    + destruct (String.eqb_spec k k0) as [->|Hne]; [|apply IH; assumption].
      exfalso. apply Hfresh. apply list_elem_of_fmap. exists (k0, v). split; [reflexivity|exact Hin].
Qed.

Lemma keys_set {V} k (v : V) m :
  keys (Map_set k v m) = if Map_has k m then keys m else keys m ++ [k].
Proof.
  unfold Map_has, keys. induction m as [|[k0 v0] m IH]; simpl; [reflexivity|].
  destruct (String.eqb_spec k k0) as [->|Hne]; simpl; [reflexivity|].
  rewrite IH. destruct (Map_get k m); reflexivity.
Qed.

Lemma NoDup_keys_set {V} k (v : V) m : NoDup (keys m) → NoDup (keys (Map_set k v m)).
Proof.
  intros Hnd. rewrite keys_set. destruct (Map_has k m) eqn:Hhas; [exact Hnd|].
  apply NoDup_app. split; [exact Hnd|]. split; [|apply NoDup_singleton].
  intros x Hx Hk. apply list_elem_of_singleton in Hk as ->.
  apply Map_has_keys in Hx. congruence.
Qed.

(** The loop over the tabs of a response. *)
Lemma fold_addTab known l : ∀ currentTabs effs,
  fold_left (addTab known) l (currentTabs, effs)
  = (file known l currentTabs, effs ++ flat_map (announce known) l).
Proof.
  induction l as [|tab l IH]; intros currentTabs effs.
  - simpl. rewrite app_nil_r. reflexivity.
  - change (fold_left (addTab known) (tab :: l) (currentTabs, effs))
      with (fold_left (addTab known) l (addTab known (currentTabs, effs) tab)).
    change (file known (tab :: l) currentTabs)
      with (file known l (Map_set (tab_actor tab) (proxyFor known tab) currentTabs)).
    change (flat_map (announce known) (tab :: l))
      with (announce known tab ++ flat_map (announce known) l).
    unfold addTab, announce at 1, proxyFor, Map_has.
    destruct (Map_get (tab_actor tab) known) as [p|]; simpl; rewrite IH.
    + reflexivity.
    + rewrite <- app_assoc. reflexivity.
Qed.

Lemma NoDup_keys_file known l : ∀ currentTabs,
  NoDup (keys currentTabs) → NoDup (keys (file known l currentTabs)).
Proof.
  induction l as [|tab l IH]; intros currentTabs Hnd; [exact Hnd|].
  apply (IH (Map_set _ _ currentTabs)), NoDup_keys_set, Hnd.
Qed.

(** What is filed under a key: the proxy of the last tab of the response
    with that actor. *)
Lemma Map_get_file known l k : ∀ currentTabs,
  Map_get k (file known l currentTabs)
  = match last (filter (λ tab, tab_actor tab = k) l) with
    | Some tab => Some (proxyFor known tab)
    | None => Map_get k currentTabs
    end.
Proof.
  induction l as [|tab l IH]; intros currentTabs; [reflexivity|].
  change (file known (tab :: l) currentTabs)
    with (file known l (Map_set (tab_actor tab) (proxyFor known tab) currentTabs)).
  rewrite IH, filter_cons.
  destruct (decide (tab_actor tab = k)) as [Heq|Hne].
  - rewrite last_cons. destruct (last (filter _ l)); [reflexivity|].
    rewrite Map_get_set, Heq, String.eqb_refl. reflexivity.
  - destruct (last (filter _ l)); [reflexivity|].
    rewrite Map_get_set. destruct (String.eqb_spec k (tab_actor tab)); [congruence|reflexivity].
Qed.

Lemma last_filter_actor k l :
  match last (filter (λ tab, tab_actor tab = k) l) with
  | Some tab => tab ∈ l ∧ tab_actor tab = k
  | None => k ∉ map tab_actor l
  end.
Proof.
  destruct (last (filter (λ tab, tab_actor tab = k) l)) as [tab|] eqn:Hlast.
  - apply last_Some in Hlast as [l' Hl'].
    assert (tab ∈ filter (λ tab, tab_actor tab = k) l) as Hin.
    { rewrite Hl'. apply elem_of_app. right. apply list_elem_of_here. }
    apply list_elem_of_filter in Hin as [Heq Hin]. split; assumption.
  - apply last_None in Hlast. intros Hin.
    apply list_elem_of_fmap in Hin as (tab & Hk & Hin).
    assert (tab ∈ filter (λ tab, tab_actor tab = k) l) as Hf.
    { apply list_elem_of_filter. split; [symmetry; exact Hk|exact Hin]. }
    rewrite Hlast in Hf. apply elem_of_nil in Hf. exact Hf.
Qed.

Lemma keys_file known l k : k ∈ keys (file known l []) ↔ k ∈ map tab_actor l.
Proof.
  rewrite <- Map_has_keys. unfold Map_has. rewrite Map_get_file.
  pose proof (last_filter_actor k l) as Hlast.
  destruct (last (filter (λ tab, tab_actor tab = k) l)) as [tab|]; simpl.
  - destruct Hlast as [Hin Heq]. split; [|reflexivity].
    intros _. apply list_elem_of_fmap. exists tab. split; [symmetry; exact Heq|exact Hin].
  - split; [discriminate|]. intros Hin. contradiction.
Qed.

Lemma receiveResponse_tabs response l st :
  truthy_opt_string (applicationType response) = false →
  tabs response = Some l →
  l ≠ [] →
  receiveResponse response st
  = ({| root_tabs := file (root_tabs st) l [];
        pendingTabsRequests :=
          (PendingRequests.resolveOne (file (root_tabs st) l []) (pendingTabsRequests st)).1;
        nextPromise := nextPromise st |},
     [LogDebug (ReceivedTabs (length l))] ++ flat_map (announce (root_tabs st)) l
       ++ closedTabs (root_tabs st) (file (root_tabs st) l [])
       ++ map Settle
            (PendingRequests.resolveOne (file (root_tabs st) l []) (pendingTabsRequests st)).2).
Proof.
  intros Hinit Htabs Hne. unfold receiveResponse. rewrite Hinit, Htabs.
  destruct l as [|tab l]; [contradiction|].
  change (length (tab :: l) =? 0)%nat with false. cbv iota.
  rewrite fold_addTab.
  destruct (PendingRequests.resolveOne _ _) as [pending settled]. reflexivity.
Qed.

Lemma opened_announce known l :
  opened (flat_map (announce known) l)
  = map newProxy (filter (λ tab, Map_has (tab_actor tab) known = false) l).
Proof.
  unfold opened. induction l as [|tab l IH]; [reflexivity|].
  change (flat_map (announce known) (tab :: l))
    with (announce known tab ++ flat_map (announce known) l).
  rewrite omap_app, IH, filter_cons. unfold announce.
  destruct (Map_has (tab_actor tab) known); simpl.
  - destruct (decide (true = false)) as [Habs|_]; [discriminate|reflexivity].
  - destruct (decide (false = false)) as [_|Habs]; [reflexivity|contradiction].
Qed.

Lemma announce_only_opens known l :
  closed (flat_map (announce known) l) = []
  ∧ settledRequests (flat_map (announce known) l) = []
  ∧ sent (flat_map (announce known) l) = [].
Proof.
  unfold closed, settledRequests, sent. induction l as [|tab l (IH1 & IH2 & IH3)].
  - repeat split.
  - change (flat_map (announce known) (tab :: l))
      with (announce known tab ++ flat_map (announce known) l).
    rewrite !omap_app, IH1, IH2, IH3. unfold announce.
    destruct (Map_has (tab_actor tab) known); repeat split.
Qed.

Lemma closed_closedTabs known currentTabs :
  closed (closedTabs known currentTabs)
  = map snd (filter (λ kv, Map_has (tabproxy_name kv.2) currentTabs = false) known).
Proof.
  unfold closed, closedTabs. induction known as [|[k p] known IH]; [reflexivity|].
  change (flat_map ?f ((k, p) :: known)) with (f (k, p) ++ flat_map f known).
  rewrite omap_app, IH. unfold Map.
  destruct (Map_has (tabproxy_name p) currentTabs) eqn:Hhas; simpl.
  - rewrite filter_cons_False; [reflexivity|]. simpl. rewrite Hhas. discriminate.
  - rewrite filter_cons_True; [reflexivity|]. simpl. exact Hhas.
Qed.

Lemma closedTabs_only_closes known currentTabs :
  opened (closedTabs known currentTabs) = []
  ∧ settledRequests (closedTabs known currentTabs) = []
  ∧ sent (closedTabs known currentTabs) = [].
Proof.
  unfold opened, settledRequests, sent, closedTabs.
  induction known as [|[k p] known (IH1 & IH2 & IH3)].
  - repeat split.
  - change (flat_map ?f ((k, p) :: known)) with (f (k, p) ++ flat_map f known).
    rewrite !omap_app, IH1, IH2, IH3.
    destruct (Map_has (tabproxy_name p) currentTabs); repeat split.
Qed.

Lemma settle_only_settles (l : list (PendingRequests.Settlement (Map TabActorProxy))) :
  opened (map Settle l) = [] ∧ closed (map Settle l) = []
  ∧ sent (map Settle l) = []
  ∧ settledRequests (map Settle l) = omap RequestQueue.settled l.
Proof.
  unfold opened, closed, sent, settledRequests.
  induction l as [|x l (IH1 & IH2 & IH3 & IH4)]; [repeat split|].
  change (map Settle (x :: l)) with ([Settle x] ++ map Settle l).
  rewrite !omap_app, IH1, IH2, IH3, IH4. repeat split.
  simpl. destruct (RequestQueue.settled x); reflexivity.
Qed.

Lemma tabs_response_events response l st :
  truthy_opt_string (applicationType response) = false →
  tabs response = Some l →
  l ≠ [] →
  root_tabs (receiveResponse response st).1 = file (root_tabs st) l []
  ∧ opened (receiveResponse response st).2
    = map newProxy (filter (λ tab, Map_has (tab_actor tab) (root_tabs st) = false) l)
  ∧ closed (receiveResponse response st).2
    = map snd (filter (λ kv, Map_has (tabproxy_name kv.2) (file (root_tabs st) l []) = false)
                 (root_tabs st)).
Proof.
  intros Hinit Htabs Hne. rewrite (receiveResponse_tabs response l st Hinit Htabs Hne).
  cbn [fst snd root_tabs].
  destruct (announce_only_opens (root_tabs st) l) as (Hc1 & _ & _).
  destruct (closedTabs_only_closes (root_tabs st) (file (root_tabs st) l [])) as (Ho2 & _ & _).
  destruct (settle_only_settles
              (PendingRequests.resolveOne (file (root_tabs st) l [])
                 (pendingTabsRequests st)).2) as (Ho3 & Hc3 & _ & _).
  split; [reflexivity|]. split.
  - unfold opened in *. rewrite !omap_app, Ho2, Ho3, !app_nil_r.
    apply opened_announce.
  - pose proof (closed_closedTabs (root_tabs st) (file (root_tabs st) l [])) as Hc2.
    unfold closed in *. rewrite !omap_app, Hc1, Hc2, Hc3, app_nil_r. reflexivity.
Qed.

(** X13: how a tabs response changes the tab list.  For a response that
    lists at least one tab: [tabOpened] is emitted, in the order of the
    response, for exactly the listed tabs whose actor is not known, each
    with a proxy made from that entry; [tabClosed] is emitted, in the order
    of the old list, for exactly the known proxies whose name is not
    listed; and the new list files under each listed actor, once, the
    known proxy when there is one (unchanged, whatever title and url the
    response carries) and otherwise the proxy of the last entry with that
    actor, and files nothing under any other key. *)
Theorem tabs_response_announces_changes response l st :
  truthy_opt_string (applicationType response) = false →
  tabs response = Some l →
  l ≠ [] →
  opened (receiveResponse response st).2
  = map newProxy (filter (λ tab, Map_has (tab_actor tab) (root_tabs st) = false) l)
  ∧ closed (receiveResponse response st).2
    = map snd (filter (λ kv, tabproxy_name kv.2 ∉ map tab_actor l) (root_tabs st))
  ∧ (∀ k, Map_get k (root_tabs (receiveResponse response st).1)
          = proxyFor (root_tabs st) <$> last (filter (λ tab, tab_actor tab = k) l))
  ∧ NoDup (keys (root_tabs (receiveResponse response st).1)).
Proof.
  intros Hinit Htabs Hne.
  destruct (tabs_response_events response l st Hinit Htabs Hne) as (Hfile & Hopened & Hclosed).
  rewrite Hfile, Hopened, Hclosed.
  split; [reflexivity|]. split; [|split].
  - unfold Map. f_equal. apply list_filter_iff. intros [k p]. simpl.
    rewrite <- (keys_file (root_tabs st)), <- Map_has_keys.
    destruct (Map_has (tabproxy_name p) (file (root_tabs st) l [])); split; intros H;
      first [discriminate H|reflexivity|exfalso; apply H; reflexivity
            |intros H'; discriminate H'].
  - intros k. rewrite Map_get_file.
    destruct (last (filter (λ tab, tab_actor tab = k) l)); reflexivity.
  - apply NoDup_keys_file. constructor.
Qed.

Lemma tabs_response_announces_changes_witness :
  opened (receiveResponse someTabs init).2
  = map newProxy (filter (λ tab, Map_has (tab_actor tab) (root_tabs init) = false) [oneTab]).
Proof.
  apply (tabs_response_announces_changes someTabs [oneTab] init);
    [reflexivity|reflexivity|discriminate].
Defined.

Lemma filter_none {A} (P : A → Prop) `{∀ x, Decision (P x)} (l : list A) :
  (∀ x, x ∈ l → ¬ P x) → filter P l = [].
Proof.
  induction l as [|x l IH]; intros Hnone; [reflexivity|].
  rewrite filter_cons_False by (apply Hnone, list_elem_of_here).
  apply IH. intros y Hy. apply Hnone, list_elem_of_further, Hy.
Qed.

Lemma filedByName_file known l : filedByName known → filedByName (file known l []).
Proof.
  intros [Hnd Hnames].
  assert (NoDup (keys (file known l []))) as Hnd' by (apply NoDup_keys_file; constructor).
  split; [exact Hnd'|]. intros k p Hin.
  apply (elem_Map_get k p _ Hnd') in Hin. rewrite Map_get_file in Hin.
  pose proof (last_filter_actor k l) as Hlast.
  destruct (last (filter (λ tab, tab_actor tab = k) l)) as [tab|]; [|discriminate Hin].
  destruct Hlast as [_ Hactor]. injection Hin as <-. unfold proxyFor.
  destruct (Map_get (tab_actor tab) known) as [q|] eqn:Hq; simpl.
  - rewrite <- Hactor. apply Hnames, Map_get_elem, Hq.
  - exact Hactor.
Qed.

Lemma receiveResponse_cases response st :
  (receiveResponse response st).1 = st
  ∧ settledRequests (receiveResponse response st).2 = []
  ∧ opened (receiveResponse response st).2 = []
  ∧ closed (receiveResponse response st).2 = []
  ∨ truthy_opt_string (applicationType response) = false
    ∧ ∃ l, tabs response = Some l ∧ l ≠ [].
Proof.
  unfold receiveResponse.
  destruct (truthy_opt_string (applicationType response)); [left; repeat split|].
  destruct (tabs response) as [[|tab l]|].
  - left; repeat split.
  - right. split; [reflexivity|]. exists (tab :: l). split; [reflexivity|discriminate].
  - left. destruct (bool_decide (type_ response = Some "tabListChanged")); repeat split.
Qed.

Lemma filedByName_step st op :
  filedByName (root_tabs st) → filedByName (root_tabs (step st op).1).
Proof.
  intros Hfiled. destruct op as [|response]; [exact Hfiled|]. simpl.
  destruct (receiveResponse_cases response st) as [(-> & _)|(Hinit & l & Htabs & Hne)];
    [exact Hfiled|].
  rewrite (receiveResponse_tabs response l st Hinit Htabs Hne). simpl.
  apply filedByName_file, Hfiled.
Qed.

Lemma filedByName_run ops : ∀ st,
  filedByName (root_tabs st) → filedByName (root_tabs (run st ops).1).
Proof.
  induction ops as [|op ops IH]; intros st Hfiled; [exact Hfiled|]. simpl.
  pose proof (filedByName_step st op Hfiled) as Hstep.
  destruct (step st op) as [st1 e1]. specialize (IH st1 Hstep).
  destruct (run st1 ops) as [st2 e2]. exact IH.
Qed.

(** X14: a tabs response that lists exactly the tabs the proxy knows is
    silent.  In every state the proxy can reach, such a response emits
    neither [tabOpened] nor [tabClosed], and every key keeps its proxy
    (with the title and url it was created with). *)
Theorem unchanged_tab_list_is_silent ops response l :
  truthy_opt_string (applicationType response) = false →
  tabs response = Some l →
  l ≠ [] →
  (∀ k, k ∈ map tab_actor l ↔ k ∈ keys (root_tabs (run init ops).1)) →
  opened (receiveResponse response (run init ops).1).2 = []
  ∧ closed (receiveResponse response (run init ops).1).2 = []
  ∧ ∀ k, Map_get k (root_tabs (receiveResponse response (run init ops).1).1)
         = Map_get k (root_tabs (run init ops).1).
Proof.
  intros Hinit Htabs Hne Hsame.
  assert (filedByName (root_tabs (run init ops).1)) as [Hnd Hnames].
  { apply filedByName_run. split; [constructor|].
    intros k p Hin. apply elem_of_nil in Hin. destruct Hin. }
  destruct (tabs_response_events response l (run init ops).1 Hinit Htabs Hne)
    as (Hfile & Hopened & Hclosed).
  rewrite Hfile, Hopened, Hclosed. set (known := root_tabs (run init ops).1) in *.
  split; [|split].
  - rewrite filter_none; [reflexivity|]. intros tab Hin Hnot.
    assert (tab_actor tab ∈ keys known) as Hk.
    { apply Hsame, list_elem_of_fmap. exists tab. split; [reflexivity|exact Hin]. }
    apply Map_has_keys in Hk. congruence.
  - unfold Map in *. rewrite filter_none; [reflexivity|].
    intros [k p] Hin Hnot. simpl in Hnot.
    assert (tabproxy_name p ∈ keys (file known l [])) as Hk.
    { apply keys_file, Hsame. rewrite (Hnames k p Hin).
      apply list_elem_of_fmap. exists (k, p). split; [reflexivity|exact Hin]. }
    apply Map_has_keys in Hk. congruence.
  - intros k. rewrite Map_get_file.
    pose proof (last_filter_actor k l) as Hlast.
    destruct (last (filter (λ tab, tab_actor tab = k) l)) as [tab|].
    + destruct Hlast as [Hin Hactor]. unfold proxyFor. rewrite Hactor.
      assert (Map_has k known = true) as Hhas.
      { apply Map_has_keys, Hsame. rewrite <- Hactor.
        apply list_elem_of_fmap. exists tab. split; [reflexivity|exact Hin]. }
      unfold Map_has in Hhas. destruct (Map_get k known); [reflexivity|discriminate].
    + simpl. destruct (Map_get k known) as [p|] eqn:Hget; [|reflexivity].
      exfalso. apply Hlast, Hsame, Map_has_keys. unfold Map_has. rewrite Hget. reflexivity.
Qed.

Lemma unchanged_tab_list_is_silent_witness :
  opened (receiveResponse someTabs (run init [OpFetchTabs; OpReceive someTabs]).1).2 = []
  ∧ closed (receiveResponse someTabs (run init [OpFetchTabs; OpReceive someTabs]).1).2 = []
  ∧ ∀ k, Map_get k (root_tabs (receiveResponse someTabs
                                 (run init [OpFetchTabs; OpReceive someTabs]).1).1)
         = Map_get k (root_tabs (run init [OpFetchTabs; OpReceive someTabs]).1).
Proof.
  apply (unchanged_tab_list_is_silent [OpFetchTabs; OpReceive someTabs] someTabs [oneTab]);
    [reflexivity|reflexivity|discriminate|].
  intros k. split; intros Hk; exact Hk.
Defined.

Lemma receiveResponse_sent response st : sent (receiveResponse response st).2 = [].
Proof.
  destruct (truthy_opt_string (applicationType response)) eqn:Hinit.
  { unfold receiveResponse. rewrite Hinit. reflexivity. }
  destruct (tabs response) as [[|tab l]|] eqn:Htabs.
  - unfold receiveResponse. rewrite Hinit, Htabs. reflexivity.
  - rewrite (receiveResponse_tabs response (tab :: l) st Hinit Htabs); [|discriminate].
    cbn [fst snd].
    destruct (announce_only_opens (root_tabs st) (tab :: l)) as (_ & _ & Hs1).
    destruct (closedTabs_only_closes (root_tabs st) (file (root_tabs st) (tab :: l) []))
      as (_ & _ & Hs2).
    destruct (settle_only_settles
                (PendingRequests.resolveOne (file (root_tabs st) (tab :: l) [])
                   (pendingTabsRequests st)).2) as (_ & _ & Hs3 & _).
    unfold sent in *. rewrite !omap_app, Hs1, Hs2, Hs3. reflexivity.
  - unfold receiveResponse. rewrite Hinit, Htabs.
    destruct (bool_decide (type_ response = Some "tabListChanged")); reflexivity.
Qed.

Lemma receiveResponse_accounts response st :
  settledRequests (receiveResponse response st).2
    ++ pendingTabsRequests (receiveResponse response st).1
  = pendingTabsRequests st
  ∧ nextPromise (receiveResponse response st).1 = nextPromise st
  ∧ sent (receiveResponse response st).2 = [].
Proof.
  split; [|split; [|apply receiveResponse_sent]].
  all: destruct (receiveResponse_cases response st)
         as [(Hst & Hsettled & _)|(Hinit & l & Htabs & Hne)].
  - rewrite Hsettled, Hst. reflexivity.
  - rewrite (receiveResponse_tabs response l st Hinit Htabs Hne). cbn [fst snd].
    cbn [pendingTabsRequests].
    destruct (announce_only_opens (root_tabs st) l) as (_ & Hq1 & _).
    destruct (closedTabs_only_closes (root_tabs st) (file (root_tabs st) l []))
      as (_ & Hq2 & _).
    destruct (settle_only_settles
                (PendingRequests.resolveOne (file (root_tabs st) l [])
                   (pendingTabsRequests st)).2) as (_ & _ & _ & Hq3).
    unfold settledRequests in *. rewrite !omap_app, Hq1, Hq2, Hq3. simpl.
    destruct (pendingTabsRequests st); reflexivity.
  - rewrite Hst. reflexivity.
  - rewrite (receiveResponse_tabs response l st Hinit Htabs Hne). reflexivity.
Qed.

Lemma run_accounts ops : ∀ st effs,
  settledRequests effs ++ pendingTabsRequests st = seq 0 (nextPromise st) →
  sent effs = repeat listTabs (nextPromise st) →
  settledRequests (effs ++ (run st ops).2) ++ pendingTabsRequests (run st ops).1
  = seq 0 (nextPromise (run st ops).1)
  ∧ sent (effs ++ (run st ops).2) = repeat listTabs (nextPromise (run st ops).1).
Proof.
  induction ops as [|op ops IH]; intros st effs Hqueue Hsent.
  - simpl. rewrite app_nil_r. split; assumption.
  - simpl.
    assert (settledRequests (effs ++ (step st op).2) ++ pendingTabsRequests (step st op).1
            = seq 0 (nextPromise (step st op).1)
            ∧ sent (effs ++ (step st op).2) = repeat listTabs (nextPromise (step st op).1))
      as [Hqueue1 Hsent1].
    { destruct op as [|response].
      - change (step st OpFetchTabs)
          with ({| root_tabs := root_tabs st;
                   pendingTabsRequests := pendingTabsRequests st ++ [nextPromise st];
                   nextPromise := S (nextPromise st) |},
                [LogDebug FetchingTabs; SendRequest listTabs]).
        cbn [fst snd pendingTabsRequests nextPromise].
        unfold settledRequests, sent in *. rewrite !omap_app.
        cbn [omap list_omap]. rewrite app_nil_r, app_assoc, Hqueue, Hsent, seq_S.
        split; [reflexivity|]. rewrite <- repeat_cons. reflexivity.
      - destruct (receiveResponse_accounts response st) as (Hq & Hn & Hs). simpl.
        unfold settledRequests, sent in *.
        rewrite !omap_app, <- app_assoc, Hq, Hn, Hs, app_nil_r. split; assumption. }
    destruct (step st op) as [st1 e1]. specialize (IH st1 (effs ++ e1) Hqueue1 Hsent1).
    destruct (run st1 ops) as [st2 e2]. simpl in *. rewrite app_assoc. exact IH.
Qed.

(** X15: the promises of [fetchTabs] are settled in the order of the
    calls, each at most once, and none is lost.  After every sequence of
    calls and packets, the promises settled so far (in the order of their
    settlement) followed by the promises still pending are the promises
    handed out, in the order of the calls; and the proxy has written one
    [listTabs] request for each of them and no other request (the retry
    after an empty tab list is only scheduled). *)
Theorem fetchTabs_promises_in_order (ops : list Op) :
  settledRequests (run init ops).2 ++ pendingTabsRequests (run init ops).1
  = seq 0 (nextPromise (run init ops).1)
  ∧ sent (run init ops).2 = repeat listTabs (nextPromise (run init ops).1).
Proof. apply (run_accounts ops init []); reflexivity. Qed.

End RootTabsFacts.

(** ** The thread actor proxy: its promises *)

Section ThreadActorProxyFacts.
Import PendingRequests ThreadActorProxy Inputs.ThreadPackets.

Lemma accounts_call (c : RequestQueue.Call Value) :
  RequestQueue.enqueued c = None → accounts (RequestQueue.call c).
Proof.
  intros Hnone q. rewrite call_accounts, Hnone. apply app_nil_r.
Qed.

Lemma accounts_resolveAll v : accounts (resolveAll v).
Proof. exact (accounts_call (RequestQueue.ResolveAll v) eq_refl). Qed.

Lemma accounts_rejectAll err : accounts (rejectAll err).
Proof. exact (accounts_call (RequestQueue.RejectAll err) eq_refl). Qed.

Lemma accounts_resolveOne v : accounts (resolveOne v).
Proof. exact (accounts_call (RequestQueue.ResolveOne v) eq_refl). Qed.

Lemma accounts_rejectOne err : accounts (rejectOne err).
Proof. exact (accounts_call (RequestQueue.RejectOne err) eq_refl). Qed.

Lemma settledIn_app queue l1 l2 :
  settledIn queue (l1 ++ l2) = settledIn queue l1 ++ settledIn queue l2.
Proof. apply omap_app. Qed.

Lemma settledIn_settle queue queue' (l : list (Settlement Value)) :
  settledIn queue (map (Settle queue') l)
  = if decide (queue' = queue) then omap RequestQueue.settled l else [].
Proof.
  unfold settledIn. induction l as [|s l IH].
  - destruct (decide (queue' = queue)); reflexivity.
  - change (map (Settle queue') (s :: l)) with ([Settle queue' s] ++ map (Settle queue') l).
    rewrite omap_app, IH. simpl.
    destruct (decide (queue' = queue)); [|reflexivity].
    destruct (RequestQueue.settled s); reflexivity.
Qed.

Lemma onQueue_accounted queue queue' f acc :
  accounts f → accountedFor queue (onQueue queue' f acc) = accountedFor queue acc.
Proof.
  intros Hf. destruct acc as [st effs]. unfold onQueue, accountedFor.
  specialize (Hf (pending st queue')).
  destruct (f (pending st queue')) as [q settled]. simpl in *.
  rewrite settledIn_app, settledIn_settle, <- app_assoc. f_equal.
  destruct (decide (queue = queue')) as [->|Hne].
  - destruct (decide (queue' = queue')) as [_|Habs]; [exact Hf|contradiction].
  - destruct (decide (queue' = queue)) as [Heq|_]; [congruence|reflexivity].
Qed.

Lemma emit_accounted queue event acc :
  accountedFor queue (emit event acc) = accountedFor queue acc.
Proof.
  unfold emit, accountedFor. simpl. rewrite settledIn_app. simpl. rewrite app_nil_r. reflexivity.
Qed.

Lemma receiveResponse_accounted queue response st :
  accountedFor queue (receiveResponse response st).1 = pending st queue.
Proof.
  unfold receiveResponse.
  repeat (case_match; cbn [fst snd]);
    rewrite ?emit_accounted;
    rewrite ?onQueue_accounted
      by first [apply accounts_resolveAll|apply accounts_rejectAll
               |apply accounts_resolveOne|apply accounts_rejectOne];
    reflexivity.
Qed.

Lemma step_accounted queue st op :
  accountedFor queue ((step st op).1.1, (step st op).1.2)
  = pending st queue ++ returnedFor queue (from_option (λ p, [p]) [] (step st op).2).
Proof.
  destruct op; cbn [step].
  10: { pose proof (receiveResponse_accounted queue response st) as Hreceive.
        destruct (receiveResponse response st) as [[st' effs] err].
        simpl in *. rewrite Hreceive, app_nil_r. reflexivity. }
  all: unfold attach, setBreakpoint, fetchSources, fetchStackFrames, resume, stepOver,
         stepInto, stepOut, detach, request, send, accountedFor, returnedFor, enqueue;
       simpl; rewrite ?app_nil_r; try reflexivity.
  all: destruct (decide (queue = _)) as [->|Hne];
       [destruct (decide (_ = _)) as [_|Habs]; [reflexivity|contradiction]
       |destruct (decide (_ = queue)) as [Heq|_]; [congruence|rewrite app_nil_r; reflexivity]].
Qed.

Lemma returnedFor_app queue l1 l2 :
  returnedFor queue (l1 ++ l2) = returnedFor queue l1 ++ returnedFor queue l2.
Proof. apply omap_app. Qed.

Lemma run_accounted queue ops : ∀ st,
  accountedFor queue ((run st ops).1.1, (run st ops).1.2)
  = pending st queue ++ returnedFor queue (run st ops).2.
Proof.
  induction ops as [|op ops IH]; intros st.
  - unfold accountedFor. simpl. rewrite app_nil_r. reflexivity.
  - pose proof (step_accounted queue st op) as Hstep. simpl.
    destruct (step st op) as [[st1 e1] p1]. specialize (IH st1).
    destruct (run st1 ops) as [[st2 e2] p2]. unfold accountedFor in *. simpl in *.
    rewrite settledIn_app, returnedFor_app, <- app_assoc, IH, !app_assoc. f_equal.
    exact Hstep.
Qed.

(** X16: the thread actor proxy loses no promise and settles none twice.
    Over every sequence of method calls and packets, and for each of its
    five queues, the promises of the queue settled so far (in the order of
    their settlement) followed by those still pending are the promises the
    queue's method returned to its callers, in the order of the calls. *)
Theorem thread_promises_accounted (_name : string) (ops : list Op) (queue : Queue) :
  settledIn queue (run (create _name) ops).1.2 ++ pending (run (create _name) ops).1.1 queue
  = returnedFor queue (run (create _name) ops).2.
Proof. exact (run_accounted queue ops (create _name)). Qed.

(** X17: [fetchStackFrames] asks the thread actor for its sources, and the
    answer to that request does not settle the promise it returned: a
    packet that reaches the sources branch leaves the frames queue, with the
    new promise in it, as it was, and is taken for the answer to
    [fetchSources] (or logged as unrequested). *)
Theorem fetchStackFrames_asks_for_sources st response l :
  type_ response = None →
  error response = None →
  actualLocation response = None →
  sources response = Some l →
  let '(st1, effs, promise) := fetchStackFrames st in
  sent effs = [mkRequest (name st) "sources" None None]
  ∧ promise = Some (pendingFrameRequests, nextPromise st)
  ∧ pending (receiveResponse response st1).1.1 pendingFrameRequests
    = pending st pendingFrameRequests ++ [nextPromise st]
  ∧ settledIn pendingFrameRequests (receiveResponse response st1).1.2 = []
  ∧ (receiveResponse response st1).1.2
    = map (Settle pendingSourceRequests)
        (resolveOne (Payload l) (pending st pendingSourceRequests)).2.
Proof.
  intros Htype Herror Hlocation Hsources.
  unfold fetchStackFrames, request, receiveResponse, typeIs, errorIs, onQueue.
  rewrite Htype, Herror, Hlocation, Hsources. simpl.
  destruct (pending st pendingSourceRequests) as [|p rest]; simpl; repeat split.
Qed.

Lemma fetchStackFrames_asks_for_sources_witness :
  let '(st1, effs, promise) := fetchStackFrames thread in
  sent effs = [mkRequest (name thread) "sources" None None]
  ∧ promise = Some (pendingFrameRequests, nextPromise thread)
  ∧ pending (receiveResponse sourcesReply st1).1.1 pendingFrameRequests
    = pending thread pendingFrameRequests ++ [nextPromise thread]
  ∧ settledIn pendingFrameRequests (receiveResponse sourcesReply st1).1.2 = []
  ∧ (receiveResponse sourcesReply st1).1.2
    = map (Settle pendingSourceRequests)
        (resolveOne (Payload "[{ url: 'http://localhost/s.js' }]")
           (pending thread pendingSourceRequests)).2.
Proof.
  apply (fetchStackFrames_asks_for_sources thread sourcesReply
           "[{ url: 'http://localhost/s.js' }]"); reflexivity.
Defined.

End ThreadActorProxyFacts.

(** ** The tab actor proxy: where the tab is *)

Section TabActorProxyFacts.
Import PendingRequests TabActorProxy.

Lemma receiveResponse_fields response st :
  _name (receiveResponse response st).1 = _name st
  ∧ _url (receiveResponse response st).1
    = (if navigates "start" response || navigates "stop" response
       then url response else _url st)
  ∧ _title (receiveResponse response st).1
    = (if navigates "stop" response then title response else _title st).
Proof.
  unfold receiveResponse, navigates, typeIs.
  destruct (type_ response) as [t|]; [|destruct (bool_decide (error response = _))].
  2, 3: simpl; repeat case_match; simplify_eq; repeat split.
  destruct (decide (t = "tabNavigated")) as [->|Hne].
  - simpl. destruct (bool_decide (error response = Some "wrongState")); simpl.
    + destruct (rejectOne _ _); repeat split.
    + destruct (state response) as [s|]; [|repeat split].
      destruct (decide (s = "start")) as [->|Hstart]; [repeat split|].
      rewrite (bool_decide_eq_false_2 (Some s = Some "start")) by congruence.
      destruct (decide (s = "stop")) as [->|Hstop]; [repeat split|].
      rewrite (bool_decide_eq_false_2 (Some s = Some "stop")) by congruence.
      repeat split.
  - rewrite (bool_decide_eq_false_2 (Some t = Some "tabNavigated")) by congruence.
    simpl. repeat case_match; simplify_eq; repeat split.
Qed.

Lemma last_navigation {A} (P : Response → bool) (f : Response → A) r rs d :
  from_option f (if P r then f r else d) (last (filter (λ r, P r = true) rs))
  = from_option f d (last (filter (λ r, P r = true) (r :: rs))).
Proof.
  destruct (P r) eqn:HP.
  - rewrite filter_cons_True by exact HP. rewrite last_cons.
    destruct (last (filter _ rs)); reflexivity.
  - rewrite filter_cons_False by (rewrite HP; discriminate). reflexivity.
Qed.

(** X18: the proxy knows where the tab is.  After any sequence of packets
    its name is the one it was created with; its url is the url of the last
    packet taken for a navigation (start or stop), and its title the title
    of the last packet taken for a completed navigation (stop), or what it
    was before when there is no such packet. *)
Theorem tab_tracks_navigation responses : ∀ st,
  _name (receiveAll responses st).1 = _name st
  ∧ _url (receiveAll responses st).1
    = from_option url (_url st)
        (last (filter (λ r, navigates "start" r || navigates "stop" r = true) responses))
  ∧ _title (receiveAll responses st).1
    = from_option title (_title st)
        (last (filter (λ r, navigates "stop" r = true) responses)).
Proof.
  induction responses as [|r rs IH]; intros st; [repeat split|].
  destruct (receiveResponse_fields r st) as (Hname & Hurl & Htitle).
  cbn [receiveAll]. destruct (receiveResponse r st) as [st1 e1].
  destruct (IH st1) as (IHname & IHurl & IHtitle).
  destruct (receiveAll rs st1) as [st2 e2]. cbn [fst snd] in *.
  split; [congruence|]. split.
  - rewrite IHurl, Hurl.
    apply (last_navigation (λ r, navigates "start" r || navigates "stop" r) url).
  - rewrite IHtitle, Htitle. apply (last_navigation (navigates "stop") title).
Qed.

End TabActorProxyFacts.

(** ** Connecting: attach first, launch as the fallback *)

Section ConnectToFirefoxFacts.
Import Handler ConnectToFirefox Inputs.Connecting.

Ltac unfold_connect :=
  unfold connectToFirefox, tryToAttach, launchAndWait, launchOnly,
    effects, trace, finalState, outcome,
    tryCatch, bind, ret, perform, get, modify, await, throw.

(** X19: attaching comes first and launching is the fallback.  With an
    attach configuration: when the connection succeeds its socket is
    returned, [reloadTabs] is taken from the configuration and nothing is
    launched; when it fails and there is no launch configuration the error
    is passed on and nothing else happens; when it fails and there is a
    launch configuration the error is dropped and the function goes on
    exactly as it would without the attach configuration. *)
Theorem attach_first_launch_as_fallback env config a (s : State) :
  attach config = Some a →
  (∀ socket, connect env = Done socket →
     outcome (connectToFirefox env config s) = Done socket
     ∧ effects (connectToFirefox env config s) = [Connect (attach_port a) (attach_host a)]
     ∧ finalState (connectToFirefox env config s) = setReloadTabs (attach_reloadTabs a) s)
  ∧ (∀ err, connect env = Threw err → launch config = None →
     outcome (connectToFirefox env config s) = Threw err
     ∧ effects (connectToFirefox env config s) = [Connect (attach_port a) (attach_host a)]
     ∧ finalState (connectToFirefox env config s) = s)
  ∧ (∀ err, connect env = Threw err → launch config ≠ None →
     outcome (connectToFirefox env config s)
     = outcome (connectToFirefox env (launchOnly config) s)
     ∧ effects (connectToFirefox env config s)
       = Connect (attach_port a) (attach_host a)
           :: effects (connectToFirefox env (launchOnly config) s)
     ∧ finalState (connectToFirefox env config s)
       = finalState (connectToFirefox env (launchOnly config) s)).
Proof.
  intros Hattach. split; [|split].
  - intros socket Hconnect. unfold_connect. rewrite Hattach, Hconnect. repeat split.
  - intros err Hconnect Hlaunch. unfold_connect. rewrite Hattach, Hconnect, Hlaunch.
    repeat split.
  - intros err Hconnect Hlaunch. unfold_connect. rewrite Hattach, Hconnect. simpl.
    destruct (launch config) as [l|]; [|contradiction]. simpl.
    destruct (launchFirefox env) as [[p|]|err']; simpl; [| |repeat split].
    + destruct (detached l); simpl; destruct (waitForSocket env); repeat split.
    + destruct (waitForSocket env); repeat split.
Qed.

Lemma attach_first_launch_as_fallback_witness :
  outcome (connectToFirefox notRunning attachOrLaunch fresh) = Done 7
  ∧ effects (connectToFirefox notRunning attachOrLaunch fresh)
    = [Connect 6000%N "localhost"; LaunchFirefox (Some (mkLaunch 6000%N 2000%N true));
       WaitForSocket 6000%N 2000%N].
Proof.
  destruct (attach_first_launch_as_fallback notRunning attachOrLaunch
              (mkAttach 6000%N "localhost" true) fresh eq_refl) as (_ & _ & Hfallback).
  destruct (Hfallback "ECONNREFUSED" eq_refl ltac:(discriminate)) as (Hout & Heffs & _).
  split; [rewrite Hout; reflexivity|rewrite Heffs; reflexivity].
Defined.

Lemma connectToFirefox_detached env config l (s : State) :
  launch config = Some l →
  detached l = true →
  firefoxProc (finalState (connectToFirefox env config s)) = firefoxProc s.
Proof.
  intros Hlaunch Hdetached. unfold_connect. rewrite Hlaunch.
  destruct (attach config) as [a|]; simpl.
  1: destruct (connect env) as [socket|err]; simpl; [reflexivity|].
  all: destruct (launchFirefox env) as [[p|]|err']; simpl; rewrite ?Hdetached; simpl;
    try destruct (waitForSocket env); reflexivity.
Qed.

Lemma no_child_no_signal env config (s : Shutdown.State) signal :
  Shutdown.firefoxProc s = false →
  Shutdown.Kill signal ∉ effects (Shutdown.disconnectFirefoxAndCleanup env config s).
Proof.
  intros Hproc Hin.
  destruct (Shutdown.terminate config) eqn:Hterminate.
  - pose proof (shutdown_phases env config s Hterminate) as Hphases. simpl in Hphases.
    destruct (withoutWatcher_fields s) as (Hproc' & _ & _). rewrite Hproc in Hproc'.
    pose proof (tryToTerminate_no_child env config (Shutdown.withoutWatcher s)) as Hattempt.
    assert (∀ e, e ∈ Shutdown.watcherEffects s → e ≠ Shutdown.Kill signal) as Hwatcher.
    { intros e He. unfold Shutdown.watcherEffects in He.
      destruct (Shutdown.reloadWatcher s).
      - apply list_elem_of_singleton in He as ->. discriminate.
      - apply elem_of_nil in He. destruct He. }
    destruct (outcome (Shutdown.tryToTerminate env config (Shutdown.withoutWatcher s)))
      as [[]|err].
    + destruct Hphases as (Heffs & _ & _). rewrite Heffs in Hin.
      apply elem_of_app in Hin as [Hin|Hin]; [exact (Hwatcher _ Hin eq_refl)|].
      apply elem_of_app in Hin as [Hin|Hin]; [exact (Hattempt _ Hproc' Hin signal eq_refl)|].
      destruct (Shutdown.firefoxDebugSocketClosed
                  (finalState (Shutdown.tryToTerminate env config
                                 (Shutdown.withoutWatcher s)))) eqn:Hclosed.
      * destruct (cleanup_closed env config _ Hclosed) as (_ & _ & _ & Hclean & _).
        destruct (Hclean _ Hin) as (_ & _ & Hkill). exact (Hkill signal eq_refl).
      * rewrite (cleanup_open env config _ Hclosed) in Hin. unfold effects in Hin. simpl in Hin.
        repeat (apply elem_of_cons in Hin as [Habs|Hin]; [discriminate Habs|]).
        apply elem_of_nil in Hin. exact Hin.
    + destruct Hphases as (Heffs & _). rewrite Heffs in Hin.
      apply elem_of_app in Hin as [Hin|Hin]; [exact (Hwatcher _ Hin eq_refl)|].
      exact (Hattempt _ Hproc' Hin signal eq_refl).
  - revert Hin.
    unfold Shutdown.disconnectFirefoxAndCleanup, effects, trace, bind, perform.
    rewrite closeReloadWatcher_run, Hterminate.
    destruct (Shutdown.reloadWatcher s); simpl; intros Hin;
      repeat (apply elem_of_cons in Hin as [Habs|Hin]; [discriminate Habs|]);
      apply elem_of_nil in Hin; exact Hin.
Qed.

(** X20: a browser launched detached is never signalled.  When the launch
    configuration asks for a detached browser and the session holds no
    child process before, [connectToFirefox] stores none, whichever way it
    ends; and the shutdown of a session in that state sends no signal,
    whatever its configuration and whatever else it holds. *)
Theorem detached_browser_is_not_signalled env config l (s : State)
    envS configS watcher closed addons signal :
  launch config = Some l →
  detached l = true →
  firefoxProc s = None →
  firefoxProc (finalState (connectToFirefox env config s)) = None
  ∧ Shutdown.Kill signal
    ∉ effects (Shutdown.disconnectFirefoxAndCleanup envS configS
                 (atShutdown (finalState (connectToFirefox env config s))
                    watcher closed addons)).
Proof.
  intros Hlaunch Hdetached Hnone.
  pose proof (connectToFirefox_detached env config l s Hlaunch Hdetached) as Hsame.
  rewrite Hnone in Hsame. split; [exact Hsame|].
  apply no_child_no_signal. unfold atShutdown. simpl. rewrite Hsame. reflexivity.
Qed.

Lemma detached_browser_is_not_signalled_witness :
  firefoxProc (finalState (connectToFirefox notRunning attachOrLaunch fresh)) = None
  ∧ Shutdown.Kill "SIGTERM"
    ∉ effects (Shutdown.disconnectFirefoxAndCleanup Inputs.Stop.browserStays
                 Inputs.Stop.terminating
                 (atShutdown (finalState (connectToFirefox notRunning attachOrLaunch fresh))
                    false false true)).
Proof.
  apply (detached_browser_is_not_signalled notRunning attachOrLaunch (mkLaunch 6000%N 2000%N true)
           fresh Inputs.Stop.browserStays Inputs.Stop.terminating false false true "SIGTERM");
    reflexivity.
Defined.

End ConnectToFirefoxFacts.

(** ** The test utilities *)

Section WaitForUnoccupiedPort.
Import Handler TestUtil.Port Inputs.Ports.

Lemma isPortOccupied_run env port (n : State) :
  isPortOccupied env port n = (S n, [(Listen port, n)], probe env n).
Proof.
  unfold isPortOccupied, bind, get, perform, modify, await. simpl.
  destruct (probe env n); reflexivity.
Qed.

Lemma iterations_spec timeout (i : N) :
  (100 * i < timeout)%N ↔ (N.to_nat i < iterations timeout)%nat.
Proof.
  unfold iterations.
  pose proof (N.div_mod' (timeout + 99) 100) as Hdiv.
  pose proof (N.mod_lt (timeout + 99) 100 ltac:(discriminate)) as Hmod.
  set (q := ((timeout + 99) / 100)%N) in *.
  set (r := ((timeout + 99) mod 100)%N) in *.
  lia.
Qed.

Lemma retry_occupied env port : ∀ left (n : State),
  (∀ j, (j < left)%nat → probe env (n + j)%nat = Done true) →
  retry env port left n
  = ((n + left)%nat,
     concat (map (λ j, [(Delay 100, (n + j)%nat); (Listen port, (n + j)%nat)]) (seq 0 left)),
     Done false).
Proof.
  induction left as [|left IH]; intros n Hall.
  - simpl. unfold ret. rewrite Nat.add_0_r. reflexivity.
  - cbn [retry]. unfold bind at 1 2. unfold perform at 1.
    rewrite isPortOccupied_run.
    pose proof (Hall 0%nat ltac:(lia)) as H0. rewrite Nat.add_0_r in H0. rewrite H0.
    cbn [negb]. rewrite (IH (S n)).
    + cbn [seq map concat]. rewrite Nat.add_0_r, <- seq_shift, map_map.
      replace (S n + left)%nat with (n + S left)%nat by lia.
      simpl.
      rewrite (map_ext (λ j, [(Delay 100, S (n + j)); (Listen port, S (n + j))])
                 (λ j, [(Delay 100, (n + S j)%nat); (Listen port, (n + S j)%nat)]))
        by (intros j; rewrite Nat.add_succ_r; reflexivity).
      reflexivity.
    + intros j Hj. replace (S n + j)%nat with (n + S j)%nat by lia. apply Hall. lia.
Qed.

Lemma retry_free env port : ∀ left (n : State) k,
  (k < left)%nat →
  (∀ j, (j < k)%nat → probe env (n + j)%nat = Done true) →
  probe env (n + k)%nat = Done false →
  retry env port left n
  = ((n + S k)%nat,
     concat (map (λ j, [(Delay 100, (n + j)%nat); (Listen port, (n + j)%nat)]) (seq 0 (S k))),
     Done true).
Proof.
  induction left as [|left IH]; intros n k Hk Hbefore Hfree; [lia|].
  cbn [retry]. unfold bind at 1 2. unfold perform at 1. rewrite isPortOccupied_run.
  destruct k as [|k].
  - rewrite Nat.add_0_r in Hfree. rewrite Hfree. simpl. unfold ret.
    rewrite Nat.add_0_r, Nat.add_1_r. reflexivity.
  - pose proof (Hbefore 0%nat ltac:(lia)) as H0. rewrite Nat.add_0_r in H0. rewrite H0.
    cbn [negb]. rewrite (IH (S n) k).
    + cbn [seq map concat]. rewrite Nat.add_0_r, <- !seq_shift, !map_map.
      replace (S n + S k)%nat with (n + S (S k))%nat by lia.
      simpl.
      rewrite (map_ext (λ j, [(Delay 100, S (n + S j)); (Listen port, S (n + S j))])
                 (λ j, [(Delay 100, (n + S (S j))%nat); (Listen port, (n + S (S j))%nat)]))
        by (intros j; rewrite !Nat.add_succ_r; reflexivity).
      rewrite !Nat.add_succ_r, Nat.add_0_r. reflexivity.
    + lia.
    + intros j Hj. replace (S n + j)%nat with (n + S j)%nat by lia. apply Hbefore. lia.
    + replace (S n + k)%nat with (n + S k)%nat by lia. exact Hfree.
Qed.

Lemma effects_polls port (f : nat → State) (l : list nat) :
  map fst (concat (map (λ j, [(Delay 100, f j); (Listen port, f j)]) l))
  = concat (repeat [Delay 100; Listen port] (length l)).
Proof.
  induction l as [|j l IH]; [reflexivity|].
  cbn [map concat repeat length]. rewrite map_app, IH. reflexivity.
Qed.

(** X21: [waitForUnoccupiedPort] polls the port every 100 ms for as long
    as the timeout allows.  When the port is found free at the [k]-th
    re-probe, with [k] at most the number of 100 ms steps that begin
    before the timeout, the function returns after exactly [k] delays and
    [k + 1] probes; when the port is occupied at every one of these probes
    it throws that the port is occupied.  The number of re-probes is the
    number of [i] with [i < timeout / 100]. *)
Theorem waitForUnoccupiedPort_polls env port timeout :
  (∀ k, (k ≤ iterations timeout)%nat →
        (∀ j, (j < k)%nat → probe env j = Done true) →
        probe env k = Done false →
        outcome (waitForUnoccupiedPort env port timeout 0%nat) = Done tt
        ∧ effects (waitForUnoccupiedPort env port timeout 0%nat) = polls port k)
  ∧ ((∀ j, (j ≤ iterations timeout)%nat → probe env j = Done true) →
     outcome (waitForUnoccupiedPort env port timeout 0%nat)
     = Threw ("Port " +:+ toString port +:+ " is occupied")
     ∧ effects (waitForUnoccupiedPort env port timeout 0%nat)
       = polls port (iterations timeout))
  ∧ (∀ i : N, (100 * i < timeout)%N ↔ (N.to_nat i < iterations timeout)%nat).
Proof.
  split; [|split; [|intros i; apply iterations_spec]].
  - intros k Hk Hbefore Hfree.
    unfold waitForUnoccupiedPort, bind, effects, outcome, trace.
    rewrite isPortOccupied_run.
    destruct k as [|k].
    + rewrite Hfree. simpl. split; reflexivity.
    + rewrite (Hbefore 0%nat ltac:(lia)). cbn [negb].
      rewrite (retry_free env port (iterations timeout) 1 k); [|lia| |exact Hfree].
      * unfold ret. cbn [fst snd]. split; [reflexivity|].
        rewrite app_nil_r, map_app, effects_polls, length_seq. reflexivity.
      * intros j Hj. apply Hbefore. lia.
  - intros Hall.
    unfold waitForUnoccupiedPort, bind, effects, outcome, trace.
    rewrite isPortOccupied_run, (Hall 0%nat ltac:(lia)). cbn [negb].
    rewrite (retry_occupied env port (iterations timeout) 1).
    + unfold throw. cbn [fst snd]. split; [reflexivity|].
      rewrite app_nil_r, map_app, effects_polls, length_seq. reflexivity.
    + intros j Hj. apply Hall. lia.
Qed.

Lemma waitForUnoccupiedPort_polls_witness :
  outcome (waitForUnoccupiedPort freedSoon 6000 1000 0%nat) = Done tt
  ∧ effects (waitForUnoccupiedPort freedSoon 6000 1000 0%nat)
    = [Listen 6000; Delay 100; Listen 6000; Delay 100; Listen 6000].
Proof.
  apply (proj1 (waitForUnoccupiedPort_polls freedSoon 6000 1000) 2%nat).
  - vm_compute. lia.
  - intros [|[|j]] Hj; [reflexivity|reflexivity|lia].
  - reflexivity.
Defined.

End WaitForUnoccupiedPort.

Section CollectOutputEvents.
Import TestUtil.Collect.
Context {Ev : Type}.

Lemma awaited_spec count n :
  (awaited count ≤ S n)%nat ↔ (Z.of_nat (S n) >= count)%Z.
Proof. unfold awaited. lia. Qed.

Lemma emitAll_snoc count (events : list Ev) event :
  emitAll count (events ++ [event]) = emitOutput count (emitAll count events) event.
Proof. unfold emitAll. rewrite fold_left_app. reflexivity. Qed.

(** X22: [collectOutputEvents] resolves with the first [count] output
    events, and with the first event when [count] is zero or negative.
    After any sequence of output events the promise is resolved exactly
    when at least that many events have arrived, and then with exactly the
    first that many, in order; the listener is registered exactly while the
    promise is pending, so later events are not collected. *)
Theorem collectOutputEvents_first_events count (events : list Ev) :
  resolved (emitAll count events)
  = (if (awaited count <=? length events)%nat
     then Some (take (awaited count) events) else None)
  ∧ listening (emitAll count events) = negb (awaited count <=? length events)%nat
  ∧ outputEvents (emitAll count events) = take (awaited count) events.
Proof.
  induction events as [|event events (IHr & IHl & IHo)] using rev_ind.
  - assert (1 ≤ awaited count)%nat as Hpos by (unfold awaited; lia).
    destruct (Nat.leb_spec (awaited count) (length (@nil Ev))) as [Hle|_];
      [simpl in Hle; lia|]. rewrite take_nil. repeat split.
  - rewrite emitAll_snoc, length_app. cbn [length]. rewrite Nat.add_1_r.
    unfold emitOutput. rewrite IHl.
    destruct (Nat.leb_spec (awaited count) (length events)) as [Hle|Hlt]; cbn [negb].
    + rewrite IHr, IHl, IHo.
      destruct (Nat.leb_spec (awaited count) (S (length events))) as [_|Habs]; [|lia].
      rewrite take_app_le by exact Hle. repeat split.
    + unfold listener. rewrite IHr, IHl, IHo.
      rewrite (take_ge events) by lia. rewrite length_app. cbn [length].
      rewrite Nat.add_1_r.
      pose proof (awaited_spec count (length events)) as Hspec.
      destruct (Z.geb_spec (Z.of_nat (S (length events))) count) as [Hge|Hnot];
        destruct (Nat.leb_spec (awaited count) (S (length events))) as [Hle'|Hlt'];
        try lia; cbn [resolved listening outputEvents negb].
      * rewrite take_ge by (rewrite length_app; simpl; lia). repeat split.
      * rewrite take_ge by (rewrite length_app; simpl; lia). repeat split.
Qed.

End CollectOutputEvents.

Section EvaluateCloaked.
Import TestUtil.Cloak.

Lemma replaceApostrophe_first a b :
  contains apostrophe a = false →
  replaceApostrophe (a +:+ String apostrophe b) = a +:+ String backslash (String apostrophe b).
Proof.
  induction a as [|c a IH]; intros Hfree; simpl.
  - reflexivity.
  - simpl in Hfree. apply orb_false_iff in Hfree as [Hc Ha].
    rewrite Hc, (IH Ha). reflexivity.
Qed.

Lemma replaceApostrophe_none a : contains apostrophe a = false → replaceApostrophe a = a.
Proof.
  induction a as [|c a IH]; intros Hfree; simpl; [reflexivity|].
  simpl in Hfree. apply orb_false_iff in Hfree as [Hc Ha].
  rewrite Hc, (IH Ha). reflexivity.
Qed.

(** X23: [evaluateCloaked] escapes the first apostrophe of the script and
    no other.  For a script [a'b] whose part [a] has no apostrophe, the
    expression sent wraps [a\'b], with [b] as it is (apostrophes
    included); a script without apostrophes is wrapped unchanged. *)
Theorem evaluateCloaked_escapes_first_apostrophe a b :
  contains apostrophe a = false →
  evaluateCloaked (a +:+ String apostrophe b)
  = "eval('setTimeout(function() { " +:+ (a +:+ String backslash (String apostrophe b))
      +:+ " }, 0)')"
  ∧ evaluateCloaked a = "eval('setTimeout(function() { " +:+ a +:+ " }, 0)')".
Proof.
  intros Hfree. unfold evaluateCloaked.
  rewrite (replaceApostrophe_first a b Hfree), (replaceApostrophe_none a Hfree).
  split; reflexivity.
Qed.

Lemma evaluateCloaked_escapes_first_apostrophe_witness :
  evaluateCloaked "log('a', 'b')"
  = "eval('setTimeout(function() { log(\'a', 'b') }, 0)')".
Proof.
  apply (proj1 (evaluateCloaked_escapes_first_apostrophe "log(" "a', 'b')" eq_refl)).
Defined.

End EvaluateCloaked.

Section FindVariable.
Import Handler TestUtil.Find.

Lemma search_first variables varName :
  match search variables varName with
  | Some v =>
      ∃ before after, variables = before ++ v :: after ∧ var_name v = varName
                      ∧ ∀ v', v' ∈ before → var_name v' ≠ varName
  | None => ∀ v, v ∈ variables → var_name v ≠ varName
  end.
Proof.
  induction variables as [|v variables IH]; simpl.
  - intros v Hin. apply elem_of_nil in Hin. destruct Hin.
  - destruct (String.eqb_spec (var_name v) varName) as [Heq|Hne].
    + exists [], variables. split; [reflexivity|]. split; [exact Heq|].
      intros v' Hin. apply elem_of_nil in Hin. destruct Hin.
    + destruct (search variables varName) as [found|].
      * destruct IH as (before & after & -> & Hname & Hfirst).
        exists (v :: before), after. split; [reflexivity|]. split; [exact Hname|].
        intros v' Hin. apply elem_of_cons in Hin as [->|Hin]; [exact Hne|exact (Hfirst v' Hin)].
      * intros v' Hin. apply elem_of_cons in Hin as [->|Hin]; [exact Hne|exact (IH v' Hin)].
Qed.

(** X24: [findVariable] returns the first variable with the given name
    and throws exactly when there is none: a result is an element of the
    list that has the name and is preceded by no variable with that name;
    the error names the variable and is thrown only when no element has
    the name. *)
Theorem findVariable_first_match variables varName :
  match findVariable variables varName with
  | Done v =>
      ∃ before after, variables = before ++ v :: after ∧ var_name v = varName
                      ∧ ∀ v', v' ∈ before → var_name v' ≠ varName
  | Threw err =>
      err = "Variable '" +:+ varName +:+ "' not found"
      ∧ ∀ v, v ∈ variables → var_name v ≠ varName
  end.
Proof.
  unfold findVariable. pose proof (search_first variables varName) as Hsearch.
  destruct (search variables varName) as [v|]; [exact Hsearch|].
  split; [reflexivity|exact Hsearch].
Qed.

End FindVariable.

(** ** Console messages and page errors: what reaches the editor *)

Section ConsoleOutputFacts.
Import Handler FirefoxDebugProtocol ConsoleOutput Inputs.Console.

Lemma addLocation_run env ev url l c :
  lookupsSucceed env →
  ∃ tr ev', addLocation env ev url l c tt = (tt, tr, Done ev')
            ∧ shown ev' = shown ev
            ∧ sentEvents (map fst tr) = [].
Proof.
  intros [Hfind Hadapter]. unfold addLocation, bind, perform, await, ret.
  destruct (Hfind url l c) as [location ->].
  destruct location as [[[originalUrl|] ol oc]|]; simpl.
  2, 3: eexists _, _; repeat split.
  destruct (JS.truthy_string originalUrl); simpl; [|eexists _, _; repeat split].
  destruct (Hadapter originalUrl) as [adapter ->].
  destruct adapter; simpl; eexists _, _; repeat split.
Qed.

Lemma sentEvents_app l1 l2 : sentEvents (l1 ++ l2) = sentEvents l1 ++ sentEvents l2.
Proof. apply omap_app. Qed.

Lemma onErrorMessage_run env pageError :
  lookupsSucceed env →
  outcome (onErrorMessage env pageError tt) = Done tt
  ∧ map shown (sentEvents (effects (onErrorMessage env pageError tt)))
    = if String.eqb (error_category pageError) "content javascript"
      then [(if exception pageError then "stderr" else "stdout",
             errorMessage pageError +:+ newline)]
      else [].
Proof.
  intros Hlookups. unfold onErrorMessage, bind, perform, ret, outcome, effects, trace.
  destruct (String.eqb (error_category pageError) "content javascript"); [|split; reflexivity].
  destruct (addLocation_run env
              (newOutputEvent (errorMessage pageError +:+ newline)
                 (if exception pageError then "stderr" else "stdout"))
              (sourceName pageError) (error_lineNumber pageError)
              (error_columnNumber pageError) Hlookups) as (tr & ev' & -> & Hshown & Hnone).
  cbn [fst snd]. split; [reflexivity|].
  rewrite !map_app, !sentEvents_app, Hnone. simpl. rewrite Hshown. reflexivity.
Qed.

(** X25: of a batch of page errors, exactly the errors of category
    ['content javascript'] reach the editor, in order, one output event
    each: the text is the error message and a newline, the category is
    [stderr] for an exception and [stdout] otherwise.  (The lookups of
    [addLocation] are taken not to fail.) *)
Theorem page_errors_reported env (messages : list PageError) :
  lookupsSucceed env →
  outcome (onErrorMessages env messages tt) = Done tt
  ∧ map shown (sentEvents (effects (onErrorMessages env messages tt)))
    = map (λ e, (if exception e then "stderr" else "stdout", errorMessage e +:+ newline))
        (filter (λ e, error_category e = "content javascript") messages).
Proof.
  intros Hlookups. induction messages as [|pageError messages [IHout IHshown]].
  - split; reflexivity.
  - destruct (onErrorMessage_run env pageError Hlookups) as [Hout Hshown].
    cbn [onErrorMessages]. unfold bind, outcome, effects, trace in *.
    destruct (onErrorMessage env pageError tt) as [[[] t1] o1]. cbn [fst snd] in *. subst o1.
    destruct (onErrorMessages env messages tt) as [[[] t2] o2]. cbn [fst snd] in *.
    split; [exact IHout|].
    rewrite map_app, sentEvents_app, map_app, Hshown, IHshown, filter_cons.
    destruct (String.eqb_spec (error_category pageError) "content javascript") as [Heq|Hne].
    + destruct (decide (error_category pageError = "content javascript")); [|contradiction].
      reflexivity.
    + destruct (decide (error_category pageError = "content javascript")); [contradiction|].
      reflexivity.
Qed.

Lemma page_errors_reported_witness :
  outcome (onErrorMessages unmapped [cssWarning; typeError] tt) = Done tt
  ∧ map shown (sentEvents (effects (onErrorMessages unmapped [cssWarning; typeError] tt)))
    = [("stderr", "TypeError: x is undefined" +:+ newline)].
Proof.
  apply (page_errors_reported unmapped [cssWarning; typeError]).
  split; intros; eexists; reflexivity.
Defined.

Lemma send_built env message (builder : H OutputBody) x :
  lookupsSucceed env →
  (∃ tr0 ev0, builder tt = (tt, tr0, Done ev0)
              ∧ sentEvents (map fst tr0) = []
              ∧ shown ev0 = x) →
  let r := bind (perform (LogDebug (ConsoleAPI message)))
             (λ _, bind builder
                (λ outputEvent,
                   bind (addLocation env outputEvent (filename message)
                           (lineNumber message) (columnNumber message))
                     (λ outputEvent, perform (SendEvent outputEvent)))) tt in
  outcome r = Done tt
  ∧ map shown (sentEvents (effects r)) = [x].
Proof.
  intros Hlookups (tr0 & ev0 & Hbuilt & Hnone & Hbuiltshown).
  destruct (addLocation_run env ev0 (filename message) (lineNumber message)
              (columnNumber message) Hlookups) as (tr & ev' & Hadd & Hshown & Hnone').
  unfold bind, perform, outcome, effects, trace. rewrite Hbuilt, Hadd. cbn [fst snd].
  split; [reflexivity|].
  change ([(LogDebug (ConsoleAPI message), ())] ++ tr0 ++ tr ++ [(SendEvent ev', ())])
    with ((LogDebug (ConsoleAPI message), ()) :: (tr0 ++ tr ++ [(SendEvent ev', ())])).
  rewrite map_cons, !map_app. cbn [map fst].
  change (sentEvents (LogDebug (ConsoleAPI message) :: ?l)) with (sentEvents l).
  rewrite !sentEvents_app, Hnone, Hnone'. cbn [app].
  change (sentEvents [SendEvent ev']) with [ev'].
  cbn [map]. rewrite Hshown, Hbuiltshown. reflexivity.
Qed.

Lemma sendConsoleMessage_run env config message :
  lookupsSucceed env →
  outcome (sendConsoleMessage env config message tt) = Done tt
  ∧ map shown (sentEvents (effects (sendConsoleMessage env config message tt)))
    = option_list (reported env config message).
Proof.
  intros Hlookups. unfold sendConsoleMessage, reported, startsTimer.
  destruct (String.eqb (level message) "clear").
  { split; reflexivity. }
  destruct (String.eqb (level message) "time" && noTimerError message).
  { split; reflexivity. }
  destruct (String.eqb (level message) "time" && timerErrorIs message "timerAlreadyExists").
  { apply (send_built env message); [exact Hlookups|].
    eexists _, _. repeat split. }
  destruct ((String.eqb (level message) "timeLog" || String.eqb (level message) "timeEnd")
            && timerErrorIs message "timerDoesntExist").
  { apply (send_built env message); [exact Hlookups|].
    eexists _, _. repeat split. }
  cbn [option_list].
  apply (send_built env message); [exact Hlookups|].
  destruct (previews env message 0 (arguments message)) as [ps args]. cbn [fst].
  destruct (0 <? length args)%nat; eexists _, _; repeat split.
Qed.

(** X26: of a batch of console API calls, the editor is shown the calls in
    the order of the batch, each call but the start of a timer as one
    output event of its own, and the start of a timer ([time] without a
    timer error) not at all.  The event of a [clear] call is the
    clear-screen sequence in the category [console]; a timer that already
    exists or does not exist is reported as such in the category
    [console]; every other call shows the previews of its arguments joined
    by spaces, followed by the location of the call when
    [showConsoleCallLocation] is set, and a newline, in the category
    [stderr] for the level [error], [console] for [warn] and [stdout]
    otherwise.  (The lookups of [addLocation] are taken not to fail.) *)
Theorem console_messages_reported env config (messages : list ConsoleMessage) :
  lookupsSucceed env →
  outcome (onConsoleMessages env config messages tt) = Done tt
  ∧ map shown (sentEvents (effects (onConsoleMessages env config messages tt)))
    = omap (reported env config) messages.
Proof.
  intros Hlookups. induction messages as [|message messages [IHout IHsent]].
  - split; reflexivity.
  - destruct (sendConsoleMessage_run env config message Hlookups) as [Hout Hsent].
    cbn [onConsoleMessages]. unfold bind, outcome, effects, trace in *.
    destruct (sendConsoleMessage env config message tt) as [[[] t1] o1].
    cbn [fst snd] in *. subst o1.
    destruct (onConsoleMessages env config messages tt) as [[[] t2] o2]. cbn [fst snd] in *.
    split; [exact IHout|].
    rewrite map_app, sentEvents_app, map_app, Hsent, IHsent.
    change (omap (reported env config) (message :: messages))
      with (match reported env config message with
            | Some x => x :: omap (reported env config) messages
            | None => omap (reported env config) messages
            end).
    destruct (reported env config message); reflexivity.
Qed.

Lemma console_messages_reported_witness :
  outcome (onConsoleMessages unmapped (mkConfig true) [errorCall; timerStart; warning] tt)
  = Done tt
  ∧ map shown (sentEvents (effects (onConsoleMessages unmapped (mkConfig true)
                                      [errorCall; timerStart; warning] tt)))
    = [("stderr", "failed (undefined:2:1)" +:+ newline);
       ("console", "careful (undefined:5:3)" +:+ newline)].
Proof.
  apply (console_messages_reported unmapped (mkConfig true) [errorCall; timerStart; warning]).
  split; intros; eexists; reflexivity.
Defined.

End ConsoleOutputFacts.
